(** * Coordinates and cells of [iris.coords]

    A shallow embedding of [lib/iris/coords.py]: the [Cell] value with its
    two comparison protocols, the [CoordDefn] sort key, and the parts of
    [Coord], [DimCoord] and [AuxCoord] that own and replace the points and
    bounds arrays.

    Conventions.
    - Python 3 semantics are used for the built-in comparisons: [==] between
      values of different kinds is [False], an ordering between them raises
      [TypeError].
    - Numbers are rationals ([Q]), which hold every integer and every
      finite float; numeric equality is [Qeq] and the comparisons are exact.
      What [+], [-], [*], [/] and [%] compute depends on the type of the
      operands and is a parameter, [arithmetic].
    - A Python call that may raise returns a [result]; the exception class is
      kept. *)

From Stdlib Require Import QArith ZArith List String Bool Lia Lqa.
From Stdlib Require Import Qround Qabs Qpower OrderedTypeEx.
Import ListNotations.

Local Open Scope Q_scope.

(** ** Exceptions and results *)

Inductive exn : Type :=
| ValueError
| TypeError
| IndexError
| AttributeError.

Inductive result (A : Type) : Type :=
| Ok (a : A)
| Raise (e : exn).

Arguments Ok {A} a.
Arguments Raise {A} e.

Definition bind {A B : Type} (r : result A) (k : A -> result B) : result B :=
  match r with
  | Ok a => k a
  | Raise e => Raise e
  end.

Notation "x <- r ;; k" := (bind r (fun x => k))
  (at level 61, r at next level, right associativity).

Definition is_ok {A : Type} (r : result A) : bool :=
  match r with Ok _ => true | Raise _ => false end.

(** The value of a rich comparison method: a boolean or the
    [NotImplemented] singleton. *)
Inductive pybool : Type :=
| PyBool (b : bool)
| NotImplemented.

(** ** Scalars *)

(** The three datetime-like classes the module knows:
    [netcdftime.datetime], [datetime.datetime] and
    [iris.time.PartialDateTime].  All three have a [timetuple] attribute.  A
    date is abstracted to its class and an instant. *)
Inductive date_kind : Type := Netcdftime | Datetime | Partial.

Inductive scalar : Type :=
| SNum (q : Q)
| SStr (s : string)
| SDate (k : date_kind) (t : Z).

(** [isinstance(x, (int, float, np.number))] *)
Definition is_number (x : scalar) : bool :=
  match x with SNum _ => true | _ => false end.

(** [isinstance(x, six.string_types)] *)
Definition is_string (x : scalar) : bool :=
  match x with SStr _ => true | _ => false end.

(** [hasattr(x, 'timetuple')] *)
Definition has_timetuple (x : scalar) : bool :=
  match x with SDate _ _ => true | _ => false end.

(** [isinstance(x, netcdftime.datetime)] *)
Definition is_netcdftime (x : scalar) : bool :=
  match x with SDate Netcdftime _ => true | _ => false end.

(** [isinstance(x, iris.time.PartialDateTime)] *)
Definition is_partial (x : scalar) : bool :=
  match x with SDate Partial _ => true | _ => false end.

Definition Qltb (x y : Q) : bool := negb (Qle_bool y x).

(** The members of [operator] that [Cell.__common_cmp__] accepts. *)
Inductive cmpop : Type := OpLt | OpLe | OpGt | OpGe.

Definition Qcmp (op : cmpop) (x y : Q) : bool :=
  match op with
  | OpLt => Qltb x y
  | OpLe => Qle_bool x y
  | OpGt => Qltb y x
  | OpGe => Qle_bool y x
  end.

Definition Zcmp (op : cmpop) (x y : Z) : bool :=
  match op with
  | OpLt => Z.ltb x y
  | OpLe => Z.leb x y
  | OpGt => Z.ltb y x
  | OpGe => Z.leb y x
  end.

Definition Scmp (op : cmpop) (x y : string) : bool :=
  match op with
  | OpLt => String.ltb x y
  | OpLe => String.leb x y
  | OpGt => String.ltb y x
  | OpGe => String.leb y x
  end.

(** [a == b] on scalars; never raises. *)
Definition py_eq (a b : scalar) : bool :=
  match a, b with
  | SNum x, SNum y => Qeq_bool x y
  | SStr x, SStr y => String.eqb x y
  | SDate _ x, SDate _ y => Z.eqb x y
  | _, _ => false
  end.

(** [operator_method(a, b)] on scalars. *)
Definition py_cmp (op : cmpop) (a b : scalar) : result bool :=
  match a, b with
  | SNum x, SNum y => Ok (Qcmp op x y)
  | SStr x, SStr y => Ok (Scmp op x y)
  | SDate _ x, SDate _ y => Ok (Zcmp op x y)
  | _, _ => Raise TypeError
  end.

(** The built-in [min] and [max] of a tuple: the first element is the
    candidate, a later one replaces it when strictly smaller (larger). *)
Fixpoint py_extreme_from (op : cmpop) (m : scalar) (l : list scalar)
  : result scalar :=
  match l with
  | [] => Ok m
  | x :: r =>
      b <- py_cmp op x m ;;
      py_extreme_from op (if b then x else m) r
  end.

Definition py_min (l : list scalar) : result scalar :=
  match l with
  | [] => Raise ValueError
  | x :: r => py_extreme_from OpLt x r
  end.

Definition py_max (l : list scalar) : result scalar :=
  match l with
  | [] => Raise ValueError
  | x :: r => py_extreme_from OpGt x r
  end.

(** [np.min] and [np.max] of a tuple: the tuple becomes an array first, so
    the reduction is defined for numbers only. *)
Fixpoint as_numbers (l : list scalar) : option (list Q) :=
  match l with
  | [] => Some []
  | SNum q :: r =>
      match as_numbers r with
      | Some qs => Some (q :: qs)
      | None => None
      end
  | _ :: _ => None
  end.

Definition Qextreme (op : cmpop) (m : Q) (l : list Q) : Q :=
  fold_left (fun m x => if Qcmp op x m then x else m) l m.

Definition np_extreme (op : cmpop) (l : list scalar) : result scalar :=
  match as_numbers l with
  | None => Raise TypeError
  | Some [] => Raise ValueError
  | Some (q :: qs) => Ok (SNum (Qextreme op q qs))
  end.

Definition np_min : list scalar -> result scalar := np_extreme OpLt.
Definition np_max : list scalar -> result scalar := np_extreme OpGt.

(** ** Arithmetic

    Python and numpy compute [+], [-], [*], [/] and [%] in the type of the
    operands: a float64 result is the exact result rounded to the nearest
    float, an int64 result wraps around.  The result is a number again, but
    not always the exact one, so the five operations are a parameter of
    every definition that computes with them.  Comparisons are exact, and
    so are negation and absolute values. *)
Record arithmetic : Type := mk_arithmetic {
  np_add : Q -> Q -> Q;
  np_subtract : Q -> Q -> Q;
  np_multiply : Q -> Q -> Q;
  np_true_divide : Q -> Q -> Q;
  np_remainder : Q -> Q -> Q
}.

(** [x % m] without rounding, for a positive [m]. *)
Definition Qmod (x m : Q) : Q := x - m * inject_Z (Qfloor (x / m)).

(** Arithmetic without rounding: what the operations compute wherever the
    exact result is a value of the type, as on integers of moderate size
    and their halves. *)
Definition exact : arithmetic := mk_arithmetic Qplus Qminus Qmult Qdiv Qmod.

(** [2 ** k] *)
Definition pow2 (k : Z) : Q := 2 ^ k.

(** The integer nearest to [a], the even one of two that are as near. *)
Definition round_half_even (a : Q) : Z :=
  let n := Qfloor a in
  match Qcompare (a - inject_Z n) (1 # 2) with
  | Lt => n
  | Gt => (n + 1)%Z
  | Eq => if Z.even n then n else (n + 1)%Z
  end.

(** The exponent [e] of a positive number [a]: [2 ** e <= a < 2 ** (e + 1)]. *)
Definition exponent (a : Q) : Z :=
  let e0 := (Z.log2 (Qnum a) - Z.log2 (Zpos (Qden a)))%Z in
  if Qltb a (pow2 e0) then (e0 - 1)%Z else e0.

(** The exponent of the last bit of a float64 of the size of [a]: 52
    below that of [a], and not below that of the subnormal numbers. *)
Definition quantum (a : Q) : Z := Z.max (exponent a - 52) (- 1074).

(** The positive number [a] with its significand rounded to 53 bits. *)
Definition round_magnitude (a : Q) : Q :=
  inject_Z (round_half_even (a / pow2 (quantum a))) * pow2 (quantum a).

(** The float64 nearest to [x].  Results beyond the largest float, which
    are infinite, are left out. *)
Definition float64 (x : Q) : Q :=
  if Qeq_bool x 0 then 0
  else if Qltb x 0 then - round_magnitude (- x)
  else round_magnitude x.

(** float64 arithmetic on finite floats: the exact result, rounded. *)
Definition binary64 : arithmetic :=
  mk_arithmetic (fun x y => float64 (x + y))
                (fun x y => float64 (x - y))
                (fun x y => float64 (x * y))
                (fun x y => float64 (x / y))
                (fun x y => float64 (Qmod x y)).

(** [a + b] on scalars: numbers add, strings concatenate, anything else
    (a date and a number among them) is a [TypeError]. *)
Definition py_add (ar : arithmetic) (a b : scalar) : result scalar :=
  match a, b with
  | SNum x, SNum y => Ok (SNum (np_add ar x y))
  | SStr x, SStr y => Ok (SStr (x ++ y))
  | _, _ => Raise TypeError
  end.

(** [[val + m for val in bound]] *)
Fixpoint add_each (ar : arithmetic) (bound : list scalar) (m : scalar)
  : result (list scalar) :=
  match bound with
  | [] => Ok []
  | val :: r =>
      v <- py_add ar val m ;;
      r' <- add_each ar r m ;;
      Ok (v :: r')
  end.

(** ** Cell *)

Module Cell.

(** [collections.namedtuple('Cell', ['point', 'bound'])]: [bound] is [None]
    or a tuple. *)
Record t : Type := mk {
  point : scalar;
  bound : option (list scalar)
}.

(** What a caller may pass as [point] to the constructor. *)
Inductive point_arg : Type :=
| PNone
| PScalar (x : scalar)
| PSeq (xs : list scalar).

(** [Cell.__new__]: a sequence (tuple, list or flattened array) of length
    one is unwrapped, [bound] goes through [tuple(bound)]. *)
Definition __new__ (point : point_arg) (bound : option (list scalar))
  : result t :=
  match point with
  | PNone => Raise ValueError
  | PScalar x => Ok (mk x bound)
  | PSeq xs =>
      match xs with
      | [x] => Ok (mk x bound)
      | _ => Raise ValueError
      end
  end.

(** The right-hand operand of a comparison. *)
Inductive operand : Type :=
| OScalar (x : scalar)
| OCell (c : t)
| OOther.

(** [Cell.contains_point] *)
Definition contains_point (self : t) (p : scalar) : result bool :=
  match bound self with
  | None => Raise ValueError
  | Some b =>
      if has_timetuple p || existsb has_timetuple b then Raise TypeError
      else
        lo <- np_min b ;;
        inside_lo <- py_cmp OpLe lo p ;;
        if inside_lo then
          hi <- np_max b ;;
          py_cmp OpLe p hi
        else Ok false
  end.

(** [==] on two tuples. *)
Fixpoint tuple_eq (a b : list scalar) : bool :=
  match a, b with
  | [], [] => true
  | x :: a', y :: b' => py_eq x y && tuple_eq a' b'
  | _, _ => false
  end.

Definition bound_eq (a b : option (list scalar)) : bool :=
  match a, b with
  | None, None => true
  | Some x, Some y => tuple_eq x y
  | _, _ => false
  end.

(** [Cell.__eq__] *)
Definition __eq__ (self : t) (other : operand) : result pybool :=
  match other with
  | OScalar o =>
      if is_number o || has_timetuple o then
        match bound self with
        | Some _ => b <- contains_point self o ;; Ok (PyBool b)
        | None => Ok (PyBool (py_eq (point self) o))
        end
      else if is_string o
              && (match bound self with None => true | Some _ => false end)
              && is_string (point self)
      then Ok (PyBool (py_eq (point self) o))
      else Ok NotImplemented
  | OCell c =>
      Ok (PyBool (py_eq (point self) (point c)
                  && bound_eq (bound self) (bound c)))
  | OOther => Ok NotImplemented
  end.

(** [self.bound[i]] *)
Definition item (b : list scalar) (i : nat) : result scalar :=
  match nth_error b i with
  | Some x => Ok x
  | None => Raise IndexError
  end.

Definition is_lt_le (op : cmpop) : bool :=
  match op with OpLt | OpLe => true | _ => false end.

Definition is_gt_ge (op : cmpop) : bool :=
  match op with OpGt | OpGe => true | _ => false end.

Definition is_gt_le (op : cmpop) : bool :=
  match op with OpGt | OpLe => true | _ => false end.

(** [Cell.__common_cmp__] *)
Definition __common_cmp__ (self : t) (other : operand) (op : cmpop)
  : result bool :=
  match other with
  | OOther => Raise TypeError
  | OScalar o =>
      if negb (is_number o || has_timetuple o) then Raise TypeError
      else if is_netcdftime o
              || (is_netcdftime (point self) && negb (is_partial o))
      then Raise TypeError
      else
        me <- match bound self with
              | None => Ok (point self)
              | Some b =>
                  if has_timetuple o then Raise TypeError
                  else if is_gt_le op then py_min b else py_max b
              end ;;
        py_cmp op me o
  | OCell c =>
      if is_netcdftime (point self) then Raise TypeError
      else
        match bound self, bound c with
        | None, None => py_cmp op (point self) (point c)
        | None, Some _ =>
            if py_eq (point self) (point c) then Ok (is_lt_le op)
            else py_cmp op (point self) (point c)
        | Some _, None =>
            if py_eq (point self) (point c) then Ok (is_gt_ge op)
            else py_cmp op (point self) (point c)
        | Some sb, Some ob =>
            s0 <- item sb 0 ;;
            o0 <- item ob 0 ;;
            if py_eq s0 o0 then
              s1 <- item sb 1 ;;
              o1 <- item ob 1 ;;
              if py_eq s1 o1 then py_cmp op (point self) (point c)
              else
                (* the operands are read again for the call *)
                py_cmp op s1 o1
            else py_cmp op s0 o0
        end
  end.

Definition __ge__ (self : t) (other : operand) := __common_cmp__ self other OpGe.
Definition __le__ (self : t) (other : operand) := __common_cmp__ self other OpLe.
Definition __gt__ (self : t) (other : operand) := __common_cmp__ self other OpGt.
Definition __lt__ (self : t) (other : operand) := __common_cmp__ self other OpLt.

(** A number on the left of a cell: [int] and [float] return
    [NotImplemented] for a [Cell] operand, so Python calls the reflected
    method of the cell. *)
Definition num_lt_cell (v : Q) (c : t) : result bool := __gt__ c (OScalar (SNum v)).
Definition num_gt_cell (v : Q) (c : t) : result bool := __lt__ c (OScalar (SNum v)).
Definition num_le_cell (v : Q) (c : t) : result bool := __ge__ c (OScalar (SNum v)).
Definition num_ge_cell (v : Q) (c : t) : result bool := __le__ c (OScalar (SNum v)).
Definition num_eq_cell (v : Q) (c : t) : result pybool := __eq__ c (OScalar (SNum v)).

(** A string on the left of a cell, likewise. *)
Definition str_eq_cell (s : string) (c : t) : result pybool :=
  __eq__ c (OScalar (SStr s)).

(** Cells whose point and bound values are all numbers, the bound holding
    at least one value. *)
Definition numeric (c : t) : bool :=
  is_number (point c)
  && match bound c with
     | None => true
     | Some b => forallb is_number b && negb (Nat.eqb (List.length b) 0)
     end.

(** [Cell.__ne__] *)
Definition __ne__ (self : t) (other : operand) : result pybool :=
  result <- __eq__ self other ;;
  Ok (match result with
      | PyBool b => PyBool (negb b)
      | NotImplemented => NotImplemented
      end).

(** [v != c] with the number on the left, through the reflected method. *)
Definition num_ne_cell (v : Q) (c : t) : result pybool := __ne__ c (OScalar (SNum v)).

(** [Cell.__add__] *)
Definition __add__ (ar : arithmetic) (self : t) (m : scalar) : result t :=
  point <- py_add ar (point self) m ;;
  bound <- match bound self with
           | None => Ok None
           | Some b => b' <- add_each ar b m ;; Ok (Some b')
           end ;;
  __new__ (PScalar point) bound.

(** Cells of numbers whose bound, when there is one, is a pair. *)
Definition numeric_pair (c : t) : bool :=
  is_number (point c)
  && match bound c with
     | None => true
     | Some b => forallb is_number b && Nat.eqb (List.length b) 2
     end.

End Cell.

(** ** CoordDefn *)

Module CoordDefn.

Section Defn.

(** [cf_units.Unit] and the coordinate-system classes live outside this
    module; their [==] and [<] are taken as given. *)
Variables Unit CoordSystem : Type.
Variables unit_eqb unit_ltb : Unit -> Unit -> bool.
Variables cs_eqb cs_ltb : CoordSystem -> CoordSystem -> bool.

(** The named tuple. [attributes] is a dictionary. *)
Record t : Type := mk {
  standard_name : option string;
  long_name : option string;
  var_name : option string;
  units : option Unit;
  attributes : list (string * string);
  coord_system : option CoordSystem
}.

(** The values that occur in a sort key. *)
Inductive key_item : Type :=
| KBool (b : bool)
| KName (s : option string)
| KUnits (u : option Unit)
| KSystem (c : option CoordSystem).

(** [x is not None] *)
Definition is_not_None {A : Type} (x : option A) : bool :=
  match x with Some _ => true | None => false end.

(** [_sort_key], local to [__lt__] *)
Definition _sort_key (defn : t) : list key_item :=
  [ KBool (is_not_None (standard_name defn)); KName (standard_name defn);
    KBool (is_not_None (long_name defn)); KName (long_name defn);
    KBool (is_not_None (var_name defn)); KName (var_name defn);
    KBool (is_not_None (units defn)); KUnits (units defn);
    KBool (is_not_None (coord_system defn)); KSystem (coord_system defn) ].

(** [x == y] on key items. *)
Definition item_eq (x y : key_item) : bool :=
  match x, y with
  | KBool a, KBool b => Bool.eqb a b
  | KName None, KName None => true
  | KName (Some a), KName (Some b) => String.eqb a b
  | KUnits None, KUnits None => true
  | KUnits (Some a), KUnits (Some b) => unit_eqb a b
  | KSystem None, KSystem None => true
  | KSystem (Some a), KSystem (Some b) => cs_eqb a b
  | _, _ => false
  end.

(** [x < y] on key items; [None] is not orderable. *)
Definition item_lt (x y : key_item) : result bool :=
  match x, y with
  | KBool a, KBool b => Ok (negb a && b)
  | KName (Some a), KName (Some b) => Ok (String.ltb a b)
  | KUnits (Some a), KUnits (Some b) => Ok (unit_ltb a b)
  | KSystem (Some a), KSystem (Some b) => Ok (cs_ltb a b)
  | _, _ => Raise TypeError
  end.

(** [<] on tuples: the first position where the items differ decides;
    without one, the shorter tuple is the smaller. *)
Fixpoint tuple_lt (a b : list key_item) : result bool :=
  match a, b with
  | [], [] => Ok false
  | [], _ :: _ => Ok true
  | _ :: _, [] => Ok false
  | x :: a', y :: b' =>
      if item_eq x y then tuple_lt a' b' else item_lt x y
  end.

Inductive operand : Type :=
| ODefn (d : t)
| OOther.

(** [CoordDefn.__lt__] *)
Definition __lt__ (self : t) (other : operand) : result pybool :=
  match other with
  | OOther => Ok NotImplemented
  | ODefn o =>
      b <- tuple_lt (_sort_key self) (_sort_key o) ;;
      Ok (PyBool b)
  end.

(** The order the ordering is checked against: lexicographic over the
    five fields of the key, each field ordered with [None] first and two
    present values by their own order. *)
Definition option_eqb {A : Type} (eqb : A -> A -> bool) (x y : option A) : bool :=
  match x, y with
  | None, None => true
  | Some a, Some b => eqb a b
  | _, _ => false
  end.

Definition None_first_ltb {A : Type} (ltb : A -> A -> bool) (x y : option A) : bool :=
  match x, y with
  | None, Some _ => true
  | Some a, Some b => ltb a b
  | _, _ => false
  end.

Definition lex_lt (d1 d2 : t) : bool :=
  if negb (option_eqb String.eqb (standard_name d1) (standard_name d2))
  then None_first_ltb String.ltb (standard_name d1) (standard_name d2)
  else if negb (option_eqb String.eqb (long_name d1) (long_name d2))
  then None_first_ltb String.ltb (long_name d1) (long_name d2)
  else if negb (option_eqb String.eqb (var_name d1) (var_name d2))
  then None_first_ltb String.ltb (var_name d1) (var_name d2)
  else if negb (option_eqb unit_eqb (units d1) (units d2))
  then None_first_ltb unit_ltb (units d1) (units d2)
  else if negb (option_eqb cs_eqb (coord_system d1) (coord_system d2))
  then None_first_ltb cs_ltb (coord_system d1) (coord_system d2)
  else false.

(** Two definitions with the same key fields ([attributes] is not part of
    the key). *)
Definition same_key (d1 d2 : t) : Prop :=
  standard_name d1 = standard_name d2 /\
  long_name d1 = long_name d2 /\
  var_name d1 = var_name d2 /\
  units d1 = units d2 /\
  coord_system d1 = coord_system d2.

(** [x or y] on an optional string and a string: [None] and the empty
    string are false. *)
Definition or_else (x : option string) (y : string) : string :=
  match x with
  | Some s => if String.eqb s EmptyString then y else s
  | None => y
  end.

(** [CoordDefn.name] *)
Definition name (self : t) (default : string) : string :=
  or_else (standard_name self) (or_else (long_name self) (or_else (var_name self) default)).

End Defn.

Arguments mk {Unit CoordSystem}.
Arguments standard_name {Unit CoordSystem}.
Arguments long_name {Unit CoordSystem}.
Arguments var_name {Unit CoordSystem}.
Arguments units {Unit CoordSystem}.
Arguments attributes {Unit CoordSystem}.
Arguments coord_system {Unit CoordSystem}.
Arguments ODefn {Unit CoordSystem}.
Arguments OOther {Unit CoordSystem}.
Arguments __lt__ {Unit CoordSystem}.
Arguments lex_lt {Unit CoordSystem}.
Arguments same_key {Unit CoordSystem}.
Arguments name {Unit CoordSystem}.

End CoordDefn.

(** What makes a boolean equality and a boolean order a strict total
    order. *)
Record strict_total {A : Type} (eqb ltb : A -> A -> bool) : Prop := {
  st_eqb : forall a b, eqb a b = true <-> a = b;
  st_irrefl : forall a, ltb a a = false;
  st_trans : forall a b c, ltb a b = true -> ltb b c = true -> ltb a c = true;
  st_total : forall a b, ltb a b = false -> ltb b a = false -> a = b
}.

(** ** Arrays and their manager *)

(** A one-dimensional array of numbers, and a two-dimensional one as its
    rows (for bounds: one row of bound values per cell). *)
Definition array1 : Type := list Q.
Definition array2 : Type := list (list Q).

(** Modelled from the spec: [iris._data_manager.DataManager] is not part of
    this module; the backing-array manager holds one array, [core_data]
    returns what is held, assigning to [data] replaces it in place, and
    [copy(data=...)] gives a manager of the new array. *)
Record DataManager (A : Type) : Type := mk_dm { core_data : A }.

Arguments mk_dm {A}.
Arguments core_data {A}.

Definition dm_set_data {A : Type} (dm : DataManager A) (data : A) : DataManager A :=
  mk_dm data.

Definition dm_copy {A : Type} (dm : DataManager A) (data : A) : DataManager A :=
  mk_dm data.

(** The exact differences of neighbouring values. *)
Fixpoint diff (l : array1) : array1 :=
  match l with
  | x :: ((y :: _) as r) => (y - x) :: diff r
  | _ => []
  end.

(** [np.diff] *)
Fixpoint np_diff (ar : arithmetic) (l : array1) : array1 :=
  match l with
  | x :: ((y :: _) as r) => np_subtract ar y x :: np_diff ar r
  | _ => []
  end.

(** Modelled from the spec: [iris.util.monotonic(a, strict=True,
    return_direction=True)] is not part of this module; strictly monotonic
    means every step has the same sign and none is zero.  The direction is
    that sign. *)
Definition monotonic (a : array1) : bool * Z :=
  let d := diff a in
  if forallb (fun x => Qltb 0 x) d then (true, 1%Z)
  else if forallb (fun x => Qltb x 0) d then (true, (-1)%Z)
  else (false, 0%Z).

(** Modelled from the spec: [iris.util.array_equal] is not part of this
    module; two arrays are equal when they have the same shape and equal
    values. *)
Fixpoint array_equal (a b : array1) : bool :=
  match a, b with
  | [], [] => true
  | x :: a', y :: b' => Qeq_bool x y && array_equal a' b'
  | _, _ => false
  end.

Fixpoint array2_equal (a b : array2) : bool :=
  match a, b with
  | [], [] => true
  | x :: a', y :: b' => array_equal x y && array2_equal a' b'
  | _, _ => false
  end.

(** An index expression: the slice [start:stop]. *)
Inductive keys : Type := Slice (start stop : nat).

(** Modelled from the spec: [iris.util._slice_data_with_keys] is not part of
    this module; the index expression is applied along the first axis, which
    leaves the trailing bounds axis untouched. *)
Definition _slice_data_with_keys {A : Type} (data : list A) (k : keys) : list A :=
  match k with
  | Slice start stop => firstn (stop - start) (skipn start data)
  end.

(** [np.allclose(a, b, rtol, atol)] on finite values. *)
Fixpoint allclose (ar : arithmetic) (a b : array1) (rtol atol : Q) : bool :=
  match a, b with
  | x :: a', y :: b' =>
      Qle_bool (Qabs (np_subtract ar x y))
               (np_add ar atol (np_multiply ar rtol (Qabs y)))
      && allclose ar a' b' rtol atol
  | _, _ => true
  end.

(** ** Coord and DimCoord *)

Module DimCoord.

(** A unit, as far as this module looks into it. *)
Record Unit : Type := mk_unit {
  symbol : string;
  modulus : option Q
}.

Definition CoordSystem : Type := string.

(** The attributes of a [DimCoord] instance.  The six metadata attributes
    are kept as the [CoordDefn] that [_as_defn] builds from them. *)
Record t : Type := mk {
  defn : CoordDefn.t Unit CoordSystem;
  _points_dm : DataManager array1;
  _bounds_dm : option (DataManager array2);
  points_fill_value : option Q;
  bounds_fill_value : option Q;
  circular : bool
}.

Definition with_points_dm (self : t) (dm : DataManager array1) : t :=
  mk (defn self) dm (_bounds_dm self) (points_fill_value self)
     (bounds_fill_value self) (circular self).

Definition with_bounds_dm (self : t) (dm : option (DataManager array2)) : t :=
  mk (defn self) (_points_dm self) dm (points_fill_value self)
     (bounds_fill_value self) (circular self).

Definition with_points_fill_value (self : t) (v : option Q) : t :=
  mk (defn self) (_points_dm self) (_bounds_dm self) v
     (bounds_fill_value self) (circular self).

Definition with_bounds_fill_value (self : t) (v : option Q) : t :=
  mk (defn self) (_points_dm self) (_bounds_dm self) (points_fill_value self)
     v (circular self).

Definition with_circular (self : t) (b : bool) : t :=
  mk (defn self) (_points_dm self) (_bounds_dm self) (points_fill_value self)
     (bounds_fill_value self) b.

(** [Coord._as_defn] *)
Definition _as_defn (self : t) : CoordDefn.t Unit CoordSystem := defn self.

(** [==] on the metadata. *)
Definition option_Q_eqb (a b : option Q) : bool :=
  match a, b with
  | None, None => true
  | Some x, Some y => Qeq_bool x y
  | _, _ => false
  end.

Definition Unit_eqb (u v : Unit) : bool :=
  String.eqb (symbol u) (symbol v) && option_Q_eqb (modulus u) (modulus v).

Fixpoint attributes_eqb (a b : list (string * string)) : bool :=
  match a, b with
  | [], [] => true
  | (k, v) :: a', (k', v') :: b' =>
      String.eqb k k' && String.eqb v v' && attributes_eqb a' b'
  | _, _ => false
  end.

Definition defn_eqb (d1 d2 : CoordDefn.t Unit CoordSystem) : bool :=
  CoordDefn.option_eqb String.eqb (CoordDefn.standard_name d1) (CoordDefn.standard_name d2)
  && CoordDefn.option_eqb String.eqb (CoordDefn.long_name d1) (CoordDefn.long_name d2)
  && CoordDefn.option_eqb String.eqb (CoordDefn.var_name d1) (CoordDefn.var_name d2)
  && CoordDefn.option_eqb Unit_eqb (CoordDefn.units d1) (CoordDefn.units d2)
  && attributes_eqb (CoordDefn.attributes d1) (CoordDefn.attributes d2)
  && CoordDefn.option_eqb String.eqb (CoordDefn.coord_system d1) (CoordDefn.coord_system d2).

(** [CFVariableMixin.name]: the first of the three names that is set and not
    empty. *)
Definition truthy (s : option string) : bool :=
  match s with
  | Some x => negb (String.eqb x EmptyString)
  | None => false
  end.

Definition name (self : t) : string :=
  if truthy (CoordDefn.standard_name (defn self)) then
    match CoordDefn.standard_name (defn self) with Some x => x | None => EmptyString end
  else if truthy (CoordDefn.long_name (defn self)) then
    match CoordDefn.long_name (defn self) with Some x => x | None => EmptyString end
  else if truthy (CoordDefn.var_name (defn self)) then
    match CoordDefn.var_name (defn self) with Some x => x | None => EmptyString end
  else "unknown"%string.

(** The [points] property. *)
Definition points (self : t) : array1 := core_data (_points_dm self).

(** The [bounds] property. *)
Definition bounds (self : t) : option array2 :=
  match _bounds_dm self with
  | Some dm => Some (core_data dm)
  | None => None
  end.

(** [Coord.has_bounds] *)
Definition has_bounds (self : t) : bool :=
  match _bounds_dm self with Some _ => true | None => false end.

(** [Coord.shape]; points are one-dimensional here, the shape is its only
    entry. *)
Definition shape (self : t) : nat := List.length (points self).

Definition ncols (b : array2) : nat :=
  match b with
  | [] => 0%nat
  | r :: _ => List.length r
  end.

(** [Coord.nbounds] *)
Definition nbounds (self : t) : nat :=
  match _bounds_dm self with
  | Some dm => ncols (core_data dm)
  | None => 0%nat
  end.

(** [bounds[:, j]] *)
Definition column (b : array2) (j : nat) : array1 :=
  map (fun row => nth j row 0) b.

(** [DimCoord._new_points_requirements]; an [array1] is one-dimensional
    and numeric, which leaves the monotonicity check. *)
Definition _new_points_requirements (points : array1) : result unit :=
  if (1 <? List.length points)%nat && negb (fst (monotonic points))
  then Raise ValueError
  else Ok tt.

(** The setter of the [points] property. *)
Definition set_points (self : t) (points : array1) : result t :=
  _ <- _new_points_requirements points ;;
  Ok (with_points_dm self (dm_set_data (_points_dm self) points)).

(** The loop of [_new_bounds_requirements] over the bound columns: the
    directions met so far, or the error of the first column that is not
    monotonic. *)
Fixpoint column_directions (b : array2) (js : list nat) (directions : list Z)
  : result (list Z) :=
  match js with
  | [] => Ok directions
  | j :: js' =>
      let (mono, direction) := monotonic (column b j) in
      if negb mono then Raise ValueError
      else column_directions b js'
             (if existsb (Z.eqb direction) directions then directions
              else direction :: directions)
  end.

(** [DimCoord._new_bounds_requirements] *)
Definition _new_bounds_requirements (self : t) (bounds : array2) : result unit :=
  if negb (shape self =? List.length bounds)%nat then Raise ValueError
  else
    let n_bounds := ncols bounds in
    let n_points := List.length bounds in
    if (1 <? n_points)%nat then
      directions <- column_directions bounds (seq 0 n_bounds) [] ;;
      if negb (List.length directions =? 1)%nat then Raise ValueError
      else Ok tt
    else Ok tt.

(** The setter of the [bounds] property. *)
Definition set_bounds (self : t) (bounds : option array2) : result t :=
  match bounds with
  | None => Ok (with_bounds_dm self None)
  | Some b =>
      _ <- _new_bounds_requirements self b ;;
      match _bounds_dm self with
      | None => Raise AttributeError
      | Some dm => Ok (with_bounds_dm self (Some (dm_set_data dm b)))
      end
  end.

(** [DimCoord.is_monotonic] *)
Definition is_monotonic (self : t) : bool := true.

(** [Coord.copy] *)
Definition Coord_copy (self : t) (points : option array1) (bounds : option array2)
  : result t :=
  match points, bounds with
  | None, Some _ => Raise ValueError
  | None, None => Ok self
  | Some p, _ =>
      let points_dm := dm_copy (_points_dm self) p in
      bounds_dm <- match bounds with
                   | None => Ok None
                   | Some b =>
                       match _bounds_dm self with
                       | None => Raise AttributeError
                       | Some dm => Ok (Some (dm_copy dm b))
                       end
                   end ;;
      let new_coord := self in
      new_coord <- set_points new_coord (core_data points_dm) ;;
      match bounds_dm with
      | Some dm => set_bounds new_coord (Some (core_data dm))
      | None => set_bounds new_coord None
      end
  end.

(** [DimCoord.copy]; the override only marks the arrays read-only. *)
Definition copy (self : t) (points : option array1) (bounds : option array2)
  : result t :=
  Coord_copy self points bounds.

(** [Coord.__getitem__] *)
Definition Coord___getitem__ (self : t) (k : keys) : result t :=
  let points := core_data (_points_dm self) in
  bounds <- match _bounds_dm self with
            | None => Raise AttributeError
            | Some dm => Ok (Some (core_data dm))
            end ;;
  let points := _slice_data_with_keys points k in
  let bounds := match bounds with
                | Some b => Some (_slice_data_with_keys b k)
                | None => None
                end in
  copy self (Some points) bounds.

(** [DimCoord.__getitem__] *)
Definition __getitem__ (self : t) (k : keys) : result t :=
  coord <- Coord___getitem__ self k ;;
  Ok (with_circular coord (circular self && (shape coord =? shape self)%nat)).

(** [Coord.__eq__] for an operand that has [_as_defn]. *)
Definition Coord___eq__ (self other : t) : bool :=
  if negb (defn_eqb (_as_defn self) (_as_defn other)) then false
  else if negb (array_equal (points self) (points other)) then false
  else
    match bounds self, bounds other with
    | Some b, Some b' => array2_equal b b'
    | None, None => true
    | _, _ => false
    end.

(** [DimCoord.__eq__] for a [DimCoord] operand. *)
Definition __eq__ (self other : t) : bool :=
  Coord___eq__ self other && Bool.eqb (circular self) (circular other).

Section Replace.

(** [DataManager.replace(data, realised_dtype)] is not part of this
    module and what it does with [data=None] is not stated anywhere;
    it is taken as given: the manager after the call and whether the call
    raised. *)
Variable dm_replace :
  forall A : Type, DataManager A -> option A -> DataManager A * result unit.

(** [Coord.replace_bounds]; the coordinate after the call and the
    outcome. *)
Definition Coord_replace_bounds (self : t) (bounds : option array2)
           (fill_value : option Q) : t * result unit :=
  match _bounds_dm self with
  | None => (self, Raise AttributeError)
  | Some dm =>
      let (dm', r) := dm_replace array2 dm bounds in
      let self := with_bounds_dm self (Some dm') in
      match r with
      | Raise e => (self, Raise e)
      | Ok _ => (with_bounds_fill_value self fill_value, Ok tt)
      end
  end.

(** [DimCoord.replace_bounds] *)
Definition replace_bounds (self : t) (bounds : option array2)
           (fill_value : option Q) : t * result unit :=
  match (match bounds with
         | Some b => _new_bounds_requirements self b
         | None => Ok tt
         end) with
  | Raise e => (self, Raise e)
  | Ok _ => Coord_replace_bounds self bounds None
  end.

(** [Coord.replace_points]; [self.replace_bounds()] is the method of the
    instance. *)
Definition Coord_replace_points (self : t) (points : array1)
           (fill_value : option Q) : t * result unit :=
  let (dm', r) := dm_replace array1 (_points_dm self) (Some points) in
  let self := with_points_dm self dm' in
  match r with
  | Raise e => (self, Raise e)
  | Ok _ =>
      let self := with_points_fill_value self fill_value in
      replace_bounds self None None
  end.

(** [DimCoord.replace_points] *)
Definition replace_points (self : t) (points : array1)
           (fill_value : option Q) : t * result unit :=
  match _new_points_requirements points with
  | Raise e => (self, Raise e)
  | Ok _ => Coord_replace_points self points None
  end.

End Replace.

(** [a op b] elementwise, over the shorter length. *)
Fixpoint zip_with {A B C : Type} (f : A -> B -> C) (a : list A) (b : list B)
  : list C :=
  match a, b with
  | x :: a', y :: b' => f x y :: zip_with f a' b'
  | _, _ => []
  end.

(** [np.clip(x, lo, hi)] *)
Definition clip (lo hi x : Q) : Q :=
  let x := if Qltb x lo then lo else x in
  if Qltb hi x then hi else x.

(** [self.units.modulus] *)
Definition units_modulus (self : t) : result Q :=
  match CoordDefn.units (defn self) with
  | None => Raise AttributeError
  | Some u =>
      match modulus u with
      | None => Raise TypeError
      | Some m => Ok m
      end
  end.

(** [self.units == 'degree'] *)
Definition units_is_degree (self : t) : bool :=
  match CoordDefn.units (defn self) with
  | Some u => String.eqb (symbol u) "degree"
  | None => false
  end.

(** [Coord._guess_bounds]; [clip_latitudes] is the flag
    [iris.FUTURE.clip_latitudes]. *)
Definition _guess_bounds (ar : arithmetic) (clip_latitudes : bool) (self : t)
           (bound_position : Q) : result array2 :=
  if negb (is_monotonic self) then Raise ValueError
  else if (shape self <? 2)%nat then Raise ValueError
  else
    match bounds self with
    | Some _ => Raise ValueError
    | None =>
        let pts := points self in
        diffs <- (if circular self then
                    m <- units_modulus self ;;
                    let direction :=
                      if Qltb (hd 0 pts) (last pts 0) then 1 else - (1) in
                    Ok (np_diff ar
                          (np_subtract ar (last pts 0) (np_multiply ar m direction)
                             :: pts ++ [np_add ar (hd 0 pts)
                                               (np_multiply ar m direction)]))
                  else
                    let d := np_diff ar pts in
                    Ok ((hd 0 d :: d) ++ [last d 0])) ;;
        let min_bounds :=
          zip_with (fun p d => np_subtract ar p (np_multiply ar d bound_position))
                   pts (removelast diffs) in
        let max_bounds :=
          zip_with (fun p d =>
                      np_add ar p (np_multiply ar d (np_subtract ar 1 bound_position)))
                   pts (tl diffs) in
        let bounds := zip_with (fun lo hi => [lo; hi]) min_bounds max_bounds in
        if clip_latitudes
           && (String.eqb (name self) "latitude"
               || String.eqb (name self) "grid_latitude")
           && units_is_degree self
           && forallb (fun p => Qle_bool (- (90)) p) pts
           && forallb (fun p => Qle_bool p 90) pts
        then Ok (map (map (clip (- (90)) 90)) bounds)
        else Ok bounds
    end.

(** [Coord.guess_bounds]: the assignment goes through the [bounds]
    setter. *)
Definition guess_bounds (ar : arithmetic) (clip_latitudes : bool) (self : t)
           (bound_position : Q) : result t :=
  b <- _guess_bounds ar clip_latitudes self bound_position ;;
  set_bounds self (Some b).

(** [Coord._sanity_check_contiguous] *)
Definition _sanity_check_contiguous (self : t) : result unit :=
  if negb (nbounds self =? 2)%nat then Raise ValueError else Ok tt.

(** What [is_contiguous] computes on a bounds array:
    [np.allclose(bounds[1:, 0], bounds[:-1, 1], rtol, atol)]. *)
Definition contiguous_array (ar : arithmetic) (b : array2) (rtol atol : Q) : bool :=
  allclose ar (column (tl b) 0) (column (removelast b) 1) rtol atol.

(** [Coord.is_contiguous] *)
Definition is_contiguous (ar : arithmetic) (self : t) (rtol atol : Q) : result bool :=
  match bounds self with
  | Some b =>
      _ <- _sanity_check_contiguous self ;;
      Ok (contiguous_array ar b rtol atol)
  | None => Ok false
  end.

(** The default tolerances of [is_contiguous] and the default
    [bound_position] of [guess_bounds]. *)
Definition default_rtol : Q := 1 # 100000.
Definition default_atol : Q := 1 # 100000000.
Definition BOUND_POSITION_MIDDLE : Q := 1 # 2.

(** [np.min] of a one-dimensional array. *)
Definition array_min (a : array1) : result Q :=
  match a with
  | [] => Raise ValueError
  | x :: r => Ok (Qextreme OpLt x r)
  end.

Definition array_max (a : array1) : result Q :=
  match a with
  | [] => Raise ValueError
  | x :: r => Ok (Qextreme OpGt x r)
  end.

(** [np.where(mask)[0][0]]: the first index where [mask] holds. *)
Fixpoint first_true (mask : list bool) : result nat :=
  match mask with
  | [] => Raise IndexError
  | b :: r => if b then Ok 0%nat else i <- first_true r ;; Ok (S i)
  end.

(** [np.argsort] as a stable insertion sort of the indices by key. *)
Fixpoint insert_by_key (k : Q) (i : nat) (l : list (Q * nat)) : list (Q * nat) :=
  match l with
  | [] => [(k, i)]
  | (k', i') :: r =>
      if Qltb k k' then (k, i) :: l else (k', i') :: insert_by_key k i r
  end.

Definition argsort (a : array1) : list nat :=
  map snd (fold_left (fun acc ki => insert_by_key (fst ki) (snd ki) acc)
                     (combine a (seq 0 (List.length a))) []).

(** [np.mean] of a row: the values are added from the first on and the sum
    is divided by their number. *)
Definition mean (ar : arithmetic) (row : array1) : Q :=
  np_true_divide ar (fold_left (np_add ar) (tl row) (hd 0 row))
                 (inject_Z (Z.of_nat (List.length row))).

Fixpoint set_nth (j : nat) (v : Q) (row : array1) : array1 :=
  match j, row with
  | _, [] => []
  | O, _ :: r => v :: r
  | S j', x :: r => x :: set_nth j' v r
  end.

(** Writes [vals] into column [j] of the leading rows of [b]. *)
Definition set_column (j : nat) (vals : array1) (b : array2) : array2 :=
  zip_with (fun row v => set_nth j v row) (firstn (List.length vals) b) vals
  ++ skipn (List.length vals) b.

(** The bounds regime of [nearest_neighbour_index]. *)
Definition nearest_bounded (ar : arithmetic) (b : array2) (point : Q) : result nat :=
  row0 <- match b with [] => Raise IndexError | r :: _ => Ok r end ;;
  b00 <- match nth_error row0 0 with Some x => Ok x | None => Raise IndexError end ;;
  b01 <- match nth_error row0 1 with Some x => Ok x | None => Raise IndexError end ;;
  let increasing := Qltb b00 b01 in
  let sort_inds := argsort (map (mean ar) b) in
  let b := map (fun i => nth i b []) sort_inds in
  let b :=
    if increasing then
      let mid := zip_with (fun x y => np_multiply ar (1 # 2) (np_add ar x y))
                          (column (removelast b) 1) (column (tl b) 0) in
      let b := set_column 1 mid b in
      hd [] b :: set_column 0 mid (tl b)
    else
      let mid := zip_with (fun x y => np_multiply ar (1 # 2) (np_add ar x y))
                          (column (removelast b) 0) (column (tl b) 1) in
      let b := set_column 0 mid b in
      hd [] b :: set_column 1 mid (tl b) in
  let first_row := hd [] b in
  let b := set_nth 0 (if Qltb (nth 0 first_row 0) point then nth 0 first_row 0
                      else point) first_row :: tl b in
  let last_row := last b [] in
  let b := removelast b
           ++ [set_nth 1 (if Qltb point (nth 1 last_row 0) then nth 1 last_row 0
                          else point) last_row] in
  inside_cells <-
    (fix rows (l : array2) : result (list bool) :=
       match l with
       | [] => Ok []
       | r :: l' =>
           lo <- array_min r ;;
           hi <- array_max r ;;
           rest <- rows l' ;;
           Ok ((Qle_bool lo point && Qle_bool point hi) :: rest)
       end) b ;;
  result_index <- first_true inside_cells ;;
  match nth_error sort_inds result_index with
  | Some i => Ok i
  | None => Raise IndexError
  end.

(** The regime without bounds: [points] may carry the extra wrapped point
    of a circular coordinate. *)
Definition nearest_unbounded (ar : arithmetic) (points : array1) (point : Q)
  : result nat :=
  let distances := map (fun p => Qabs (np_subtract ar p point)) points in
  m <- array_min distances ;;
  first_true (map (fun d => Qeq_bool d m) distances).

(** [Coord.nearest_neighbour_index] *)
Definition nearest_neighbour_index (ar : arithmetic) (self : t) (point : Q)
  : result nat :=
  let pts := points self in
  let flat_bounds := match bounds self with
                     | Some b => List.concat b
                     | None => []
                     end in
  let do_circular := circular self in
  point <- (if do_circular then
              wrap_modulus <- units_modulus self ;;
              wrap_origin <- array_min (pts ++ flat_bounds) ;;
              Ok (np_add ar wrap_origin
                         (np_remainder ar (np_subtract ar point wrap_origin)
                                       wrap_modulus))
            else Ok point) ;;
  match bounds self with
  | Some b => nearest_bounded ar b point
  | None =>
      if do_circular then
        wrap_modulus <- units_modulus self ;;
        first <- match pts with [] => Raise IndexError | x :: _ => Ok x end ;;
        let final := last pts first in
        if Qle_bool first final then
          result_index <-
            nearest_unbounded ar (pts ++ [np_add ar first wrap_modulus]) point ;;
          Ok (Z.to_nat (Z.of_nat result_index mod Z.of_nat (shape self)))
        else
          result_index <-
            nearest_unbounded ar (np_add ar final wrap_modulus :: pts) point ;;
          Ok (Z.to_nat ((Z.of_nat result_index - 1) mod Z.of_nat (shape self)))
      else nearest_unbounded ar pts point
  end.

(** [Coord.__ne__] for an operand that has [_as_defn]. *)
Definition __ne__ (self other : t) : bool := negb (__eq__ self other).

(** The modes of [__binary_operator__] whose results are always numbers;
    the two division modes give [inf] and [nan] on a zero divisor and are
    left out. *)
Inductive mode : Type := _MODE_ADD | _MODE_SUB | _MODE_MUL.

Definition apply_mode (ar : arithmetic) (m : mode) (x other : Q) : Q :=
  match m with
  | _MODE_ADD => np_add ar x other
  | _MODE_SUB => np_subtract ar x other
  | _MODE_MUL => np_multiply ar x other
  end.

(** [Coord.__binary_operator__] for a number [other]. *)
Definition __binary_operator__ (ar : arithmetic) (self : t) (other : Q)
           (mode_constant : mode) : result t :=
  let points := core_data (_points_dm self) in
  let new_points := map (fun p => apply_mode ar mode_constant p other) points in
  let new_bounds :=
    match _bounds_dm self with
    | Some dm =>
        Some (map (map (fun b => apply_mode ar mode_constant b other)) (core_data dm))
    | None => None
    end in
  copy self (Some new_points) new_bounds.

Definition __add__ (ar : arithmetic) (self : t) (other : Q) : result t :=
  __binary_operator__ ar self other _MODE_ADD.

Definition __sub__ (ar : arithmetic) (self : t) (other : Q) : result t :=
  __binary_operator__ ar self other _MODE_SUB.

Definition __mul__ (ar : arithmetic) (self : t) (other : Q) : result t :=
  __binary_operator__ ar self other _MODE_MUL.


(** [Coord.__radd__], [Coord.__rmul__] and [Coord.__rsub__] *)
Definition __radd__ (ar : arithmetic) (self : t) (other : Q) : result t :=
  __add__ ar self other.
Definition __rmul__ (ar : arithmetic) (self : t) (other : Q) : result t :=
  __mul__ ar self other.

(** The [ignore] argument of [is_compatible]: nothing, one key, or several
    keys. *)
Inductive ignore_arg : Type :=
| IgnoreNone
| IgnoreKey (key : string)
| IgnoreKeys (keys : list string).

(** [attributes[key]] on the dictionary of attributes. *)
Fixpoint lookup (key : string) (attributes : list (string * string)) : option string :=
  match attributes with
  | [] => None
  | (k, v) :: r => if String.eqb k key then Some v else lookup key r
  end.

Definition has_key (attributes : list (string * string)) (key : string) : bool :=
  match lookup key attributes with Some _ => true | None => false end.

(** [Coord.is_compatible] *)
Definition is_compatible (self other : t) (ignore : ignore_arg) : bool :=
  let compatible :=
    String.eqb (name self) (name other)
    && CoordDefn.option_eqb Unit_eqb (CoordDefn.units (defn self))
                            (CoordDefn.units (defn other))
    && CoordDefn.option_eqb String.eqb (CoordDefn.coord_system (defn self))
                            (CoordDefn.coord_system (defn other)) in
  if compatible then
    let self_attributes := CoordDefn.attributes (defn self) in
    let other_attributes := CoordDefn.attributes (defn other) in
    let common_keys :=
      filter (has_key other_attributes) (map fst self_attributes) in
    let ignored :=
      match ignore with
      | IgnoreNone => []
      | IgnoreKey key => [key]
      | IgnoreKeys keys => keys
      end in
    let common_keys :=
      filter (fun key => negb (existsb (String.eqb key) ignored)) common_keys in
    forallb (fun key =>
               CoordDefn.option_eqb String.eqb (lookup key self_attributes)
                                    (lookup key other_attributes))
            common_keys
  else false.

(** [Coord.contiguous_bounds]; the boolean tells whether the warning about
    guessing the bounds was issued. *)
Definition contiguous_bounds (ar : arithmetic) (clip_latitudes : bool) (self : t)
  : result (bool * array1) :=
  guessed_bounds <-
    match bounds self with
    | None =>
        b <- _guess_bounds ar clip_latitudes self (1 # 2) ;;
        Ok (true, b)
    | Some b =>
        _ <- _sanity_check_contiguous self ;;
        Ok (false, b)
    end ;;
  let (guessed, bounds) := guessed_bounds in
  match bounds with
  | [] => Raise IndexError
  | _ :: _ =>
      match nth_error (last bounds []) 1 with
      | None => Raise IndexError
      | Some final => Ok (guessed, column bounds 0 ++ [final])
      end
  end.

(** Indexing with an array of indices: the entries of [data] at the
    indices, in their order. *)
Fixpoint take_indices {A : Type} (data : list A) (indices : list nat)
  : result (list A) :=
  match indices with
  | [] => Ok []
  | i :: r =>
      match nth_error data i with
      | None => Raise IndexError
      | Some x => rest <- take_indices data r ;; Ok (x :: rest)
      end
  end.

(** [Coord.__getitem__] and [DimCoord.__getitem__] for an array of
    indices. *)
Definition Coord___getitem___indices (self : t) (indices : list nat) : result t :=
  let points := core_data (_points_dm self) in
  bounds <- match _bounds_dm self with
            | None => Raise AttributeError
            | Some dm => Ok (Some (core_data dm))
            end ;;
  points <- take_indices points indices ;;
  bounds <- match bounds with
            | Some b => b' <- take_indices b indices ;; Ok (Some b')
            | None => Ok None
            end ;;
  copy self (Some points) bounds.

Definition __getitem___indices (self : t) (indices : list nat) : result t :=
  coord <- Coord___getitem___indices self indices ;;
  Ok (with_circular coord (circular self && (shape coord =? shape self)%nat)).

Section Cells.

(** [iris.FUTURE.cell_datetime_objects], and of the units their
    [is_time_reference] and [num2date], which are not part of this
    module. *)
Variable cell_datetime_objects : bool.
Variable is_time_reference : Unit -> bool.
Variable num2date : Unit -> Q -> scalar.

(** [Coord.cell] for an integer index that is not negative. *)
Definition cell (self : t) (index : nat) : result Cell.t :=
  match nth_error (points self) index with
  | None => Raise IndexError
  | Some p =>
      bound <- match bounds self with
               | None => Ok None
               | Some b =>
                   match nth_error b index with
                   | None => Raise IndexError
                   | Some row => Ok (Some row)
                   end
               end ;;
      convert <- (if cell_datetime_objects then
                    match CoordDefn.units (defn self) with
                    | None => Raise AttributeError
                    | Some u =>
                        Ok (if is_time_reference u then num2date u else SNum)
                    end
                  else Ok SNum) ;;
      Cell.__new__ (Cell.PSeq [convert p]) (option_map (map convert) bound)
  end.

(** [[cell for cell in self.cells()]]: [_CellIterator] yields [cell(i)] for
    [i] in [range(shape[0])]. *)
Fixpoint cells_at (self : t) (indices : list nat) : result (list Cell.t) :=
  match indices with
  | [] => Ok []
  | i :: r =>
      c <- cell self i ;;
      rest <- cells_at self r ;;
      Ok (c :: rest)
  end.

Definition cells (self : t) : result (list Cell.t) :=
  cells_at self (seq 0 (shape self)).

(** [self_cells.index(cell)], counting from [i]; [None] is the
    [ValueError] of a value that is not in the list. *)
Fixpoint index_from (self_cells : list Cell.t) (cell : Cell.t) (i : nat)
  : option nat :=
  match self_cells with
  | [] => None
  | x :: r =>
      match Cell.__eq__ x (Cell.OCell cell) with
      | Ok (PyBool true) => Some i
      | _ => index_from r cell (S i)
      end
  end.

(** The loop of [intersect] over the cells of the other coordinate. *)
Fixpoint intersect_indices (self_cells other_cells : list Cell.t) : list nat :=
  match other_cells with
  | [] => []
  | cell :: r =>
      match index_from self_cells cell 0 with
      | Some i => i :: intersect_indices self_cells r
      | None => intersect_indices self_cells r
      end
  end.

Inductive intersection : Type :=
| Indices (indices : list nat)
| Coordinate (coord : t).

(** [Coord.intersect] *)
Definition intersect (self other : t) (return_indices : bool)
  : result intersection :=
  if negb (is_compatible self other IgnoreNone) then Raise ValueError
  else
    self_cells <- cells self ;;
    other_cells <- cells other ;;
    let self_intersect_indices := intersect_indices self_cells other_cells in
    if negb return_indices
       && (List.length self_intersect_indices =? 0)%nat
    then Raise ValueError
    else if return_indices then Ok (Indices self_intersect_indices)
    else
      coord <- __getitem___indices self self_intersect_indices ;;
      Ok (Coordinate coord).

End Cells.

End DimCoord.

(** ** AuxCoord: the points property *)

Module AuxCoord.

(** An array as far as the points setter looks at it: lazy or real, and its
    shape. *)
Record ndarray : Type := mk_array {
  is_lazy_data : bool;
  shape_of : list nat;
  values : list Q
}.

(** An instance attribute: never assigned, assigned [None], or assigned a
    value. *)
Inductive attribute (A : Type) : Type :=
| Unset
| IsNone
| Value (a : A).

Arguments Unset {A}.
Arguments IsNone {A}.
Arguments Value {A} a.

(** The attributes of an [AuxCoord] that the points property touches:
    [_points_dm], set by [Coord.__init__], and [_points]. *)
Record t : Type := mk {
  _points_dm : DataManager ndarray;
  _points : attribute ndarray
}.

(** [Coord.shape] *)
Definition shape (self : t) : list nat := shape_of (core_data (_points_dm self)).

(** [AuxCoord._sanitise_array]: a writeable view with at least [ndmin]
    dimensions, new axes of length one in front. *)
Definition _sanitise_array (src : ndarray) (ndmin : nat) : ndarray :=
  mk_array (is_lazy_data src)
           (repeat 1%nat (ndmin - List.length (shape_of src)) ++ shape_of src)
           (values src).

Definition shape_eqb (a b : list nat) : bool :=
  if list_eq_dec Nat.eq_dec a b then true else false.

(** The setter of the [points] property. *)
Definition set_points (self : t) (points : ndarray) : result t :=
  let points :=
    if is_lazy_data points then
      if shape_eqb (shape_of points) []
      then mk_array true [1%nat] (values points)
      else points
    else _sanitise_array points 1 in
  match _points self with
  | Value _ =>
      if negb (shape_eqb (shape_of points) (shape self)) then Raise ValueError
      else Ok (mk (_points_dm self) (Value points))
  | _ => Ok (mk (_points_dm self) (Value points))
  end.

End AuxCoord.

(** ** _GroupIterator *)

Module GroupIterator.

(** [_GroupbyItem]: the value of a group and the slice [start:stop] of the
    points that hold it. *)
Record GroupbyItem : Type := mk_item {
  groupby_point : scalar;
  groupby_slice : nat * nat
}.

Record t : Type := mk {
  _points : list scalar;
  _start : nat
}.

(** [_GroupIterator.__init__] *)
Definition __init__ (points : list scalar) : t := mk points 0.

(** The [while] loop of [__next__]: [rest] is [points[stop:]]. *)
Fixpoint advance (m : scalar) (rest : list scalar) (stop : nat) : nat :=
  match rest with
  | x :: r => if py_eq x m then advance m r (S stop) else stop
  | [] => stop
  end.

(** [_GroupIterator.__next__]; [None] is [StopIteration]. *)
Definition __next__ (self : t) : option (GroupbyItem * t) :=
  let num_points := List.length (_points self) in
  if (num_points <=? _start self)%nat then None
  else
    match nth_error (_points self) (_start self) with
    | None => None
    | Some m =>
        let stop := (_start self + 1)%nat in
        let stop := advance m (skipn stop (_points self)) stop in
        Some (mk_item m (_start self, stop), mk (_points self) stop)
    end.

(** The items the iterator yields, at most [fuel] of them. *)
Fixpoint take (fuel : nat) (self : t) : list GroupbyItem :=
  match fuel with
  | O => []
  | S fuel' =>
      match __next__ self with
      | None => []
      | Some (item, self') => item :: take fuel' self'
      end
  end.

(** [list(_GroupIterator(points))]: no more items than points. *)
Definition groups (points : list scalar) : list GroupbyItem :=
  take (List.length points) (__init__ points).

(** [points[start:stop]] *)
Definition slice_of (points : list scalar) (sl : nat * nat) : list scalar :=
  firstn (snd sl - fst sl) (skipn (fst sl) points).

End GroupIterator.

(** ** CellMeasure *)

Module CellMeasure.

(** [dtype.kind], as far as the data setter tells kinds apart: ['b'],
    ['i'], ['u'], and the others. *)
Inductive kind : Type := KindBool | KindInt | KindUInt | KindOther.

Definition is_integral (k : kind) : bool :=
  match k with
  | KindBool | KindInt | KindUInt => true
  | KindOther => false
  end.

Record ndarray : Type := mk_array {
  is_lazy_data : bool;
  dtype_kind : kind;
  shape_of : list nat;
  values : list Q
}.

(** The attributes of a [CellMeasure]; [_data_manager] is unset until the
    data is first assigned. *)
Record t : Type := mk {
  standard_name : option string;
  long_name : option string;
  var_name : option string;
  units : string;
  attributes : list (string * string);
  _measure : option string;
  _data_manager : AuxCoord.attribute (DataManager ndarray)
}.

Definition with_data_manager (self : t)
           (dm : AuxCoord.attribute (DataManager ndarray)) : t :=
  mk (standard_name self) (long_name self) (var_name self) (units self)
     (attributes self) (_measure self) dm.

(** The setter of the [measure] property. *)
Definition set_measure (self : t) (measure : string) : result t :=
  if negb (String.eqb measure "area" || String.eqb measure "volume")
  then Raise ValueError
  else Ok (mk (standard_name self) (long_name self) (var_name self) (units self)
              (attributes self) (Some measure) (_data_manager self)).

(** The setter of the [data] property. *)
Definition set_data (self : t) (data : option ndarray) : result t :=
  match data with
  | None => Raise ValueError
  | Some data =>
      if is_lazy_data data && is_integral (dtype_kind data) then Raise ValueError
      else
        let data :=
          if AuxCoord.shape_eqb (shape_of data) []
          then mk_array false (dtype_kind data) [1%nat] (values data)
          else data in
        match _data_manager self with
        | AuxCoord.Value dm =>
            if negb (AuxCoord.shape_eqb (shape_of data) (shape_of (core_data dm)))
            then Raise ValueError
            else Ok (with_data_manager self (AuxCoord.Value (mk_dm data)))
        | _ => Ok (with_data_manager self (AuxCoord.Value (mk_dm data)))
        end
  end.

(** [CellMeasure.__init__] *)
Definition __init__ (data : option ndarray) (standard_name long_name var_name : option string)
           (units : string) (attributes : list (string * string)) (measure : string)
  : result t :=
  let self := mk standard_name long_name var_name units attributes None AuxCoord.Unset in
  self <- set_measure self measure ;;
  set_data self data.

(** [CellMeasure.shape] *)
Definition shape (self : t) : result (list nat) :=
  match _data_manager self with
  | AuxCoord.Value dm => Ok (shape_of (core_data dm))
  | _ => Raise AttributeError
  end.

(** [CellMeasure.copy] *)
Definition copy (self : t) (data : option ndarray) : result t :=
  let new_cell_measure := self in
  match data with
  | Some _ =>
      let new_cell_measure := with_data_manager new_cell_measure AuxCoord.IsNone in
      set_data new_cell_measure data
  | None => Ok new_cell_measure
  end.

End CellMeasure.

(** ** CellMethod *)

Module CellMethod.

Inductive method_arg : Type :=
| MethodString (s : string)
| MethodOther.

(** A coordinate or a coordinate name. *)
Inductive coord_item : Type :=
| CoordName (s : string)
| CoordObject (c : DimCoord.t).

Inductive coords_arg : Type :=
| CoordsNone
| CoordsOne (c : coord_item)
| CoordsMany (l : list coord_item).

(** [None], one string, or a sequence of strings. *)
Inductive strings_arg : Type :=
| StringsNone
| StringsOne (s : string)
| StringsMany (l : list string).

Record t : Type := mk {
  method : string;
  coord_names : list string;
  intervals : list string;
  comments : list string
}.

Definition normalise (coord : coord_item) : string :=
  match coord with
  | CoordObject c => DimCoord.name c
  | CoordName s => s
  end.

Definition strings_of (arg : strings_arg) : list string :=
  match arg with
  | StringsNone => []
  | StringsOne s => [s]
  | StringsMany l => l
  end.

(** [CellMethod.__init__] *)
Definition __init__ (method : method_arg) (coords : coords_arg)
           (intervals comments : strings_arg) : result t :=
  match method with
  | MethodOther => Raise TypeError
  | MethodString m =>
      let _coords :=
        match coords with
        | CoordsNone => []
        | CoordsOne c => [normalise c]
        | CoordsMany l => map normalise l
        end in
      Ok (mk m _coords (strings_of intervals) (strings_of comments))
  end.

(** [zip_longest(a, b, c, fillvalue="")] *)
Definition zip_longest (a b c : list string) : list (string * string * string) :=
  map (fun i => (nth i a EmptyString, nth i b EmptyString, nth i c EmptyString))
      (seq 0 (Nat.max (List.length a) (Nat.max (List.length b) (List.length c)))).

(** [filter(None, strings)]: the strings that are not empty. *)
Definition non_empty (l : list string) : list string :=
  filter (fun s => negb (String.eqb s EmptyString)) l.

Definition coord_summary (component : string * string * string) : string :=
  let '(coord_name, interval, comment) := component in
  let other_info := String.concat ", " (non_empty [interval; comment]) in
  if negb (String.eqb other_info EmptyString)
  then (coord_name ++ " (" ++ other_info ++ ")")%string
  else coord_name.

(** [CellMethod.__str__] *)
Definition __str__ (self : t) : string :=
  let cell_components :=
    zip_longest (coord_names self) (intervals self) (comments self) in
  let collection_summaries := map coord_summary cell_components in
  ((method self ++ ": ") ++ String.concat ", " collection_summaries)%string.

End CellMethod.

(** [a < b] on two cells. *)
Definition cell_lt (a b : Cell.t) : result bool := Cell.__lt__ a (Cell.OCell b).

(** The lexicographic order of pairs and the componentwise equality. *)
Definition lex2 {A B : Type} (eqbA ltbA : A -> A -> bool) (ltbB : B -> B -> bool)
           (x y : A * B) : bool :=
  if negb (eqbA (fst x) (fst y)) then ltbA (fst x) (fst y)
  else ltbB (snd x) (snd y).

Definition eqb2 {A B : Type} (eqbA : A -> A -> bool) (eqbB : B -> B -> bool)
           (x y : A * B) : bool :=
  eqbA (fst x) (fst y) && eqbB (snd x) (snd y).

(** A manager whose [replace] accepts whatever it is given: a new array
    is held from then on, [None] leaves the held array as it is. *)
Definition dm_replace_any (A : Type) (dm : DataManager A) (data : option A)
  : DataManager A * result unit :=
  match data with
  | Some a => (mk_dm a, Ok tt)
  | None => (dm, Ok tt)
  end.

(** A coordinate of the given points and bounds, without metadata. *)
Definition plain_coord (points : array1) (bounds : option array2) (circular : bool)
           (units : option DimCoord.Unit) : DimCoord.t :=
  DimCoord.mk (CoordDefn.mk None None None units [] None)
              (mk_dm points)
              (match bounds with Some b => Some (mk_dm b) | None => None end)
              None None circular.

(** The lower and the upper bound [_guess_bounds] places around the point
    [p], a difference [d] away from its neighbour. *)
Definition min_bound (ar : arithmetic) (position p d : Q) : Q :=
  np_subtract ar p (np_multiply ar d position).

Definition max_bound (ar : arithmetic) (position p d : Q) : Q :=
  np_add ar p (np_multiply ar d (np_subtract ar 1 position)).

(** The rows [_guess_bounds] builds from the points and the extended
    differences [e0 :: np_diff points ++ [en]], each value passed through
    [F]. *)
Definition guessed_rows (ar : arithmetic) (F : Q -> Q) (position : Q)
           (pts : array1) (e0 en : Q) : array2 :=
  map (map F)
      (DimCoord.zip_with (fun lo hi => [lo; hi])
         (DimCoord.zip_with (min_bound ar position) pts (e0 :: np_diff ar pts))
         (DimCoord.zip_with (max_bound ar position) pts (np_diff ar pts ++ [en]))).

(** The values of the element type among the rationals: all of them in
    exact arithmetic, the floats in float64 arithmetic. *)
Definition any_number (x : Q) : Prop := True.
Definition is_float64 (x : Q) : Prop := float64 x == x.

(** What rounding to the nearest value keeps of the order of the exact
    results: a difference is not of the opposite sign, a product of two
    signed values neither, and adding a signed value to a value of the
    type, or subtracting one from it, does not move it the other way.
    Exact arithmetic has these properties and so has float64 arithmetic;
    int64 arithmetic has them as long as nothing wraps around. *)
Record sign_preserving (ar : arithmetic) (is_value : Q -> Prop) : Prop := {
  subtract_le : forall x y, x <= y -> np_subtract ar x y <= 0;
  subtract_ge : forall x y, y <= x -> 0 <= np_subtract ar x y;
  multiply_nonneg : forall x y, 0 <= x -> 0 <= y -> 0 <= np_multiply ar x y;
  multiply_nonpos : forall x y, x <= 0 -> 0 <= y -> np_multiply ar x y <= 0;
  add_nonneg : forall x y, is_value x -> 0 <= y -> x <= np_add ar x y;
  add_nonpos : forall x y, is_value x -> y <= 0 -> np_add ar x y <= x;
  subtract_nonneg : forall x y, is_value x -> 0 <= y -> np_subtract ar x y <= x;
  subtract_nonpos : forall x y, is_value x -> y <= 0 -> x <= np_subtract ar x y
}.

(** [f] does not reverse the order of two numbers, as adding a fixed
    number in float64 does not: rounding may merge neighbours but never
    swaps them. *)
Definition monotone (f : Q -> Q) : Prop := forall x y, x <= y -> f x <= f y.

(** [f] keeps the values of [l] in their order and apart. *)
Definition keeps_order_on (f : Q -> Q) (l : list Q) : Prop :=
  monotone f /\
  forall x y, In x l -> In y l -> x < y -> f x < f y.

(** The numbers among the point and the bound values of a cell. *)
Definition scalar_numbers (l : list scalar) : list Q :=
  flat_map (fun x => match x with SNum q => [q] | _ => [] end) l.

Definition cell_values (c : Cell.t) : list Q :=
  scalar_numbers (Cell.point c
                    :: match Cell.bound c with Some b => b | None => [] end).

(** The decidable part of [keeps_order_on]. *)
Definition keeps_apart (f : Q -> Q) (l : list Q) : bool :=
  forallb (fun x => forallb (fun y => implb (Qltb x y) (Qltb (f x) (f y))) l) l.

(** The points of a coordinate and all its bound values. *)
Definition coord_values (c : DimCoord.t) : list Q :=
  DimCoord.points c
  ++ match DimCoord.bounds c with
     | Some b => List.concat b
     | None => []
     end.

(** The shape the points setter compares: a shape of no dimension
    becomes [(1,)], any other shape is kept. *)
Definition promoted_shape (s : list nat) : list nat :=
  match s with
  | [] => [1%nat]
  | _ => s
  end.

(** The key fields of a definition, nested to the right, with their
    lexicographic order and their equality. *)
Section KeyFields.

Variables Unit CoordSystem : Type.
Variables unit_eqb unit_ltb : Unit -> Unit -> bool.
Variables cs_eqb cs_ltb : CoordSystem -> CoordSystem -> bool.

Definition key_fields (d : CoordDefn.t Unit CoordSystem) :=
  (CoordDefn.standard_name d,
   (CoordDefn.long_name d,
    (CoordDefn.var_name d,
     (CoordDefn.units d, (CoordDefn.coord_system d, tt))))).

Definition name_eqb := CoordDefn.option_eqb String.eqb.
Definition name_ltb := CoordDefn.None_first_ltb String.ltb.

Definition key_fields_ltb :=
  lex2 name_eqb name_ltb
    (lex2 name_eqb name_ltb
       (lex2 name_eqb name_ltb
          (lex2 (CoordDefn.option_eqb unit_eqb) (CoordDefn.None_first_ltb unit_ltb)
             (lex2 (CoordDefn.option_eqb cs_eqb) (CoordDefn.None_first_ltb cs_ltb)
                (fun _ _ : unit => false))))).

Definition key_fields_eqb :=
  eqb2 name_eqb
    (eqb2 name_eqb
       (eqb2 name_eqb
          (eqb2 (CoordDefn.option_eqb unit_eqb)
             (eqb2 (CoordDefn.option_eqb cs_eqb) (fun _ _ : unit => true))))).

End KeyFields.

Arguments key_fields {Unit CoordSystem}.
Arguments key_fields_ltb {Unit CoordSystem}.
Arguments key_fields_eqb {Unit CoordSystem}.

(** A group is a run of the points: its slice is not empty, starts at the
    value of the group, holds only values equal to it, and the point after
    the slice, if there is one, differs. *)
Definition is_run (points : list scalar) (g : GroupIterator.GroupbyItem) : Prop :=
  let m := GroupIterator.groupby_point g in
  let start := fst (GroupIterator.groupby_slice g) in
  let stop := snd (GroupIterator.groupby_slice g) in
  (start < stop)%nat /\
  nth_error points start = Some m /\
  Forall (fun x => py_eq x m = true)
         (GroupIterator.slice_of points (GroupIterator.groupby_slice g)) /\
  (forall x, nth_error points stop = Some x -> py_eq x m = false).

(** The slices of the groups follow one another from [start] to [stop]. *)
Fixpoint chained (start : nat) (gs : list GroupIterator.GroupbyItem) (stop : nat)
  : Prop :=
  match gs with
  | [] => start = stop
  | g :: r =>
      fst (GroupIterator.groupby_slice g) = start /\
      chained (snd (GroupIterator.groupby_slice g)) r stop
  end.

(** A bounds array has rows of one length. *)
Definition rectangular (b : array2) : bool :=
  forallb (fun row => (List.length row =? DimCoord.ncols b)%nat) b.

(** A coordinate as the [DimCoord] constructor leaves it: the points meet
    the points requirements and the bounds, where present, are rectangular
    and meet the bounds requirements. *)
Definition valid_DimCoord (c : DimCoord.t) : Prop :=
  DimCoord._new_points_requirements (DimCoord.points c) = Ok tt /\
  match DimCoord.bounds c with
  | None => True
  | Some b => rectangular b = true /\ DimCoord._new_bounds_requirements c b = Ok tt
  end.

(** [sc == c] is true for two cells. *)
Definition cells_match (sc c : Cell.t) : Prop :=
  Cell.__eq__ sc (Cell.OCell c) = Ok (PyBool true).

(** [i] is the lowest index of a cell of [self_cells] that equals [c]. *)
Definition first_match (self_cells : list Cell.t) (c : Cell.t) (i : nat) : Prop :=
  (exists sc, nth_error self_cells i = Some sc /\ cells_match sc c) /\
  (forall j sc, (j < i)%nat -> nth_error self_cells j = Some sc -> ~ cells_match sc c).

(** Exactly one of three booleans. *)
Definition exactly_one (a b c : bool) : bool :=
  (a && negb b && negb c) || (negb a && b && negb c) || (negb a && negb b && c).

(** * Properties *)

(** ** Booleans on numbers *)

Lemma Qle_bool_true (x y : Q) : Qle_bool x y = true -> x <= y.
Proof. apply Qle_bool_iff. Qed.

Lemma Qle_bool_false (x y : Q) : Qle_bool x y = false -> y < x.
Proof.
  intro H. apply Qnot_le_lt. intro Hle.
  apply Qle_bool_iff in Hle. congruence.
Qed.

Lemma Qeq_bool_true (x y : Q) : Qeq_bool x y = true -> x == y.
Proof. apply Qeq_bool_iff. Qed.

Lemma Qeq_bool_false (x y : Q) : Qeq_bool x y = false -> ~ x == y.
Proof. apply Qeq_bool_neq. Qed.

(** Splits on every boolean test on numbers in the goal and closes the
    cases by linear arithmetic. *)
Ltac Qtests :=
  unfold Qcmp, Qltb in *;
  repeat match goal with
    | |- context [Qle_bool ?x ?y] =>
        let E := fresh "E" in
        destruct (Qle_bool x y) eqn:E;
        [apply Qle_bool_true in E | apply Qle_bool_false in E]
    | |- context [Qeq_bool ?x ?y] =>
        let E := fresh "E" in
        destruct (Qeq_bool x y) eqn:E;
        [apply Qeq_bool_true in E | apply Qeq_bool_false in E]
    end;
  simpl; try reflexivity; try (exfalso; lra); try lra.

(** ** Rounding to float64 *)

Lemma pow2_pos (k : Z) : 0 < pow2 k.
Proof. apply Qpower_0_lt. reflexivity. Qed.

Lemma pow2_le (k k' : Z) : (k <= k')%Z -> pow2 k <= pow2 k'.
Proof. intro H. apply Qpower_le_compat_l; [exact H|]. discriminate. Qed.

Lemma pow2_lt_inv (k k' : Z) : pow2 k < pow2 k' -> (k < k')%Z.
Proof. intro H. apply (Qpower_lt_compat_l_inv 2); [exact H|reflexivity]. Qed.

Lemma pow2_add (k k' : Z) : pow2 (k + k') == pow2 k * pow2 k'.
Proof. apply Qpower_plus. discriminate. Qed.

Lemma pow2_nonneg_Z (k : Z) : (0 <= k)%Z -> pow2 k == inject_Z (2 ^ k).
Proof. intro H. unfold pow2. now rewrite Zpower_Qpower. Qed.

(** The exponent brackets the number. *)
Lemma exponent_spec (a : Q) : 0 < a -> pow2 (exponent a) <= a /\ a < pow2 (exponent a + 1).
Proof.
  intro Ha. destruct a as [n d]. unfold exponent. cbn [Qnum Qden].
  assert (Hn : (0 < n)%Z).
  { unfold Qlt in Ha. simpl in Ha. lia. }
  pose proof (Z.log2_spec n Hn) as [Hn1 Hn2].
  pose proof (Z.log2_spec (Zpos d) (Pos2Z.is_pos d)) as [Hd1 Hd2].
  pose proof (Z.log2_nonneg n) as Ln.
  pose proof (Z.log2_nonneg (Zpos d)) as Ld.
  set (ln := Z.log2 n) in *. set (ld := Z.log2 (Zpos d)) in *.
  assert (E : n # d == inject_Z n / inject_Z (Zpos d)) by apply Qmake_Qdiv.
  assert (Dpos : 0 < inject_Z (Zpos d)) by reflexivity.
  assert (Hlow : pow2 (ln - ld - 1) < n # d).
  { rewrite E. apply Qlt_shift_div_l; [exact Dpos|].
    apply Qlt_le_trans with (pow2 (ln - ld - 1) * pow2 (ld + 1)).
    - apply Qmult_lt_l; [apply pow2_pos|].
      rewrite pow2_nonneg_Z by lia. rewrite <- Zlt_Qlt. unfold Z.succ in Hd2. exact Hd2.
    - rewrite <- pow2_add. replace (ln - ld - 1 + (ld + 1))%Z with ln by lia.
      rewrite pow2_nonneg_Z by lia. rewrite <- Zle_Qle. exact Hn1. }
  assert (Hhigh : n # d < pow2 (ln - ld + 1)).
  { rewrite E. apply Qlt_shift_div_r; [exact Dpos|].
    apply Qlt_le_trans with (pow2 (ln - ld + 1) * pow2 ld).
    - rewrite <- pow2_add. replace (ln - ld + 1 + ld)%Z with (ln + 1)%Z by lia.
      rewrite pow2_nonneg_Z by lia. rewrite <- Zlt_Qlt. exact Hn2.
    - apply Qmult_le_l; [apply pow2_pos|].
      rewrite pow2_nonneg_Z by lia. rewrite <- Zle_Qle. exact Hd1. }
  unfold Qltb. destruct (Qle_bool (pow2 (ln - ld)) (n # d)) eqn:T; simpl.
  - apply Qle_bool_true in T. split; assumption.
  - apply Qle_bool_false in T.
    replace (ln - ld - 1 + 1)%Z with (ln - ld)%Z by lia.
    split; [apply Qlt_le_weak; exact Hlow|exact T].
Qed.

Lemma round_half_even_bounds (a : Q) :
  (Qfloor a <= round_half_even a <= Qfloor a + 1)%Z.
Proof.
  unfold round_half_even.
  destruct (Qcompare (a - inject_Z (Qfloor a)) (1 # 2)); [|lia|lia].
  destruct (Z.even (Qfloor a)); lia.
Qed.

Lemma round_half_even_Z (n : Z) : round_half_even (inject_Z n) = n.
Proof.
  unfold round_half_even. rewrite Qfloor_Z.
  destruct (Qcompare (inject_Z n - inject_Z n) (1 # 2)) eqn:C; [|reflexivity|].
  - apply Qeq_alt in C. exfalso. lra.
  - apply Qgt_alt in C. exfalso. lra.
Qed.

Lemma round_half_even_le (a b : Q) :
  a <= b -> (round_half_even a <= round_half_even b)%Z.
Proof.
  intro H. pose proof (Qfloor_resp_le a b H) as Hf.
  pose proof (round_half_even_bounds a) as Ba.
  pose proof (round_half_even_bounds b) as Bb.
  destruct (Z.eq_dec (Qfloor a) (Qfloor b)) as [E|N]; [|lia].
  unfold round_half_even. rewrite <- E.
  set (n := Qfloor a).
  assert (Hab : a - inject_Z n <= b - inject_Z n) by lra.
  destruct (Qcompare (a - inject_Z n) (1 # 2)) eqn:Ca;
    [apply Qeq_alt in Ca|apply Qlt_alt in Ca|apply Qgt_alt in Ca];
    (destruct (Qcompare (b - inject_Z n) (1 # 2)) eqn:Cb;
     [apply Qeq_alt in Cb|apply Qlt_alt in Cb|apply Qgt_alt in Cb]);
    try lia; try (destruct (Z.even n); lia);
    exfalso; lra.
Qed.

Lemma exponent_le (a b : Q) : 0 < a -> a <= b -> (exponent a <= exponent b)%Z.
Proof.
  intros Ha Hab.
  assert (Hb : 0 < b) by lra.
  destruct (exponent_spec a Ha) as [La _].
  destruct (exponent_spec b Hb) as [_ Ub].
  assert (H : pow2 (exponent a) < pow2 (exponent b + 1)) by lra.
  apply pow2_lt_inv in H. lia.
Qed.

Lemma round_magnitude_nonneg (a : Q) : 0 < a -> 0 <= round_magnitude a.
Proof.
  intro Ha. unfold round_magnitude.
  apply Qmult_le_0_compat; [|apply Qlt_le_weak, pow2_pos].
  assert (H : 0 <= a / pow2 (quantum a)).
  { apply Qle_shift_div_l; [apply pow2_pos|]. lra. }
  pose proof (round_half_even_le 0 _ H) as L.
  change 0 with (inject_Z 0) in L at 1. rewrite round_half_even_Z in L.
  change 0 with (inject_Z 0). now rewrite <- Zle_Qle.
Qed.

Lemma round_magnitude_le (a b : Q) :
  0 < a -> a <= b -> round_magnitude a <= round_magnitude b.
Proof.
  intros Ha Hab.
  assert (Hb : 0 < b) by lra.
  pose proof (exponent_le a b Ha Hab) as He.
  destruct (exponent_spec a Ha) as [La Ua].
  destruct (exponent_spec b Hb) as [Lb Ub].
  unfold round_magnitude.
  destruct (Z.eq_dec (quantum a) (quantum b)) as [E|N].
  - rewrite E. apply Qmult_le_compat_r; [|apply Qlt_le_weak, pow2_pos].
    rewrite <- Zle_Qle. apply round_half_even_le.
    apply Qmult_le_compat_r; [exact Hab|].
    apply Qlt_le_weak, Qinv_lt_0_compat, pow2_pos.
  - assert (Hq : (quantum a < quantum b)%Z) by (unfold quantum in *; lia).
    assert (Hqb : quantum b = (exponent b - 52)%Z) by (unfold quantum in *; lia).
    apply Qle_trans with (pow2 (quantum b + 52)).
    + set (K := Z.max (exponent a + 1 - quantum a) 0).
      assert (HK : (0 <= K)%Z) by (unfold K; lia).
      apply Qle_trans with (inject_Z (2 ^ K) * pow2 (quantum a)).
      * apply Qmult_le_compat_r; [|apply Qlt_le_weak, pow2_pos].
        rewrite <- Zle_Qle.
        rewrite <- (round_half_even_Z (2 ^ K)).
        apply round_half_even_le.
        apply Qle_shift_div_r; [apply pow2_pos|].
        rewrite <- pow2_nonneg_Z by exact HK. rewrite <- pow2_add.
        apply Qle_trans with (pow2 (exponent a + 1)); [lra|].
        apply pow2_le. unfold K. lia.
      * rewrite <- pow2_nonneg_Z by exact HK. rewrite <- pow2_add.
        apply pow2_le. unfold K, quantum in *. lia.
    + apply Qle_trans with (inject_Z (2 ^ 52) * pow2 (quantum b)).
      * rewrite <- pow2_nonneg_Z by lia. rewrite <- pow2_add.
        apply pow2_le. lia.
      * apply Qmult_le_compat_r; [|apply Qlt_le_weak, pow2_pos].
        rewrite <- Zle_Qle.
        rewrite <- (round_half_even_Z (2 ^ 52)) at 1.
        apply round_half_even_le.
        apply Qle_shift_div_l; [apply pow2_pos|].
        rewrite <- pow2_nonneg_Z by lia. rewrite <- pow2_add.
        apply Qle_trans with (pow2 (exponent b)); [|exact Lb].
        apply pow2_le. lia.
Qed.

Lemma float64_le (x y : Q) : x <= y -> float64 x <= float64 y.
Proof.
  intro H. unfold float64, Qltb.
  destruct (Qeq_bool x 0) eqn:Ex;
    [apply Qeq_bool_eq in Ex|apply Qeq_bool_neq in Ex];
    (destruct (Qeq_bool y 0) eqn:Ey;
     [apply Qeq_bool_eq in Ey|apply Qeq_bool_neq in Ey]).
  - lra.
  - destruct (Qle_bool 0 y) eqn:Sy; simpl.
    + apply Qle_bool_true in Sy. apply round_magnitude_nonneg. lra.
    + apply Qle_bool_false in Sy. exfalso. lra.
  - destruct (Qle_bool 0 x) eqn:Sx; simpl.
    + apply Qle_bool_true in Sx. exfalso. lra.
    + apply Qle_bool_false in Sx.
      assert (P : 0 <= round_magnitude (- x)) by (apply round_magnitude_nonneg; lra).
      lra.
  - destruct (Qle_bool 0 x) eqn:Sx;
      [apply Qle_bool_true in Sx|apply Qle_bool_false in Sx];
      (destruct (Qle_bool 0 y) eqn:Sy;
       [apply Qle_bool_true in Sy|apply Qle_bool_false in Sy]); simpl.
    + apply round_magnitude_le; lra.
    + exfalso. lra.
    + assert (P : 0 <= round_magnitude (- x)) by (apply round_magnitude_nonneg; lra).
      assert (P' : 0 <= round_magnitude y) by (apply round_magnitude_nonneg; lra).
      lra.
    + assert (L : round_magnitude (- y) <= round_magnitude (- x))
        by (apply round_magnitude_le; lra).
      lra.
Qed.

Lemma float64_Qeq (x y : Q) : x == y -> float64 x == float64 y.
Proof.
  intro E. apply Qle_antisym; apply float64_le; rewrite E; apply Qle_refl.
Qed.

(** Rounding keeps the signs, and a float is not moved the wrong way by
    adding to it or subtracting from it. *)
Lemma binary64_sign_preserving : sign_preserving binary64 is_float64.
Proof.
  assert (Z0 : float64 0 == 0) by reflexivity.
  split; unfold is_float64; simpl; intros x y.
  - intro H. rewrite <- Z0. apply float64_le. lra.
  - intro H. rewrite <- Z0. apply float64_le. lra.
  - intros Hx Hy. rewrite <- Z0. apply float64_le.
    now apply Qmult_le_0_compat.
  - intros Hx Hy. rewrite <- Z0. apply float64_le.
    assert (H : 0 <= (- x) * y) by (apply Qmult_le_0_compat; lra).
    assert (E : x * y == - ((- x) * y)) by ring.
    rewrite E. lra.
  - intros Hv Hy. apply Qle_trans with (float64 x); [lra|].
    apply float64_le. lra.
  - intros Hv Hy. apply Qle_trans with (float64 x); [|lra].
    apply float64_le. lra.
  - intros Hv Hy. apply Qle_trans with (float64 x); [|lra].
    apply float64_le. lra.
  - intros Hv Hy. apply Qle_trans with (float64 x); [lra|].
    apply float64_le. lra.
Qed.

Lemma binary64_add_monotone (k : Q) : monotone (fun x => np_add binary64 x k).
Proof. intros x y H. simpl. apply float64_le. lra. Qed.

Lemma binary64_subtract_monotone (k : Q) :
  monotone (fun x => np_subtract binary64 x k).
Proof. intros x y H. simpl. apply float64_le. lra. Qed.

Lemma binary64_multiply_zero (x : Q) : np_multiply binary64 x 0 == 0.
Proof.
  simpl. assert (E : x * 0 == 0) by ring.
  rewrite (float64_Qeq _ _ E). reflexivity.
Qed.

Lemma keeps_apart_spec (f : Q -> Q) (l : list Q) :
  keeps_apart f l = true ->
  forall x y, In x l -> In y l -> x < y -> f x < f y.
Proof.
  unfold keeps_apart. intros H x y Hx Hy Hlt.
  rewrite forallb_forall in H. specialize (H x Hx).
  rewrite forallb_forall in H. specialize (H y Hy).
  unfold Qltb in H.
  destruct (Qle_bool y x) eqn:E; simpl in H.
  - apply Qle_bool_true in E. exfalso. lra.
  - apply negb_true_iff in H. now apply Qle_bool_false.
Qed.

(** ** Minimum and maximum of a tuple of numbers *)

Lemma numbers_are_map (b : list scalar) :
  forallb is_number b = true -> exists qs, b = map SNum qs.
Proof.
  induction b as [|x b IH]; simpl; intro H.
  - now exists [].
  - apply andb_prop in H as [Hx Hb].
    destruct (IH Hb) as [qs ->].
    destruct x as [q| |]; try discriminate.
    now exists (q :: qs).
Qed.

Lemma as_numbers_map (qs : list Q) : as_numbers (map SNum qs) = Some qs.
Proof.
  induction qs as [|q qs IH]; simpl; [reflexivity|now rewrite IH].
Qed.

Lemma py_extreme_from_numbers (op : cmpop) (qs : list Q) (m : Q) :
  py_extreme_from op (SNum m) (map SNum qs) = Ok (SNum (Qextreme op m qs)).
Proof.
  revert m. induction qs as [|q qs IH]; intro m; simpl; [reflexivity|].
  destruct (Qcmp op q m); apply IH.
Qed.

Lemma Qmin_le_start (qs : list Q) (m : Q) : Qextreme OpLt m qs <= m.
Proof.
  revert m. induction qs as [|q qs IH]; intro m; simpl.
  - lra.
  - destruct (Qltb q m) eqn:E.
    + specialize (IH q). unfold Qltb in E.
      destruct (Qle_bool m q) eqn:E'; [discriminate|].
      apply Qle_bool_false in E'. lra.
    + apply IH.
Qed.

Lemma Qmax_ge_start (qs : list Q) (m : Q) : m <= Qextreme OpGt m qs.
Proof.
  revert m. induction qs as [|q qs IH]; intro m; simpl.
  - lra.
  - destruct (Qltb m q) eqn:E.
    + specialize (IH q). unfold Qltb in E.
      destruct (Qle_bool q m) eqn:E'; [discriminate|].
      apply Qle_bool_false in E'. lra.
    + apply IH.
Qed.

Lemma Qmin_le_max (qs : list Q) (m : Q) :
  Qextreme OpLt m qs <= Qextreme OpGt m qs.
Proof.
  apply Qle_trans with m; [apply Qmin_le_start | apply Qmax_ge_start].
Qed.

(** The extremes of a bound of numbers, as both [min]/[max] and
    [np.min]/[np.max] find them. *)
Lemma numeric_bound_extremes (b : list scalar) :
  forallb is_number b = true -> b <> [] ->
  exists lo hi : Q,
    py_min b = Ok (SNum lo) /\ py_max b = Ok (SNum hi) /\
    np_min b = Ok (SNum lo) /\ np_max b = Ok (SNum hi) /\ lo <= hi.
Proof.
  intros Hnum Hne.
  destruct (numbers_are_map b Hnum) as [qs ->].
  destruct qs as [|q qs]; [now elim Hne|].
  exists (Qextreme OpLt q qs), (Qextreme OpGt q qs).
  unfold np_min, np_max, np_extreme. rewrite as_numbers_map. simpl.
  rewrite !py_extreme_from_numbers.
  repeat split. apply Qmin_le_max.
Qed.

(** ** Cell against a number *)

(** C1, for the cells it holds for.  For a cell of numbers [c] (a numeric
    point and, when it has a bound, a bound of one or more numbers) and a
    number [v], exactly one of [v < c],
    [v == c], [v > c] holds, [v <= c] holds exactly when [v < c] or
    [v == c] does, and [v >= c] exactly when [v > c] or [v == c] does.  For a
    bounded cell, [v == c] is [min(bound) <= v <= max(bound)], [v < c] is
    [min(bound) > v], [v >= c] is [min(bound) <= v], [v > c] is
    [max(bound) < v] and [v <= c] is [max(bound) >= v]. *)
Theorem cell_number_trichotomy (c : Cell.t) (v : Q) :
  Cell.numeric c = true ->
  exists lt eq gt le ge : bool,
    Cell.num_lt_cell v c = Ok lt /\
    Cell.num_eq_cell v c = Ok (PyBool eq) /\
    Cell.num_gt_cell v c = Ok gt /\
    Cell.num_le_cell v c = Ok le /\
    Cell.num_ge_cell v c = Ok ge /\
    exactly_one lt eq gt = true /\
    le = (lt || eq) /\
    ge = (gt || eq) /\
    (forall b, Cell.bound c = Some b ->
       exists lo hi : Q,
         py_min b = Ok (SNum lo) /\ py_max b = Ok (SNum hi) /\
         np_min b = Ok (SNum lo) /\ np_max b = Ok (SNum hi) /\
         eq = (Qle_bool lo v && Qle_bool v hi) /\
         lt = Qltb v lo /\ ge = Qle_bool lo v /\
         gt = Qltb hi v /\ le = Qle_bool v hi).
Proof.
  destruct c as [p [b|]]; unfold Cell.numeric; simpl; intro H.
  - apply andb_prop in H as [Hp H]. apply andb_prop in H as [Hb Hlen].
    destruct p as [pq| |]; try discriminate.
    assert (Hne : b <> []) by (destruct b; [discriminate|congruence]).
    destruct (numeric_bound_extremes b Hb Hne)
      as (lo & hi & Hmin & Hmax & Hnmin & Hnmax & Hle).
    assert (Hdate : existsb has_timetuple b = false).
    { clear -Hb. induction b as [|x b IH]; simpl in *; [reflexivity|].
      apply andb_prop in Hb as [Hx Hb]. rewrite (IH Hb).
      destruct x; try discriminate; reflexivity. }
    exists (Qltb v lo), (Qle_bool lo v && Qle_bool v hi), (Qltb hi v),
           (Qle_bool v hi), (Qle_bool lo v).
    unfold Cell.num_lt_cell, Cell.num_eq_cell, Cell.num_gt_cell,
      Cell.num_le_cell, Cell.num_ge_cell, Cell.__gt__, Cell.__lt__,
      Cell.__ge__, Cell.__le__, Cell.__eq__, Cell.__common_cmp__,
      Cell.contains_point; simpl.
    rewrite Hdate, Hmin, Hmax, Hnmin, Hnmax; simpl.
    repeat split.
    + destruct (Qle_bool lo v); reflexivity.
    + unfold exactly_one. Qtests.
    + Qtests.
    + Qtests.
    + intros b' Hb'. injection Hb' as <-. exists lo, hi.
      repeat split; assumption.
  - rewrite andb_true_r in H. destruct p as [pq| |]; try discriminate.
    exists (Qltb v pq), (Qeq_bool pq v), (Qltb pq v), (Qle_bool v pq),
           (Qle_bool pq v).
    unfold Cell.num_lt_cell, Cell.num_eq_cell, Cell.num_gt_cell,
      Cell.num_le_cell, Cell.num_ge_cell, Cell.__gt__, Cell.__lt__,
      Cell.__ge__, Cell.__le__, Cell.__eq__, Cell.__common_cmp__; simpl.
    repeat split.
    + unfold exactly_one. Qtests.
    + Qtests.
    + Qtests.
    + intros b' Hb'. discriminate.
Qed.

Lemma cell_number_trichotomy_witness :
  exists lt eq gt : bool,
    Cell.num_lt_cell 7 (Cell.mk (SNum 8) (Some [SNum 5; SNum 10])) = Ok lt /\
    Cell.num_eq_cell 7 (Cell.mk (SNum 8) (Some [SNum 5; SNum 10])) = Ok (PyBool eq) /\
    Cell.num_gt_cell 7 (Cell.mk (SNum 8) (Some [SNum 5; SNum 10])) = Ok gt /\
    exactly_one lt eq gt = true.
Proof.
  destruct (cell_number_trichotomy
              (Cell.mk (SNum 8) (Some [SNum 5; SNum 10])) 7 eq_refl)
    as (lt & eq & gt & le & ge & Hlt & Heq & Hgt & _ & _ & Hone & _).
  exists lt, eq, gt. repeat split; assumption.
Defined.

(** Without the restriction to cells of numbers the comparisons need not
    return: for the cell of the string point ['a'] and the number 1,
    [1 == c] is [False] while [1 < c] and [1 > c] raise [TypeError], so
    not one of the three holds. *)
Lemma cell_trichotomy_needs_numbers :
  ~ (forall (c : Cell.t) (v : Q),
       exists lt eq gt : bool,
         Cell.num_lt_cell v c = Ok lt /\
         Cell.num_eq_cell v c = Ok (PyBool eq) /\
         Cell.num_gt_cell v c = Ok gt /\
         exactly_one lt eq gt = true).
Proof.
  intro H.
  destruct (H (Cell.mk (SStr "a") None) 1) as (lt & eq & gt & Hlt & _).
  discriminate Hlt.
Qed.

Example cell_of_string_against_number :
  Cell.num_lt_cell 1 (Cell.mk (SStr "a") None) = Raise TypeError /\
  Cell.num_eq_cell 1 (Cell.mk (SStr "a") None) = Ok (PyBool false) /\
  Cell.num_gt_cell 1 (Cell.mk (SStr "a") None) = Raise TypeError.
Proof. repeat split. Qed.

(** A cell with an empty bound: the least and the greatest bound value do
    not exist and every comparison with a number raises [ValueError]. *)
Example cell_of_empty_bound_against_number :
  Cell.num_lt_cell 1 (Cell.mk (SNum 3) (Some [])) = Raise ValueError /\
  Cell.num_eq_cell 1 (Cell.mk (SNum 3) (Some [])) = Raise ValueError /\
  Cell.num_gt_cell 1 (Cell.mk (SNum 3) (Some [])) = Raise ValueError.
Proof. repeat split. Qed.

(** The bounded cell [Cell(7.5, (5, 10))] against 4, 5, 7, 10 and 11. *)
Example bounded_cell_membership :
  map (fun v => Cell.num_eq_cell v (Cell.mk (SNum (15 # 2)) (Some [SNum 5; SNum 10])))
      [4; 5; 7; 10; 11]
  = map (fun b => Ok (PyBool b)) [false; true; true; true; false].
Proof. reflexivity. Qed.

(** ** Cell against a string *)

(** C10. [Cell.__eq__] with a string operand is the equality of the points
    when the cell has no bound and its point is a string; for a bounded cell
    and for a point that is not a string it returns [NotImplemented]: no
    membership test is made and nothing is raised. *)
Theorem cell_eq_string (c : Cell.t) (s : string) :
  Cell.__eq__ c (Cell.OScalar (SStr s)) =
    match Cell.bound c, Cell.point c with
    | None, SStr p => Ok (PyBool (String.eqb p s))
    | _, _ => Ok NotImplemented
    end.
Proof.
  destruct c as [[q|p|k z] [b|]]; reflexivity.
Qed.

(** ** The Cell constructor *)

(** C5, as the constructor has it: a bound that is given is stored as the
    tuple of the values given, whatever their number; it is a pair exactly
    when two values were given.  No length is rejected. *)
Theorem Cell_new_keeps_bound (p : Cell.point_arg) (b : list scalar) (c : Cell.t) :
  Cell.__new__ p (Some b) = Ok c ->
  Cell.bound c = Some b /\
  ((exists lo hi, Cell.bound c = Some [lo; hi]) <-> List.length b = 2%nat) /\
  (forall x b', Cell.__new__ (Cell.PScalar x) (Some b') = Ok (Cell.mk x (Some b'))).
Proof.
  intro H.
  assert (Hb : Cell.bound c = Some b).
  { destruct p as [|x|[|x [|y xs]]]; simpl in H; try discriminate;
      injection H as <-; reflexivity. }
  split; [exact Hb|]. split; [|reflexivity].
  rewrite Hb. split.
  - intros (lo & hi & E). injection E as ->. reflexivity.
  - intro L. destruct b as [|lo [|hi [|z b]]]; try discriminate.
    now exists lo, hi.
Qed.

Lemma Cell_new_keeps_bound_witness :
  Cell.bound (Cell.mk (SNum 3) (Some [SNum 2; SNum 4])) = Some [SNum 2; SNum 4].
Proof.
  apply (Cell_new_keeps_bound (Cell.PScalar (SNum 3)) [SNum 2; SNum 4]).
  reflexivity.
Defined.

(** The constructor accepts a bound of three values and stores all three. *)
Lemma Cell_new_bound_of_three :
  ~ (forall (p : Cell.point_arg) (b : list scalar) (c : Cell.t),
       Cell.__new__ p (Some b) = Ok c ->
       exists lo hi, Cell.bound c = Some [lo; hi]).
Proof.
  intro H.
  destruct (H (Cell.PScalar (SNum 1)) [SNum 1; SNum 2; SNum 3] _ eq_refl)
    as (lo & hi & E).
  discriminate E.
Qed.

(** ** Cell against Cell *)

(** The tie-break of a point-only cell against a point-and-bound cell with
    the same point holds in both directions, for all four operators. *)
Lemma point_only_before_bounded (p q : Q) (b : list scalar) :
  p == q ->
  let a := Cell.mk (SNum p) None in
  let c := Cell.mk (SNum q) (Some b) in
  Cell.__lt__ a (Cell.OCell c) = Ok true /\
  Cell.__le__ a (Cell.OCell c) = Ok true /\
  Cell.__gt__ a (Cell.OCell c) = Ok false /\
  Cell.__ge__ a (Cell.OCell c) = Ok false /\
  Cell.__lt__ c (Cell.OCell a) = Ok false /\
  Cell.__le__ c (Cell.OCell a) = Ok false /\
  Cell.__gt__ c (Cell.OCell a) = Ok true /\
  Cell.__ge__ c (Cell.OCell a) = Ok true.
Proof.
  intro E. simpl.
  unfold Cell.__lt__, Cell.__le__, Cell.__gt__, Cell.__ge__,
    Cell.__common_cmp__; simpl.
  rewrite (Qeq_eq_bool p q E), (Qeq_eq_bool q p (Qeq_sym _ _ E)).
  repeat split.
Qed.

(** [a = Cell(3)] and [b = Cell(3, (2, 4))]. *)
Example cell_3_before_cell_3_2_4 :
  cell_lt (Cell.mk (SNum 3) None) (Cell.mk (SNum 3) (Some [SNum 2; SNum 4])) = Ok true /\
  cell_lt (Cell.mk (SNum 3) (Some [SNum 2; SNum 4])) (Cell.mk (SNum 3) None) = Ok false.
Proof. split; reflexivity. Qed.

(** Two bounded cells of numbers are ordered by the first bound value, then
    by the second, then by the point. *)
Lemma bounded_cells_order (op : cmpop) (p q s0 s1 o0 o1 : Q) (sb ob : list scalar) :
  Cell.__common_cmp__ (Cell.mk (SNum p) (Some (SNum s0 :: SNum s1 :: sb)))
                      (Cell.OCell (Cell.mk (SNum q) (Some (SNum o0 :: SNum o1 :: ob)))) op
  = Ok (if negb (Qeq_bool s0 o0) then Qcmp op s0 o0
        else if negb (Qeq_bool s1 o1) then Qcmp op s1 o1
        else Qcmp op p q).
Proof.
  unfold Cell.__common_cmp__; simpl.
  destruct (Qeq_bool s0 o0); simpl; [|reflexivity].
  destruct (Qeq_bool s1 o1); reflexivity.
Qed.

(** The first bound value is compared, not the smaller one: with the
    descending bound [(4, 2)] the cell of minimum 2 comes after the cell
    of minimum 3. *)
Example descending_bound_order :
  cell_lt (Cell.mk (SNum 3) (Some [SNum 4; SNum 2]))
          (Cell.mk (SNum 4) (Some [SNum 3; SNum 5])) = Ok false /\
  cell_lt (Cell.mk (SNum 4) (Some [SNum 3; SNum 5]))
          (Cell.mk (SNum 3) (Some [SNum 4; SNum 2])) = Ok true.
Proof. split; reflexivity. Qed.

(** On cells of numbers [<] is asymmetric. *)
Lemma cell_lt_asymmetric (a b : Cell.t) :
  Cell.numeric a = true -> Cell.numeric b = true ->
  cell_lt a b = Ok true -> cell_lt b a = Ok false.
Proof.
  destruct a as [[p| |] ba], b as [[q| |] bb]; unfold Cell.numeric; simpl;
    try discriminate.
  unfold cell_lt, Cell.__lt__, Cell.__common_cmp__; simpl.
  destruct ba as [[|[s0| |] [|[s1| |] sb]]|], bb as [[|[o0| |] [|[o1| |] ob]]|];
    simpl; try discriminate; intros _ _;
    unfold Cell.item; simpl;
    repeat match goal with
      | |- context [Qeq_bool ?x ?y] =>
          let E := fresh "E" in
          destruct (Qeq_bool x y) eqn:E;
          [apply Qeq_bool_true in E | apply Qeq_bool_false in E]; simpl
      end;
    try discriminate;
    unfold Qltb;
    repeat match goal with
      | |- context [Qle_bool ?x ?y] =>
          let E := fresh "E" in
          destruct (Qle_bool x y) eqn:E;
          [apply Qle_bool_true in E | apply Qle_bool_false in E]; simpl
      end;
    intro H; try discriminate H; try reflexivity; exfalso; lra.
Qed.

(** C2, where the code leaves it.  With [a = Cell(5)],
    [b = Cell(3, (2, 10))] and [c = Cell(7, (1, 8))]: [b < a] by the points,
    [a < c] by the points, yet [b < c] is false and [c < b] is true by the
    first bound value.  The comparison is not transitive, so it is not a
    strict order. *)
Theorem cell_order_not_transitive :
  let a := Cell.mk (SNum 5) None in
  let b := Cell.mk (SNum 3) (Some [SNum 2; SNum 10]) in
  let c := Cell.mk (SNum 7) (Some [SNum 1; SNum 8]) in
  cell_lt b a = Ok true /\ cell_lt a c = Ok true /\
  cell_lt b c = Ok false /\ cell_lt c b = Ok true.
Proof. repeat split. Qed.

(** ** Strict total orders *)

Lemma string_strict_total : strict_total String.eqb String.ltb.
Proof.
  split.
  - apply String.eqb_eq.
  - intro a. unfold String.ltb.
    replace (String.compare a a) with Eq; [reflexivity|].
    symmetry. now apply String_as_OT.cmp_eq.
  - intros a b c. unfold String.ltb.
    destruct (String.compare a b) eqn:Eab; try discriminate.
    destruct (String.compare b c) eqn:Ebc; try discriminate.
    intros _ _.
    apply String_as_OT.cmp_lt in Eab, Ebc.
    pose proof (String_as_OT.lt_trans _ _ _ Eab Ebc) as H.
    apply String_as_OT.cmp_lt in H. unfold String_as_OT.cmp in H.
    now rewrite H.
  - intros a b. unfold String.ltb.
    pose proof (String_as_OT.cmp_antisym a b) as Hanti.
    unfold String_as_OT.cmp in Hanti.
    destruct (String.compare a b) eqn:Eab; try discriminate.
    + intros _ _. now apply String_as_OT.cmp_eq.
    + destruct (String.compare b a); simpl in Hanti; try discriminate.
Qed.

Lemma trivial_strict_total :
  strict_total (fun _ _ : unit => true) (fun _ _ : unit => false).
Proof.
  split; try reflexivity; try discriminate.
  - intros [] []. now split.
  - intros [] []. reflexivity.
Qed.

Section OrderLifting.

Context {A B : Type}.
Variables (eqbA ltbA : A -> A -> bool) (eqbB ltbB : B -> B -> bool).
Hypothesis HA : strict_total eqbA ltbA.
Hypothesis HB : strict_total eqbB ltbB.

Lemma eqb_refl_of_strict_total (a : A) : eqbA a a = true.
Proof. now apply (st_eqb _ _ HA). Qed.

Lemma eqb_false_of_lt (a a' : A) : ltbA a a' = true -> eqbA a a' = false.
Proof.
  intro H. destruct (eqbA a a') eqn:E; [|reflexivity].
  apply (st_eqb _ _ HA) in E. subst a'.
  rewrite (st_irrefl _ _ HA) in H. discriminate.
Qed.

Lemma option_strict_total :
  strict_total (CoordDefn.option_eqb eqbA) (CoordDefn.None_first_ltb ltbA).
Proof.
  split.
  - intros [a|] [b|]; simpl; split; intro H; try discriminate; try reflexivity.
    + f_equal. now apply (st_eqb _ _ HA).
    + injection H as ->. apply eqb_refl_of_strict_total.
  - intros [a|]; simpl; [apply (st_irrefl _ _ HA)|reflexivity].
  - intros [a|] [b|] [c|]; simpl; try discriminate; try reflexivity.
    apply (st_trans _ _ HA).
  - intros [a|] [b|]; simpl; try discriminate; try reflexivity.
    intros H1 H2. f_equal. now apply (st_total _ _ HA).
Qed.

Lemma lex2_strict_total :
  strict_total (eqb2 eqbA eqbB) (lex2 eqbA ltbA ltbB).
Proof.
  split.
  - intros [a b] [a' b']; unfold eqb2; simpl. split.
    + intro H. apply andb_prop in H as [H1 H2].
      apply (st_eqb _ _ HA) in H1. apply (st_eqb _ _ HB) in H2. congruence.
    + intro H. injection H as -> ->.
      rewrite eqb_refl_of_strict_total. now apply (st_eqb _ _ HB).
  - intros [a b]; unfold lex2; simpl.
    rewrite eqb_refl_of_strict_total. apply (st_irrefl _ _ HB).
  - intros [a1 b1] [a2 b2] [a3 b3]; unfold lex2; simpl.
    destruct (eqbA a1 a2) eqn:E12; simpl.
    + apply (st_eqb _ _ HA) in E12. subst a2.
      destruct (eqbA a1 a3); simpl; [apply (st_trans _ _ HB)|auto].
    + destruct (eqbA a2 a3) eqn:E23; simpl.
      * apply (st_eqb _ _ HA) in E23. subst a3.
        rewrite E12. simpl. auto.
      * intros H12 H23.
        pose proof (st_trans _ _ HA _ _ _ H12 H23) as H13.
        rewrite (eqb_false_of_lt _ _ H13). exact H13.
  - intros [a1 b1] [a2 b2]; unfold lex2; simpl.
    destruct (eqbA a1 a2) eqn:E12; simpl.
    + apply (st_eqb _ _ HA) in E12. subst a2.
      rewrite eqb_refl_of_strict_total. simpl.
      intros H1 H2. f_equal. now apply (st_total _ _ HB).
    + destruct (eqbA a2 a1) eqn:E21; simpl.
      * apply (st_eqb _ _ HA) in E21. subst a2.
        rewrite eqb_refl_of_strict_total in E12. discriminate.
      * intros H1 H2. pose proof (st_total _ _ HA _ _ H1 H2) as ->.
        rewrite eqb_refl_of_strict_total in E12. discriminate.
Qed.

End OrderLifting.

(** ** The order of CoordDefn *)

Section CoordDefnOrder.

Variables Unit CoordSystem : Type.
Variables unit_eqb unit_ltb : Unit -> Unit -> bool.
Variables cs_eqb cs_ltb : CoordSystem -> CoordSystem -> bool.

Local Abbreviation defn := (CoordDefn.t Unit CoordSystem).
Local Abbreviation defn_lt := (CoordDefn.__lt__ unit_eqb unit_ltb cs_eqb cs_ltb).
Local Abbreviation lex_lt := (CoordDefn.lex_lt unit_eqb unit_ltb cs_eqb cs_ltb).

Local Abbreviation fields := (@key_fields Unit CoordSystem).
Local Abbreviation fields_ltb := (key_fields_ltb unit_eqb unit_ltb cs_eqb cs_ltb).
Local Abbreviation fields_eqb := (key_fields_eqb unit_eqb cs_eqb).

Lemma lex_lt_fields (d1 d2 : defn) : lex_lt d1 d2 = fields_ltb (fields d1) (fields d2).
Proof. reflexivity. Qed.

(** The tuple comparison of the two sort keys never raises and is the
    lexicographic order with [None] first. *)
Lemma defn_lt_is_lex_lt (d1 d2 : defn) :
  defn_lt d1 (CoordDefn.ODefn d2) = Ok (PyBool (lex_lt d1 d2)).
Proof.
  destruct d1 as [sn1 ln1 vn1 u1 at1 cs1], d2 as [sn2 ln2 vn2 u2 at2 cs2].
  unfold CoordDefn.__lt__, CoordDefn.lex_lt, CoordDefn._sort_key; simpl.
  destruct sn1 as [sn1|], sn2 as [sn2|]; simpl; try reflexivity;
    try (destruct (String.eqb sn1 sn2); simpl; [|reflexivity]);
  (destruct ln1 as [ln1|], ln2 as [ln2|]; simpl; try reflexivity;
    try (destruct (String.eqb ln1 ln2); simpl; [|reflexivity]);
   (destruct vn1 as [vn1|], vn2 as [vn2|]; simpl; try reflexivity;
     try (destruct (String.eqb vn1 vn2); simpl; [|reflexivity]);
    (destruct u1 as [u1|], u2 as [u2|]; simpl; try reflexivity;
      try (destruct (unit_eqb u1 u2); simpl; [|reflexivity]);
     (destruct cs1 as [cs1|], cs2 as [cs2|]; simpl; try reflexivity;
       destruct (cs_eqb cs1 cs2); reflexivity)))).
Qed.

Hypothesis unit_order : strict_total unit_eqb unit_ltb.
Hypothesis cs_order : strict_total cs_eqb cs_ltb.

Lemma fields_strict_total : strict_total fields_eqb fields_ltb.
Proof.
  pose proof (option_strict_total _ _ string_strict_total) as Hname.
  pose proof (option_strict_total _ _ unit_order) as Hunit.
  pose proof (option_strict_total _ _ cs_order) as Hcs.
  repeat (apply lex2_strict_total; [assumption|]).
  apply trivial_strict_total.
Qed.

(** C4, with the direction the sort key has.  [CoordDefn.__lt__] on two
    definitions never raises and is the lexicographic order over
    [(has standard_name, standard_name, has long_name, long_name,
    has var_name, var_name, has units, units, has coord_system,
    coord_system)].  It is a strict total order on the key fields:
    irreflexive, transitive, and two definitions that are not ordered
    either way have the same key fields.  In each field a definition
    where the field is [None] sorts before one where it is present, the
    earlier fields being equal. *)
Theorem CoordDefn_lt_total_order :
  (forall d1 d2 : defn,
      defn_lt d1 (CoordDefn.ODefn d2) = Ok (PyBool (lex_lt d1 d2))) /\
  (forall d : defn, lex_lt d d = false) /\
  (forall d1 d2 d3 : defn,
      lex_lt d1 d2 = true -> lex_lt d2 d3 = true -> lex_lt d1 d3 = true) /\
  (forall d1 d2 : defn,
      lex_lt d1 d2 = false -> lex_lt d2 d1 = false -> CoordDefn.same_key d1 d2) /\
  (forall (sn : string) ln1 ln2 vn1 vn2 u1 u2 a1 a2 c1 c2,
      lex_lt (CoordDefn.mk None ln1 vn1 u1 a1 c1)
             (CoordDefn.mk (Some sn) ln2 vn2 u2 a2 c2) = true) /\
  (forall sn (ln : string) vn1 vn2 u1 u2 a1 a2 c1 c2,
      lex_lt (CoordDefn.mk sn None vn1 u1 a1 c1)
             (CoordDefn.mk sn (Some ln) vn2 u2 a2 c2) = true) /\
  (forall sn ln (vn : string) u1 u2 a1 a2 c1 c2,
      lex_lt (CoordDefn.mk sn ln None u1 a1 c1)
             (CoordDefn.mk sn ln (Some vn) u2 a2 c2) = true) /\
  (forall sn ln vn (u : Unit) a1 a2 c1 c2,
      lex_lt (CoordDefn.mk sn ln vn None a1 c1)
             (CoordDefn.mk sn ln vn (Some u) a2 c2) = true) /\
  (forall sn ln vn u a1 a2 (c : CoordSystem),
      lex_lt (CoordDefn.mk sn ln vn u a1 None)
             (CoordDefn.mk sn ln vn u a2 (Some c)) = true).
Proof.
  pose proof fields_strict_total as Hst.
  pose proof (option_strict_total _ _ string_strict_total) as Hname.
  pose proof (option_strict_total _ _ unit_order) as Hunit.
  assert (Rn : forall x : option string, CoordDefn.option_eqb String.eqb x x = true)
    by (intro x; apply (eqb_refl_of_strict_total _ _ Hname)).
  assert (Ru : forall x : option Unit, CoordDefn.option_eqb unit_eqb x x = true)
    by (intro x; apply (eqb_refl_of_strict_total _ _ Hunit)).
  split; [exact defn_lt_is_lex_lt|].
  split; [intro d; rewrite lex_lt_fields; apply (st_irrefl _ _ Hst)|].
  split; [intros d1 d2 d3; rewrite !lex_lt_fields; apply (st_trans _ _ Hst)|].
  split.
  { intros d1 d2 H1 H2. rewrite lex_lt_fields in H1, H2.
    pose proof (st_total _ _ Hst _ _ H1 H2) as E.
    unfold key_fields in E. injection E as E1 E2 E3 E4 E5.
    repeat split; assumption. }
  unfold CoordDefn.lex_lt; simpl.
  repeat split; intros; rewrite ?Rn, ?Ru; reflexivity.
Qed.

End CoordDefnOrder.

Lemma CoordDefn_lt_total_order_witness :
  CoordDefn.__lt__ String.eqb String.ltb String.eqb String.ltb
    (CoordDefn.mk None (Some "height"%string) None (Some "m"%string) [] None)
    (CoordDefn.ODefn
       (CoordDefn.mk (Some "air_temperature"%string) None None (Some "K"%string) [] None))
  = Ok (PyBool true).
Proof.
  destruct (CoordDefn_lt_total_order string string String.eqb String.ltb
              String.eqb String.ltb string_strict_total string_strict_total)
    as [H _].
  rewrite H. reflexivity.
Defined.

(** A definition with a standard name does not sort before one without:
    it sorts after it. *)
Lemma present_name_sorts_after_absent :
  ~ (forall d1 d2 : CoordDefn.t string string,
       CoordDefn.standard_name d1 <> None ->
       CoordDefn.standard_name d2 = None ->
       CoordDefn.__lt__ String.eqb String.ltb String.eqb String.ltb
         d1 (CoordDefn.ODefn d2) = Ok (PyBool true)).
Proof.
  intro H.
  specialize (H (CoordDefn.mk (Some "air_temperature"%string) None None None [] None)
                (CoordDefn.mk None None None None [] None)).
  simpl in H.
  assert (E : Ok (PyBool false) = Ok (PyBool true)).
  { apply H; [discriminate|reflexivity]. }
  discriminate E.
Qed.

(** ** Copying a coordinate with its own points *)

Lemma array_equal_refl (a : array1) : array_equal a a = true.
Proof.
  induction a as [|x a IH]; simpl; [reflexivity|].
  now rewrite Qeq_bool_refl, IH.
Qed.

Lemma array2_equal_refl (a : array2) : array2_equal a a = true.
Proof.
  induction a as [|x a IH]; simpl; [reflexivity|].
  now rewrite array_equal_refl, IH.
Qed.

Lemma defn_eqb_refl (d : CoordDefn.t DimCoord.Unit DimCoord.CoordSystem) :
  DimCoord.defn_eqb d d = true.
Proof.
  assert (Hs : forall x : option string, CoordDefn.option_eqb String.eqb x x = true).
  { intros [x|]; simpl; [apply String.eqb_refl|reflexivity]. }
  assert (Ha : forall a, DimCoord.attributes_eqb a a = true).
  { induction a as [|[k v] a IH]; simpl; [reflexivity|].
    now rewrite !String.eqb_refl, IH. }
  unfold DimCoord.defn_eqb. rewrite !Hs, Ha.
  destruct (CoordDefn.units d) as [[sym [m|]]|]; simpl;
    unfold DimCoord.Unit_eqb; simpl;
    rewrite ?String.eqb_refl, ?Qeq_bool_refl; reflexivity.
Qed.

(** Indexing a coordinate that has no bounds raises: [_bounds_dm] is
    [None] and [core_data] is looked up on it. *)
Lemma getitem_without_bounds_raises (c : DimCoord.t) (k : keys) :
  DimCoord._bounds_dm c = None -> DimCoord.__getitem__ c k = Raise AttributeError.
Proof.
  intro H. unfold DimCoord.__getitem__, DimCoord.Coord___getitem__.
  now rewrite H.
Qed.

(** C3, as [copy] has it.  For a coordinate [s] whose points meet the
    points requirements (as those of every [coord[slice]] do),
    [s.copy(points=s.points)] returns a coordinate with the definition and
    the points of [s] and without bounds; it is equal to [s] exactly when
    [s] has no bounds. *)
Theorem copy_own_points (s : DimCoord.t) :
  DimCoord._new_points_requirements (DimCoord.points s) = Ok tt ->
  exists s' : DimCoord.t,
    DimCoord.copy s (Some (DimCoord.points s)) None = Ok s' /\
    DimCoord.defn s' = DimCoord.defn s /\
    DimCoord.points s' = DimCoord.points s /\
    DimCoord.bounds s' = None /\
    DimCoord.__eq__ s' s = negb (DimCoord.has_bounds s).
Proof.
  intro Hreq.
  unfold DimCoord.copy, DimCoord.Coord_copy, DimCoord.set_points; simpl.
  rewrite Hreq; simpl.
  eexists; split; [reflexivity|].
  repeat split.
  unfold DimCoord.__eq__, DimCoord.Coord___eq__, DimCoord._as_defn,
    DimCoord.bounds, DimCoord.points, DimCoord.has_bounds; simpl.
  rewrite defn_eqb_refl, array_equal_refl, Bool.eqb_reflx; simpl.
  destruct (DimCoord._bounds_dm s); reflexivity.
Qed.

Lemma copy_own_points_witness :
  exists s' : DimCoord.t,
    DimCoord.copy (plain_coord [0; 1] None false None) (Some [0; 1]) None = Ok s' /\
    DimCoord.__eq__ s' (plain_coord [0; 1] None false None) = true.
Proof.
  destruct (copy_own_points (plain_coord [0; 1] None false None) eq_refl)
    as (s' & Hcopy & _ & _ & _ & Heq).
  exists s'. split; [exact Hcopy|exact Heq].
Defined.

(** The points of an indexed coordinate meet the points requirements. *)
Lemma getitem_points_requirements (c s : DimCoord.t) (k : keys) :
  DimCoord.__getitem__ c k = Ok s ->
  DimCoord._new_points_requirements (DimCoord.points s) = Ok tt.
Proof.
  unfold DimCoord.__getitem__, DimCoord.Coord___getitem__, DimCoord.copy,
    DimCoord.Coord_copy, DimCoord.set_points.
  destruct (DimCoord._bounds_dm c) as [dm|] eqn:Hb; simpl; [|discriminate].
  destruct (DimCoord._new_points_requirements
              (_slice_data_with_keys (core_data (DimCoord._points_dm c)) k))
    as [[]|e] eqn:Hreq; simpl; [|discriminate].
  unfold DimCoord.set_bounds; simpl.
  destruct (DimCoord._new_bounds_requirements _ _); simpl; [|discriminate].
  rewrite Hb; simpl.
  intro H. injection H as <-. exact Hreq.
Qed.

(** The round trip on a slice that has bounds: the copy has lost them and
    is not equal to the slice. *)
Lemma sliced_roundtrip_loses_bounds :
  ~ (forall (coord s s' : DimCoord.t) (k : keys),
       DimCoord.__getitem__ coord k = Ok s ->
       DimCoord.copy s (Some (DimCoord.points s)) None = Ok s' ->
       DimCoord.__eq__ s' s = true).
Proof.
  intro H.
  pose (coord := plain_coord [0; 1; 2]
                   (Some [[- (1 # 2); 1 # 2]; [1 # 2; 3 # 2]; [3 # 2; 5 # 2]])
                   false None).
  specialize (H coord
                (plain_coord [0; 1] (Some [[- (1 # 2); 1 # 2]; [1 # 2; 3 # 2]]) false None)
                (plain_coord [0; 1] None false None)
                (Slice 0 2) eq_refl eq_refl).
  discriminate H.
Qed.

(** ** Replacing the points *)

(** C6, where the code leaves it.  Whatever [DataManager.replace] does,
    [replace_points] never returns normally with the bounds gone: on a
    coordinate without bounds it raises, and on one with bounds the bounds
    manager is still in place afterwards. *)
Theorem replace_points_does_not_clear_bounds
        (dm_replace : forall A : Type, DataManager A -> option A -> DataManager A * result unit)
        (c : DimCoord.t) (points : array1) (fill_value : option Q) :
  let out := DimCoord.replace_points dm_replace c points fill_value in
  is_ok (snd out) && negb (DimCoord.has_bounds (fst out)) = false /\
  negb (DimCoord.has_bounds c) && is_ok (snd out) = false.
Proof.
  unfold DimCoord.replace_points, DimCoord.Coord_replace_points,
    DimCoord.replace_bounds, DimCoord.Coord_replace_bounds, DimCoord.has_bounds.
  destruct (DimCoord._new_points_requirements points) as [[]|e]; simpl.
  - destruct (dm_replace array1 (DimCoord._points_dm c) (Some points)) as [dm' [[]|e]];
      simpl.
    + destruct (DimCoord._bounds_dm c) as [dm|]; simpl; [|split; reflexivity].
      destruct (dm_replace array2 dm None) as [dm'' [[]|e]]; simpl; split; reflexivity.
    + split; [reflexivity|]. destruct (DimCoord._bounds_dm c); reflexivity.
  - split; [reflexivity|]. destruct (DimCoord._bounds_dm c); reflexivity.
Qed.

(** New points for the coordinate of points [0, 1, 2] without bounds: the
    points are replaced, then [replace_bounds] raises. *)
Example replace_points_without_bounds :
  DimCoord.replace_points dm_replace_any (plain_coord [0; 1; 2] None false None)
                          [0; 1; 2; 3] None
  = (plain_coord [0; 1; 2; 3] None false None, Raise AttributeError).
Proof. reflexivity. Qed.

(** New points for a coordinate with bounds: the call returns and the
    bounds are still there. *)
Example replace_points_with_bounds :
  DimCoord.replace_points dm_replace_any
                          (plain_coord [0; 1] (Some [[0; 1]; [1; 2]]) false None)
                          [5; 6] None
  = (plain_coord [5; 6] (Some [[0; 1]; [1; 2]]) false None, Ok tt).
Proof. reflexivity. Qed.

(** ** Guessing bounds *)

(** C7, where the code leaves it.  [guess_bounds] never returns normally:
    on a coordinate with bounds [_guess_bounds] raises, and on one without
    bounds the [bounds] setter assigns to [self._bounds_dm.data] while
    [_bounds_dm] is [None].  So no coordinate gets to [is_contiguous]
    through [guess_bounds], whatever the arithmetic. *)
Theorem guess_bounds_never_returns
        (ar : arithmetic) (clip_latitudes : bool) (c : DimCoord.t) (bound_position : Q) :
  is_ok (DimCoord.guess_bounds ar clip_latitudes c bound_position) = false.
Proof.
  unfold DimCoord.guess_bounds.
  destruct (DimCoord._guess_bounds ar clip_latitudes c bound_position) as [b|e] eqn:G;
    simpl; [|reflexivity].
  assert (Hb : DimCoord._bounds_dm c = None).
  { unfold DimCoord._guess_bounds, DimCoord.bounds in G.
    destruct (negb (DimCoord.is_monotonic c)); [discriminate|].
    destruct (DimCoord.shape c <? 2)%nat; [discriminate|].
    destruct (DimCoord._bounds_dm c); [discriminate|reflexivity]. }
  unfold DimCoord.set_bounds. rewrite Hb.
  destruct (DimCoord._new_bounds_requirements c b); reflexivity.
Qed.

(** The coordinate of points [0, 10] without bounds: the guessed bounds are
    [(-5, 5)] and [(5, 15)] (no result is rounded here), they meet the
    bounds requirements, and the assignment raises. *)
Example guess_bounds_0_10 :
  DimCoord._guess_bounds exact false (plain_coord [0; 10] None false None)
                         DimCoord.BOUND_POSITION_MIDDLE
  = Ok [[0 - 10 * (1 # 2); 0 + 10 * (1 - (1 # 2))];
        [10 - 10 * (1 # 2); 10 + 10 * (1 - (1 # 2))]] /\
  DimCoord._new_bounds_requirements
    (plain_coord [0; 10] None false None)
    [[0 - 10 * (1 # 2); 0 + 10 * (1 - (1 # 2))];
     [10 - 10 * (1 # 2); 10 + 10 * (1 - (1 # 2))]] = Ok tt /\
  DimCoord.guess_bounds exact false (plain_coord [0; 10] None false None)
                        DimCoord.BOUND_POSITION_MIDDLE
  = Raise AttributeError.
Proof. repeat split. Qed.

(** ** Nearest neighbour without bounds *)

Lemma Qextreme_min_le_all (qs : list Q) (m : Q) :
  Forall (fun x => Qextreme OpLt m qs <= x) (m :: qs).
Proof.
  revert m. induction qs as [|q qs IH]; intro m.
  - constructor; [simpl; lra|constructor].
  - change (Qextreme OpLt m (q :: qs))
      with (Qextreme OpLt (if Qltb q m then q else m) qs).
    specialize (IH (if Qltb q m then q else m)).
    inversion IH as [|x l Hhd Htl]; subst.
    assert (Hm : (if Qltb q m then q else m) <= m /\ (if Qltb q m then q else m) <= q).
    { unfold Qltb. destruct (Qle_bool m q) eqn:E; simpl.
      - apply Qle_bool_true in E. split; lra.
      - apply Qle_bool_false in E. split; lra. }
    destruct Hm as [Hm Hq].
    constructor; [lra|]. constructor; [lra|exact Htl].
Qed.

Lemma Qextreme_min_In (qs : list Q) (m : Q) : In (Qextreme OpLt m qs) (m :: qs).
Proof.
  revert m. induction qs as [|q qs IH]; intro m; [now left|].
  change (Qextreme OpLt m (q :: qs))
    with (Qextreme OpLt (if Qltb q m then q else m) qs).
  destruct (IH (if Qltb q m then q else m)) as [H|H].
  - rewrite <- H. destruct (Qltb q m); [right; now left|now left].
  - right; now right.
Qed.





(** Points [0, 10, 20, 30]: 12 is nearest to index 1, 26 to index 3; points
    [0, 10]: 5 is as near to both and index 0 is returned.  No result is
    rounded on these values. *)
Example nearest_neighbour_examples :
  DimCoord.nearest_neighbour_index exact (plain_coord [0; 10; 20; 30] None false None) 12
  = Ok 1%nat /\
  DimCoord.nearest_neighbour_index exact (plain_coord [0; 10; 20; 30] None false None) 26
  = Ok 3%nat /\
  DimCoord.nearest_neighbour_index exact (plain_coord [0; 10] None false None) 5
  = Ok 0%nat.
Proof. repeat split. Qed.


Example nearest_neighbour_circular_float64 :
  DimCoord.nearest_neighbour_index
    binary64
    (plain_coord [0; 90; 180; 270] None true
                 (Some (DimCoord.mk_unit "degrees" (Some 360)))) 350
  = Ok 0%nat.
Proof. vm_compute. reflexivity. Qed.


(** ** The points of an AuxCoord *)

Lemma shape_eqb_eq (a b : list nat) : AuxCoord.shape_eqb a b = true <-> a = b.
Proof.
  unfold AuxCoord.shape_eqb. destruct (list_eq_dec Nat.eq_dec a b); split;
    intro H; try assumption; try reflexivity; try discriminate; contradiction.
Qed.

Lemma set_points_promotes (self self' : AuxCoord.t) (new : AuxCoord.ndarray) :
  AuxCoord.set_points self new = Ok self' ->
  exists a, AuxCoord._points self' = AuxCoord.Value a /\
            AuxCoord.shape_of a = promoted_shape (AuxCoord.shape_of new) /\
            AuxCoord._points_dm self' = AuxCoord._points_dm self.
Proof.
  unfold AuxCoord.set_points, AuxCoord._sanitise_array.
  destruct new as [lazy sh vals]; simpl.
  assert (Hsh : AuxCoord.shape_of
                  (if lazy
                   then if AuxCoord.shape_eqb sh []
                        then AuxCoord.mk_array true [1%nat] vals
                        else AuxCoord.mk_array lazy sh vals
                   else AuxCoord.mk_array lazy
                          (repeat 1%nat (1 - List.length sh) ++ sh) vals)
                = promoted_shape sh).
  { destruct lazy, sh as [|n sh]; reflexivity. }
  destruct (AuxCoord._points self) as [| |old];
    try (intro H; injection H as <-; eexists; repeat split; exact Hsh).
  match goal with |- (if ?cond then _ else _) = _ -> _ => destruct cond end;
    [discriminate|].
  intro H; injection H as <-; eexists; repeat split; exact Hsh.
Qed.



(** A coordinate as [Coord.__init__] leaves it has its points in
    [_points_dm] and no [_points] attribute: the first assignment through
    the property is accepted whatever its shape, and the shape of the
    coordinate, read from [_points_dm], is not that of its points
    afterwards. *)
Lemma AuxCoord_first_assignment_unchecked (dm : DataManager AuxCoord.ndarray)
      (new : AuxCoord.ndarray) :
  exists a : AuxCoord.ndarray,
    AuxCoord.set_points (AuxCoord.mk dm AuxCoord.Unset) new
    = Ok (AuxCoord.mk dm (AuxCoord.Value a)) /\
    AuxCoord.shape_of a = promoted_shape (AuxCoord.shape_of new).
Proof.
  destruct (AuxCoord.set_points (AuxCoord.mk dm AuxCoord.Unset) new) as [self'|e] eqn:E;
    [|discriminate E].
  destruct (set_points_promotes _ _ _ E) as (a & Ha & Hsh & Hdm).
  exists a. split; [|exact Hsh].
  destruct self' as [dm' p']. simpl in Ha, Hdm. now subst.
Qed.

Example AuxCoord_built_with_three_points_takes_two :
  AuxCoord.set_points
    (AuxCoord.mk (mk_dm (AuxCoord.mk_array false [3%nat] [0; 1; 2])) AuxCoord.Unset)
    (AuxCoord.mk_array false [2%nat] [0; 1])
  = Ok (AuxCoord.mk (mk_dm (AuxCoord.mk_array false [3%nat] [0; 1; 2]))
                    (AuxCoord.Value (AuxCoord.mk_array false [2%nat] [0; 1]))).
Proof. reflexivity. Qed.


(** The guessed bounds [(-5, 5)], [(5, 15)] of the points [0, 10], once
    held by the coordinate, are contiguous for [is_contiguous]. *)
Example is_contiguous_0_10 :
  DimCoord.is_contiguous
    exact (plain_coord [0; 10] (Some [[- (5); 5]; [5; 15]]) false None)
    DimCoord.default_rtol DimCoord.default_atol
  = Ok true.
Proof. reflexivity. Qed.

(** * Further properties *)

(** ** Cells of numbers: the remaining operators *)

Lemma Qextreme_max_ge_all (qs : list Q) (m : Q) :
  Forall (fun x => x <= Qextreme OpGt m qs) (m :: qs).
Proof.
  revert m. induction qs as [|q qs IH]; intro m.
  - constructor; [simpl; lra|constructor].
  - change (Qextreme OpGt m (q :: qs))
      with (Qextreme OpGt (if Qltb m q then q else m) qs).
    specialize (IH (if Qltb m q then q else m)).
    inversion IH as [|x l Hhd Htl]; subst.
    assert (Hm : m <= (if Qltb m q then q else m) /\ q <= (if Qltb m q then q else m)).
    { unfold Qltb. destruct (Qle_bool q m) eqn:E; simpl.
      - apply Qle_bool_true in E. split; lra.
      - apply Qle_bool_false in E. split; lra. }
    destruct Hm as [Hm Hq].
    constructor; [lra|]. constructor; [lra|exact Htl].
Qed.

Lemma Qextreme_max_In (qs : list Q) (m : Q) : In (Qextreme OpGt m qs) (m :: qs).
Proof.
  revert m. induction qs as [|q qs IH]; intro m; [now left|].
  change (Qextreme OpGt m (q :: qs))
    with (Qextreme OpGt (if Qltb m q then q else m) qs).
  destruct (IH (if Qltb m q then q else m)) as [H|H].
  - rewrite <- H. destruct (Qltb m q); [right; now left|now left].
  - right; now right.
Qed.

Lemma no_dates_among_numbers (b : list scalar) :
  forallb is_number b = true -> existsb has_timetuple b = false.
Proof.
  induction b as [|x b IH]; simpl; [reflexivity|]. intro H.
  apply andb_prop in H as [Hx Hb]. rewrite (IH Hb).
  destruct x; try discriminate; reflexivity.
Qed.

(** What the five comparisons of a number with a cell of numbers compute:
    [lo] and [hi] are the point of a cell without bound and the least and
    the greatest bound value otherwise. *)
Lemma numeric_cell_against_number (c : Cell.t) (v : Q) :
  Cell.numeric c = true ->
  exists (lo hi : Q) (eq : bool),
    lo <= hi /\
    (eq = true <-> lo <= v /\ v <= hi) /\
    Cell.num_lt_cell v c = Ok (Qltb v lo) /\
    Cell.num_gt_cell v c = Ok (Qltb hi v) /\
    Cell.num_le_cell v c = Ok (Qle_bool v hi) /\
    Cell.num_ge_cell v c = Ok (Qle_bool lo v) /\
    Cell.num_eq_cell v c = Ok (PyBool eq) /\
    Cell.num_ne_cell v c = Ok (PyBool (negb eq)).
Proof.
  destruct c as [p [b|]]; unfold Cell.numeric; simpl; intro H.
  - apply andb_prop in H as [Hp H]. apply andb_prop in H as [Hb Hlen].
    destruct p as [pq| |]; try discriminate.
    assert (Hne : b <> []) by (destruct b; [discriminate|congruence]).
    destruct (numeric_bound_extremes b Hb Hne)
      as (lo & hi & Hmin & Hmax & Hnmin & Hnmax & Hle).
    pose proof (no_dates_among_numbers b Hb) as Hdate.
    exists lo, hi, (Qle_bool lo v && Qle_bool v hi).
    unfold Cell.num_lt_cell, Cell.num_eq_cell, Cell.num_gt_cell, Cell.num_ne_cell,
      Cell.num_le_cell, Cell.num_ge_cell, Cell.__gt__, Cell.__lt__, Cell.__ne__,
      Cell.__ge__, Cell.__le__, Cell.__eq__, Cell.__common_cmp__,
      Cell.contains_point; simpl.
    rewrite Hdate, Hmin, Hmax, Hnmin, Hnmax; simpl.
    split; [exact Hle|]. split.
    { rewrite andb_true_iff, !Qle_bool_iff. reflexivity. }
    repeat split; destruct (Qle_bool lo v); reflexivity.
  - rewrite andb_true_r in H. destruct p as [pq| |]; try discriminate.
    exists pq, pq, (Qeq_bool pq v).
    unfold Cell.num_lt_cell, Cell.num_eq_cell, Cell.num_gt_cell, Cell.num_ne_cell,
      Cell.num_le_cell, Cell.num_ge_cell, Cell.__gt__, Cell.__lt__, Cell.__ne__,
      Cell.__ge__, Cell.__le__, Cell.__eq__, Cell.__common_cmp__; simpl.
    split; [lra|]. split.
    { rewrite Qeq_bool_iff. split; [intro E; rewrite E; split; lra|].
      intros [H1 H2]. apply Qle_antisym; assumption. }
    repeat split.
Qed.

(** For a cell of numbers [c] and a number [v], [v != c] holds exactly when
    [v < c] or [v > c] does. *)
Theorem cell_number_ne (c : Cell.t) (v : Q) :
  Cell.numeric c = true ->
  exists lt gt : bool,
    Cell.num_lt_cell v c = Ok lt /\
    Cell.num_gt_cell v c = Ok gt /\
    Cell.num_ne_cell v c = Ok (PyBool (lt || gt)).
Proof.
  intro Hc.
  destruct (numeric_cell_against_number c v Hc)
    as (lo & hi & eq & Hle & Heq & Hlt & Hgt & _ & _ & _ & Hne).
  exists (Qltb v lo), (Qltb hi v). split; [exact Hlt|]. split; [exact Hgt|].
  rewrite Hne. do 2 f_equal.
  destruct eq; simpl.
  - destruct Heq as [Heq _]. destruct (Heq eq_refl) as [H1 H2].
    symmetry. unfold Qltb. apply orb_false_iff.
    split; apply negb_false_iff; apply Qle_bool_iff; assumption.
  - symmetry. unfold Qltb.
    destruct (Qle_bool lo v) eqn:E1; [|reflexivity].
    destruct (Qle_bool v hi) eqn:E2; [|apply orb_true_r].
    apply Qle_bool_true in E1, E2.
    destruct Heq as [_ Heq]. discriminate (Heq (conj E1 E2)).
Qed.

Lemma cell_number_ne_witness :
  Cell.num_ne_cell 11 (Cell.mk (SNum 8) (Some [SNum 5; SNum 10])) = Ok (PyBool true).
Proof.
  destruct (cell_number_ne (Cell.mk (SNum 8) (Some [SNum 5; SNum 10])) 11 eq_refl)
    as (lt & gt & Hlt & Hgt & Hne).
  rewrite Hne. injection Hlt as <-. injection Hgt as <-. reflexivity.
Defined.

(** For a bounded cell of numbers, [contains_point(v)] holds exactly when
    [v] lies between two of the bound values, in whatever order the bound
    values are stored. *)
Theorem contains_point_between_bound_values (p : scalar) (b : list scalar) (v : Q) :
  forallb is_number b = true -> b <> [] ->
  exists inside : bool,
    Cell.contains_point (Cell.mk p (Some b)) (SNum v) = Ok inside /\
    (inside = true <->
     exists x y : Q, In (SNum x) b /\ In (SNum y) b /\ x <= v /\ v <= y).
Proof.
  intros Hb Hne.
  destruct (numbers_are_map b Hb) as [qs ->].
  destruct qs as [|q qs]; [now elim Hne|].
  pose proof (no_dates_among_numbers _ Hb) as Hdate.
  exists (Qle_bool (Qextreme OpLt q qs) v && Qle_bool v (Qextreme OpGt q qs)).
  split.
  - unfold Cell.contains_point, np_min, np_max, np_extreme; simpl.
    simpl in Hdate. rewrite Hdate, as_numbers_map. simpl.
    destruct (Qle_bool (Qextreme OpLt q qs) v); reflexivity.
  - rewrite andb_true_iff, !Qle_bool_iff. split.
    + intros [H1 H2].
      exists (Qextreme OpLt q qs), (Qextreme OpGt q qs).
      repeat split; try assumption.
      * apply (in_map SNum (q :: qs)). apply Qextreme_min_In.
      * apply (in_map SNum (q :: qs)). apply Qextreme_max_In.
    + intros (x & y & Hx & Hy & H1 & H2).
      apply in_map_iff in Hx as (x' & Ex & Hx). injection Ex as ->.
      apply in_map_iff in Hy as (y' & Ey & Hy). injection Ey as ->.
      pose proof (Qextreme_min_le_all qs q) as Hmin.
      pose proof (Qextreme_max_ge_all qs q) as Hmax.
      rewrite Forall_forall in Hmin, Hmax.
      specialize (Hmin x Hx). specialize (Hmax y Hy). simpl in Hmin, Hmax.
      split; lra.
Qed.

Lemma contains_point_between_bound_values_witness :
  Cell.contains_point (Cell.mk (SNum 7) (Some [SNum 10; SNum 5])) (SNum 6) = Ok true.
Proof.
  destruct (contains_point_between_bound_values
              (SNum 7) [SNum 10; SNum 5] 6 eq_refl)
    as (inside & Hc & Hin).
  - discriminate.
  - rewrite Hc. f_equal. apply Hin. exists 5, 10.
    repeat split; simpl; auto; lra.
Defined.

(** ** Adding a number to a cell *)

Lemma monotone_Qeq (f : Q -> Q) (x y : Q) : monotone f -> x == y -> f x == f y.
Proof.
  intros Hf E. apply Qle_antisym; apply Hf; rewrite E; apply Qle_refl.
Qed.

Lemma keeps_order_incl (f : Q -> Q) (l l' : list Q) :
  keeps_order_on f l -> incl l' l -> keeps_order_on f l'.
Proof.
  intros [Hm Hs] Hincl. split; [exact Hm|].
  intros x y Hx Hy. apply Hs; now apply Hincl.
Qed.

Lemma keeps_order_Qle_bool (f : Q -> Q) (l : list Q) (x y : Q) :
  keeps_order_on f l -> In x l -> In y l ->
  Qle_bool (f x) (f y) = Qle_bool x y.
Proof.
  intros [Hm Hs] Hx Hy.
  destruct (Qle_bool x y) eqn:E.
  - apply Qle_bool_true in E. apply Qle_bool_iff. now apply Hm.
  - apply Qle_bool_false in E.
    destruct (Qle_bool (f x) (f y)) eqn:E'; [|reflexivity].
    apply Qle_bool_true in E'. specialize (Hs y x Hy Hx E). exfalso. lra.
Qed.

Lemma keeps_order_Qcmp (f : Q -> Q) (l : list Q) (op : cmpop) (x y : Q) :
  keeps_order_on f l -> In x l -> In y l ->
  Qcmp op (f x) (f y) = Qcmp op x y.
Proof.
  intros H Hx Hy. destruct op; unfold Qcmp, Qltb;
    now rewrite ?(keeps_order_Qle_bool f l x y H Hx Hy),
                ?(keeps_order_Qle_bool f l y x H Hy Hx).
Qed.

Lemma keeps_order_Qeq_bool (f : Q -> Q) (l : list Q) (x y : Q) :
  keeps_order_on f l -> In x l -> In y l ->
  Qeq_bool (f x) (f y) = Qeq_bool x y.
Proof.
  intros H Hx Hy.
  pose proof (keeps_order_Qle_bool f l x y H Hx Hy) as E1.
  pose proof (keeps_order_Qle_bool f l y x H Hy Hx) as E2.
  destruct (Qeq_bool x y) eqn:E.
  - apply Qeq_bool_true in E. apply Qeq_eq_bool.
    apply (monotone_Qeq f x y (proj1 H) E).
  - apply Qeq_bool_false in E.
    destruct (Qeq_bool (f x) (f y)) eqn:E'; [|reflexivity].
    apply Qeq_bool_true in E'. exfalso. apply E.
    assert (L1 : Qle_bool (f x) (f y) = true) by (apply Qle_bool_iff; lra).
    assert (L2 : Qle_bool (f y) (f x) = true) by (apply Qle_bool_iff; lra).
    rewrite E1 in L1. rewrite E2 in L2.
    apply Qle_bool_true in L1. apply Qle_bool_true in L2. lra.
Qed.

(** The least (greatest) of the shifted values is the shifted least
    (greatest) value. *)
Lemma Qextreme_keeps_order (op : cmpop) (f : Q -> Q) (l qs : list Q) (m : Q) :
  keeps_order_on f l -> incl (m :: qs) l ->
  Qextreme op (f m) (map f qs) = f (Qextreme op m qs).
Proof.
  intro H. revert m. induction qs as [|q qs IH]; intros m Hincl; [reflexivity|].
  change (Qextreme op (f m) (map f (q :: qs)))
    with (Qextreme op (if Qcmp op (f q) (f m) then f q else f m) (map f qs)).
  change (Qextreme op m (q :: qs))
    with (Qextreme op (if Qcmp op q m then q else m) qs).
  rewrite (keeps_order_Qcmp f l op q m H)
    by (apply Hincl; simpl; auto).
  destruct (Qcmp op q m); apply IH; intros x [<-|Hx]; apply Hincl; simpl; auto.
Qed.

Lemma Qextreme_In (op : cmpop) (qs : list Q) (m : Q) : In (Qextreme op m qs) (m :: qs).
Proof.
  revert m. induction qs as [|q qs IH]; intro m; [now left|].
  change (Qextreme op m (q :: qs))
    with (Qextreme op (if Qcmp op q m then q else m) qs).
  destruct (IH (if Qcmp op q m then q else m)) as [H|H].
  - rewrite <- H. destruct (Qcmp op q m); [right; now left|now left].
  - right; now right.
Qed.

Lemma add_each_numbers (ar : arithmetic) (qs : list Q) (k : Q) :
  add_each ar (map SNum qs) (SNum k)
  = Ok (map SNum (map (fun q => np_add ar q k) qs)).
Proof.
  induction qs as [|q qs IH]; simpl; [reflexivity|]. now rewrite IH.
Qed.

Lemma scalar_numbers_map (qs : list Q) : scalar_numbers (map SNum qs) = qs.
Proof.
  unfold scalar_numbers. induction qs as [|q qs IH]; simpl; [reflexivity|].
  now rewrite IH.
Qed.

(** Adding a number [k] to a cell of numbers gives the cell of the sums of
    the point and of each bound value with [k]. *)
Lemma cell_add_number (ar : arithmetic) (c : Cell.t) (k : Q) :
  Cell.numeric c = true ->
  exists (p : Q) (qs : option (list Q)),
    c = Cell.mk (SNum p) (option_map (map SNum) qs) /\
    cell_values c = p :: match qs with Some l => l | None => [] end /\
    Cell.__add__ ar c (SNum k)
    = Ok (Cell.mk (SNum (np_add ar p k))
                  (option_map (fun l => map SNum (map (fun q => np_add ar q k) l)) qs)).
Proof.
  destruct c as [[p| |] [b|]]; unfold Cell.numeric; simpl; try discriminate.
  - intro H. apply andb_prop in H as [Hb _].
    destruct (numbers_are_map b Hb) as [qs ->].
    exists p, (Some qs). split; [reflexivity|]. split.
    + unfold cell_values. simpl.
      change (p :: scalar_numbers (map SNum qs) = p :: qs).
      now rewrite scalar_numbers_map.
    + unfold Cell.__add__; simpl. now rewrite add_each_numbers.
  - intros _. exists p, None. split; [reflexivity|]. split; reflexivity.
Qed.

(** Adding a number to a cell of numbers and to a number [v] does not
    change whether [v] is equal to (lies within) the cell, nor any of the
    four ordering comparisons between them, as long as the addition keeps
    the values involved in their order and apart: rounding may not merge
    two of them. *)
Theorem cell_add_keeps_number_comparisons
        (ar : arithmetic) (c : Cell.t) (k v : Q) (op : cmpop) :
  Cell.numeric c = true ->
  keeps_order_on (fun x => np_add ar x k) (v :: cell_values c) ->
  exists c' : Cell.t,
    Cell.__add__ ar c (SNum k) = Ok c' /\
    Cell.numeric c' = true /\
    Cell.__eq__ c' (Cell.OScalar (SNum (np_add ar v k)))
    = Cell.__eq__ c (Cell.OScalar (SNum v)) /\
    Cell.__common_cmp__ c' (Cell.OScalar (SNum (np_add ar v k))) op
    = Cell.__common_cmp__ c (Cell.OScalar (SNum v)) op.
Proof.
  intros Hc Hf.
  destruct (cell_add_number ar c k Hc) as (p & qs & -> & Hvals & Hadd).
  rewrite Hvals in Hf. clear Hvals.
  set (f := fun x : Q => np_add ar x k) in *.
  eexists. split; [exact Hadd|].
  destruct qs as [[|q qs]|]; simpl in *.
  - discriminate Hc.
  - assert (Hnum : forall l, forallb is_number (map SNum l) = true).
    { induction l; simpl; auto. }
    assert (Hd : forall l, existsb has_timetuple (map SNum l) = false).
    { intro l. apply no_dates_among_numbers, Hnum. }
    split; [unfold Cell.numeric; simpl; now rewrite Hnum|].
    assert (Hincl : incl (q :: qs) (v :: p :: q :: qs)).
    { intros x Hx. right. right. exact Hx. }
    assert (Hv : In v (v :: p :: q :: qs)) by now left.
    assert (Hext : forall o, In (Qextreme o q qs) (v :: p :: q :: qs)).
    { intro o. apply Hincl, Qextreme_In. }
    unfold Cell.__eq__, Cell.__common_cmp__, Cell.contains_point, np_min, np_max,
      np_extreme; simpl.
    rewrite !Hd, !as_numbers_map. simpl.
    rewrite !py_extreme_from_numbers.
    fold (f q) (f v).
    rewrite !(Qextreme_keeps_order _ f _ qs q Hf Hincl).
    split.
    + rewrite (keeps_order_Qle_bool f _ _ v Hf (Hext OpLt) Hv).
      rewrite (keeps_order_Qle_bool f _ v _ Hf Hv (Hext OpGt)).
      reflexivity.
    + destruct op; simpl; unfold Qltb;
        rewrite ?(keeps_order_Qle_bool f _ _ v Hf (Hext _) Hv),
                ?(keeps_order_Qle_bool f _ v _ Hf Hv (Hext _));
        reflexivity.
  - split; [reflexivity|].
    unfold Cell.__eq__, Cell.__common_cmp__; simpl.
    fold (f p) (f v).
    rewrite (keeps_order_Qeq_bool f _ p v Hf) by (simpl; auto).
    rewrite (keeps_order_Qcmp f _ op p v Hf) by (simpl; auto).
    split; reflexivity.
Qed.

Lemma exact_add_keeps_order (k : Q) (l : list Q) :
  keeps_order_on (fun x => np_add exact x k) l.
Proof.
  split; [intros x y H|intros x y _ _ H]; simpl; lra.
Qed.

(** In float64: the cell of the floats nearest to 0.1, 0.3 and 0.7, the
    number 0.5, and the float nearest to 0.2 added to them. *)
Lemma cell_add_keeps_number_comparisons_witness :
  exists c' : Cell.t,
    Cell.__add__ binary64
      (Cell.mk (SNum (float64 (3 # 10)))
               (Some [SNum (float64 (1 # 10)); SNum (float64 (7 # 10))]))
      (SNum (float64 (2 # 10))) = Ok c' /\
    Cell.__eq__ c' (Cell.OScalar (SNum (np_add binary64 (1 # 2) (float64 (2 # 10)))))
    = Ok (PyBool true).
Proof.
  destruct (cell_add_keeps_number_comparisons
              binary64
              (Cell.mk (SNum (float64 (3 # 10)))
                       (Some [SNum (float64 (1 # 10)); SNum (float64 (7 # 10))]))
              (float64 (2 # 10)) (1 # 2) OpLt eq_refl)
    as (c' & Hadd & _ & Heq & _).
  - split; [apply binary64_add_monotone|].
    apply keeps_apart_spec. vm_compute. reflexivity.
  - exists c'. split; [exact Hadd|]. rewrite Heq. vm_compute. reflexivity.
Defined.

(** Adding a number to two cells of numbers does not change their equality
    nor any of the four ordering comparisons between them, as long as the
    addition keeps the values of the two cells in their order and apart. *)
Theorem cell_add_keeps_cell_comparisons
        (ar : arithmetic) (a b : Cell.t) (k : Q) (op : cmpop) :
  Cell.numeric a = true -> Cell.numeric b = true ->
  keeps_order_on (fun x => np_add ar x k) (cell_values a ++ cell_values b) ->
  exists a' b' : Cell.t,
    Cell.__add__ ar a (SNum k) = Ok a' /\
    Cell.__add__ ar b (SNum k) = Ok b' /\
    Cell.__eq__ a' (Cell.OCell b') = Cell.__eq__ a (Cell.OCell b) /\
    Cell.__common_cmp__ a' (Cell.OCell b') op = Cell.__common_cmp__ a (Cell.OCell b) op.
Proof.
  intros Ha Hb Hf.
  destruct (cell_add_number ar a k Ha) as (p & ps & -> & Hva & Hadda).
  destruct (cell_add_number ar b k Hb) as (q & qs & -> & Hvb & Haddb).
  rewrite Hva, Hvb in Hf. clear Hva Hvb.
  set (f := fun x : Q => np_add ar x k) in *.
  set (vals := (p :: match ps with Some l => l | None => [] end)
              ++ q :: match qs with Some l => l | None => [] end) in *.
  do 2 eexists. split; [exact Hadda|]. split; [exact Haddb|].
  assert (Hp : In p vals) by now left.
  assert (Hq : In q vals) by (apply in_or_app; right; now left).
  assert (Hps : forall l x, ps = Some l -> In x l -> In x vals).
  { intros l x -> Hx. right. apply in_or_app. now left. }
  assert (Hqs : forall l x, qs = Some l -> In x l -> In x vals).
  { intros l x -> Hx. apply in_or_app. right. now right. }
  assert (Heqb : forall x y, In x vals -> In y vals -> Qeq_bool (f x) (f y) = Qeq_bool x y).
  { intros x y. apply (keeps_order_Qeq_bool f vals x y Hf). }
  assert (Hcmp : forall x y, In x vals -> In y vals -> Qcmp op (f x) (f y) = Qcmp op x y).
  { intros x y. apply (keeps_order_Qcmp f vals op x y Hf). }
  assert (Htuple : forall l l',
             (forall x, In x l -> In x vals) -> (forall x, In x l' -> In x vals) ->
             Cell.tuple_eq (map SNum (map f l)) (map SNum (map f l'))
             = Cell.tuple_eq (map SNum l) (map SNum l')).
  { induction l as [|x l IH]; intros [|y l'] Hl Hl'; simpl; try reflexivity.
    rewrite Heqb by solve [apply Hl; now left | apply Hl'; now left].
    rewrite IH; [reflexivity| |]; intros z Hz; [apply Hl|apply Hl']; now right. }
  split.
  - unfold Cell.__eq__; simpl. fold (f p) (f q). rewrite (Heqb p q Hp Hq).
    destruct ps as [ps|], qs as [qs|]; simpl; try reflexivity.
    rewrite Htuple; [reflexivity| |].
    + intros x Hx. now apply (Hps ps).
    + intros x Hx. now apply (Hqs qs).
  - unfold Cell.__common_cmp__; simpl. fold (f p) (f q).
    destruct ps as [[|s0 [|s1 ps]]|], qs as [[|o0 [|o1 qs]]|]; simpl;
      unfold Cell.item; simpl;
      repeat match goal with
        | |- context [np_add ar ?x k] => change (np_add ar x k) with (f x)
        end;
      rewrite ?(Heqb p q Hp Hq), ?(Hcmp p q Hp Hq);
      repeat match goal with
        | |- context [Qeq_bool (f ?x) (f ?y)] =>
            rewrite (Heqb x y)
              by solve [eapply Hps; [reflexivity|simpl; auto]
                       | eapply Hqs; [reflexivity|simpl; auto]]
        | |- context [Qcmp op (f ?x) (f ?y)] =>
            rewrite (Hcmp x y)
              by solve [eapply Hps; [reflexivity|simpl; auto]
                       | eapply Hqs; [reflexivity|simpl; auto]]
        end;
      reflexivity.
Qed.

(** In float64: the cell of point 3 and the cell of point 3 with the bound
    (2, 4), and the float nearest to 0.1 added to both. *)
Lemma cell_add_keeps_cell_comparisons_witness :
  exists a' b' : Cell.t,
    Cell.__add__ binary64 (Cell.mk (SNum 3) None) (SNum (float64 (1 # 10))) = Ok a' /\
    Cell.__add__ binary64 (Cell.mk (SNum 3) (Some [SNum 2; SNum 4]))
                 (SNum (float64 (1 # 10))) = Ok b' /\
    Cell.__common_cmp__ a' (Cell.OCell b') OpLt = Ok true.
Proof.
  destruct (cell_add_keeps_cell_comparisons
              binary64
              (Cell.mk (SNum 3) None) (Cell.mk (SNum 3) (Some [SNum 2; SNum 4]))
              (float64 (1 # 10)) OpLt eq_refl eq_refl)
    as (a' & b' & Ha & Hb & _ & Hcmp).
  - split; [apply binary64_add_monotone|].
    apply keeps_apart_spec. vm_compute. reflexivity.
  - exists a', b'. split; [exact Ha|]. split; [exact Hb|].
    rewrite Hcmp. reflexivity.
Defined.

(** ** Two cells of numbers *)

Lemma numeric_pair_shape (c : Cell.t) :
  Cell.numeric_pair c = true ->
  exists p : Q,
    c = Cell.mk (SNum p) None \/
    exists lo hi : Q, c = Cell.mk (SNum p) (Some [SNum lo; SNum hi]).
Proof.
  destruct c as [[p| |] [b|]]; unfold Cell.numeric_pair; simpl; try discriminate.
  - intro H. apply andb_prop in H as [Hb Hlen].
    destruct b as [|[lo| |] [|[hi| |] [|x b]]]; try discriminate.
    exists p. right. now exists lo, hi.
  - intros _. exists p. now left.
Qed.

(** Two cells of numbers whose bounds, where present, are pairs have a
    consistent relative order: exactly one of [a < b], [a == b], [b < a]
    holds, [a <= b] holds exactly when [a < b] or [a == b] does, and [a > b]
    is [b < a]. *)
Theorem cell_cell_trichotomy (a b : Cell.t) :
  Cell.numeric_pair a = true -> Cell.numeric_pair b = true ->
  exists lt eq gt : bool,
    Cell.__lt__ a (Cell.OCell b) = Ok lt /\
    Cell.__eq__ a (Cell.OCell b) = Ok (PyBool eq) /\
    Cell.__lt__ b (Cell.OCell a) = Ok gt /\
    Cell.__gt__ a (Cell.OCell b) = Ok gt /\
    Cell.__le__ a (Cell.OCell b) = Ok (lt || eq) /\
    Cell.__ge__ a (Cell.OCell b) = Ok (gt || eq) /\
    exactly_one lt eq gt = true.
Proof.
  intros Ha Hb.
  destruct (numeric_pair_shape a Ha) as (p & [->|(s0 & s1 & ->)]);
    destruct (numeric_pair_shape b Hb) as (q & [->|(o0 & o1 & ->)]);
    unfold Cell.__lt__, Cell.__gt__, Cell.__le__, Cell.__ge__, Cell.__eq__,
      Cell.__common_cmp__, Cell.item, exactly_one; simpl;
    rewrite ?(Qeq_bool_comm q p), ?(Qeq_bool_comm o0 s0), ?(Qeq_bool_comm o1 s1).
  - do 3 eexists. repeat split. Qtests. Qtests. Qtests.
  - destruct (Qeq_bool p q) eqn:E; simpl.
    + exists true, false, false. repeat split.
    + apply Qeq_bool_false in E. do 3 eexists. repeat split. Qtests. Qtests. Qtests.
  - destruct (Qeq_bool p q) eqn:E; simpl.
    + exists false, false, true. repeat split.
    + apply Qeq_bool_false in E. do 3 eexists. repeat split. Qtests. Qtests. Qtests.
  - destruct (Qeq_bool s0 o0) eqn:E0; simpl.
    + destruct (Qeq_bool s1 o1) eqn:E1; simpl.
      * do 3 eexists. repeat split. Qtests. Qtests. Qtests.
      * apply Qeq_bool_false in E1. do 3 eexists. repeat split.
        Qtests. Qtests. Qtests.
    + apply Qeq_bool_false in E0. do 3 eexists. repeat split.
      Qtests. Qtests. Qtests.
Qed.

Lemma cell_cell_trichotomy_witness :
  Cell.__le__ (Cell.mk (SNum 3) None) (Cell.OCell (Cell.mk (SNum 3) (Some [SNum 2; SNum 4])))
  = Ok true.
Proof.
  destruct (cell_cell_trichotomy
              (Cell.mk (SNum 3) None) (Cell.mk (SNum 3) (Some [SNum 2; SNum 4]))
              eq_refl eq_refl)
    as (lt & eq & gt & Hlt & _ & _ & _ & Hle & _).
  rewrite Hle. injection Hlt as <-. reflexivity.
Defined.

(** ** Grouping equal neighbours *)

Lemma py_eq_refl (x : scalar) : py_eq x x = true.
Proof.
  destruct x as [q|s|k z]; simpl.
  - apply Qeq_bool_refl.
  - apply String.eqb_refl.
  - apply Z.eqb_refl.
Qed.

Lemma advance_spec (m : scalar) (rest : list scalar) (stop : nat) :
  exists k : nat,
    GroupIterator.advance m rest stop = (stop + k)%nat /\
    (k <= List.length rest)%nat /\
    Forall (fun x => py_eq x m = true) (firstn k rest) /\
    (forall x, nth_error rest k = Some x -> py_eq x m = false).
Proof.
  revert stop. induction rest as [|x rest IH]; intro stop; simpl.
  - exists 0%nat. repeat split; try lia; [constructor|discriminate].
  - destruct (py_eq x m) eqn:E.
    + destruct (IH (S stop)) as (k & Hk & Hlen & Hall & Hnext).
      exists (S k). rewrite Hk. repeat split; try lia.
      * simpl. constructor; assumption.
      * exact Hnext.
    + exists 0%nat. repeat split; try lia; [constructor|].
      simpl. intros y Hy. injection Hy as <-. exact E.
Qed.

Lemma skipn_at {A : Type} (l : list A) (i : nat) (x : A) :
  nth_error l i = Some x -> skipn i l = x :: skipn (S i) l.
Proof.
  revert i. induction l as [|y l IH]; intros [|i] H; simpl in *; try discriminate.
  - now injection H as ->.
  - now apply IH.
Qed.

Lemma take_from (fuel : nat) (points : list scalar) (start : nat) :
  (start <= List.length points)%nat ->
  (List.length points - start <= fuel)%nat ->
  let gs := GroupIterator.take fuel (GroupIterator.mk points start) in
  List.concat (map (fun g => GroupIterator.slice_of points (GroupIterator.groupby_slice g)) gs)
  = skipn start points /\
  Forall (is_run points) gs /\
  chained start gs (List.length points).
Proof.
  revert start. induction fuel as [|fuel IH]; intros start Hle Hfuel.
  - assert (start = List.length points) by lia. subst start. simpl.
    rewrite skipn_all. repeat split. constructor.
  - simpl. unfold GroupIterator.__next__. simpl.
    destruct (List.length points <=? start)%nat eqn:Hend.
    + apply Nat.leb_le in Hend.
      assert (start = List.length points) by lia. subst start. simpl.
      rewrite skipn_all. repeat split. constructor.
    + apply Nat.leb_gt in Hend.
      destruct (nth_error points start) as [m|] eqn:Hm.
      2: { apply nth_error_None in Hm. lia. }
      destruct (advance_spec m (skipn (start + 1) points) (start + 1))
        as (k & Hk & Hlen & Hall & Hnext).
      rewrite Hk. rewrite length_skipn in Hlen.
      destruct (IH (start + 1 + k)%nat) as (Hcat & Hruns & Hchain); try lia.
      simpl. rewrite Hcat.
      assert (Hslice : GroupIterator.slice_of points (start, (start + 1 + k)%nat)
                       = m :: firstn k (skipn (start + 1) points)).
      { unfold GroupIterator.slice_of. simpl.
        replace (start + 1 + k - start)%nat with (S k) by lia.
        rewrite (skipn_at points start m Hm). simpl.
        now replace (start + 1)%nat with (S start) by lia. }
      split; [|split].
      * rewrite Hslice. simpl.
        rewrite (skipn_at points start m Hm). f_equal.
        replace (start + 1 + k)%nat with (k + (start + 1))%nat by lia.
        rewrite <- (skipn_skipn k (start + 1)%nat points).
        replace (start + 1)%nat with (S start) by lia.
        apply firstn_skipn.
      * constructor; [|exact Hruns].
        unfold is_run. simpl. repeat split.
        -- lia.
        -- exact Hm.
        -- rewrite Hslice. constructor; [apply py_eq_refl|exact Hall].
        -- intros x Hx. apply Hnext.
           rewrite nth_error_skipn.
           now replace (start + 1 + k)%nat with (start + 1 + k)%nat by lia.
      * simpl. split; [reflexivity|exact Hchain].
Qed.

Lemma take_length (fuel : nat) (it : GroupIterator.t) :
  (List.length (GroupIterator.take fuel it) <= fuel)%nat.
Proof.
  revert it. induction fuel as [|n IH]; intro it; simpl; [lia|].
  destruct (GroupIterator.__next__ it) as [[g it']|]; simpl; [|lia].
  specialize (IH it'). lia.
Qed.

(** The groups of [_GroupIterator] are the runs of equal neighbours: their
    slices, in order, follow one another from 0 to the number of points and
    put together give the points back; each slice is not empty and holds only
    values equal to the value of the group; the point after a slice, if
    there is one, differs from it.  The iterator stops after at most as many
    groups as there are points. *)
Theorem groups_are_the_runs (points : list scalar) :
  List.concat (map (fun g => GroupIterator.slice_of points (GroupIterator.groupby_slice g))
                   (GroupIterator.groups points)) = points /\
  Forall (is_run points) (GroupIterator.groups points) /\
  chained 0 (GroupIterator.groups points) (List.length points) /\
  (List.length (GroupIterator.groups points) <= List.length points)%nat.
Proof.
  unfold GroupIterator.groups, GroupIterator.__init__.
  destruct (take_from (List.length points) points 0) as (Hcat & Hruns & Hchain);
    try lia.
  repeat split; try assumption.
  apply take_length.
Qed.

(** The points [1, 1, 2, 3, 3, 3]. *)
Example groups_of_six_points :
  GroupIterator.groups [SNum 1; SNum 1; SNum 2; SNum 3; SNum 3; SNum 3]
  = [GroupIterator.mk_item (SNum 1) (0, 2)%nat;
     GroupIterator.mk_item (SNum 2) (2, 3)%nat;
     GroupIterator.mk_item (SNum 3) (3, 6)%nat].
Proof. reflexivity. Qed.

(** ** Equality of coordinates *)

Lemma array_equal_sym (a b : array1) : array_equal a b = array_equal b a.
Proof.
  revert b. induction a as [|x a IH]; intros [|y b]; simpl; try reflexivity.
  now rewrite Qeq_bool_comm, IH.
Qed.

Lemma array2_equal_sym (a b : array2) : array2_equal a b = array2_equal b a.
Proof.
  revert b. induction a as [|x a IH]; intros [|y b]; simpl; try reflexivity.
  now rewrite array_equal_sym, IH.
Qed.

Lemma option_eqb_sym {A : Type} (eqb : A -> A -> bool) (x y : option A) :
  (forall a b, eqb a b = eqb b a) ->
  CoordDefn.option_eqb eqb x y = CoordDefn.option_eqb eqb y x.
Proof. intro H. destruct x, y; simpl; auto. Qed.

Lemma Unit_eqb_sym (u v : DimCoord.Unit) : DimCoord.Unit_eqb u v = DimCoord.Unit_eqb v u.
Proof.
  unfold DimCoord.Unit_eqb. rewrite String.eqb_sym. f_equal.
  destruct (DimCoord.modulus u), (DimCoord.modulus v); simpl; try reflexivity.
  apply Qeq_bool_comm.
Qed.

Lemma attributes_eqb_sym (a b : list (string * string)) :
  DimCoord.attributes_eqb a b = DimCoord.attributes_eqb b a.
Proof.
  revert b. induction a as [|[k v] a IH]; intros [|[k' v'] b]; simpl; try reflexivity.
  now rewrite (String.eqb_sym k), (String.eqb_sym v), IH.
Qed.

Lemma defn_eqb_sym (d1 d2 : CoordDefn.t DimCoord.Unit DimCoord.CoordSystem) :
  DimCoord.defn_eqb d1 d2 = DimCoord.defn_eqb d2 d1.
Proof.
  unfold DimCoord.defn_eqb.
  rewrite (option_eqb_sym String.eqb (CoordDefn.standard_name d1)) by apply String.eqb_sym.
  rewrite (option_eqb_sym String.eqb (CoordDefn.long_name d1)) by apply String.eqb_sym.
  rewrite (option_eqb_sym String.eqb (CoordDefn.var_name d1)) by apply String.eqb_sym.
  rewrite (option_eqb_sym String.eqb (CoordDefn.coord_system d1)) by apply String.eqb_sym.
  rewrite (option_eqb_sym DimCoord.Unit_eqb (CoordDefn.units d1)) by apply Unit_eqb_sym.
  now rewrite (attributes_eqb_sym (CoordDefn.attributes d1)).
Qed.

(** Equality of coordinates is reflexive and symmetric, [!=] is its
    negation, and [copy()] without arguments returns a coordinate equal to
    the one copied. *)
Theorem coord_equality (a b : DimCoord.t) :
  DimCoord.__eq__ a a = true /\
  DimCoord.__eq__ a b = DimCoord.__eq__ b a /\
  DimCoord.__ne__ a b = negb (DimCoord.__eq__ b a) /\
  exists a', DimCoord.copy a None None = Ok a' /\ DimCoord.__eq__ a' a = true.
Proof.
  assert (Hrefl : forall c, DimCoord.__eq__ c c = true).
  { intro c. unfold DimCoord.__eq__, DimCoord.Coord___eq__, DimCoord._as_defn.
    rewrite defn_eqb_refl, array_equal_refl, Bool.eqb_reflx. simpl.
    destruct (DimCoord.bounds c); [now rewrite array2_equal_refl|reflexivity]. }
  assert (Hsym : DimCoord.__eq__ a b = DimCoord.__eq__ b a).
  { unfold DimCoord.__eq__, DimCoord.Coord___eq__, DimCoord._as_defn.
    rewrite (defn_eqb_sym (DimCoord.defn a)), (array_equal_sym (DimCoord.points a)).
    replace (Bool.eqb (DimCoord.circular a) (DimCoord.circular b))
      with (Bool.eqb (DimCoord.circular b) (DimCoord.circular a))
      by (destruct (DimCoord.circular a), (DimCoord.circular b); reflexivity).
    destruct (DimCoord.bounds a), (DimCoord.bounds b); try reflexivity.
    now rewrite array2_equal_sym. }
  split; [apply Hrefl|]. split; [exact Hsym|]. split.
  - unfold DimCoord.__ne__. now rewrite Hsym.
  - exists a. split; [reflexivity|apply Hrefl].
Qed.

(** ** Arithmetic on coordinates *)

Lemma Qltb_Qeq (a a' b b' : Q) : a == a' -> b == b' -> Qltb a b = Qltb a' b'.
Proof. intros Ea Eb. unfold Qltb. now rewrite (Qleb_comp b b' Eb a a' Ea). Qed.

Lemma forallb_diff_keeps_order (f : Q -> Q) (l l' : array1) (P : Q -> bool) :
  keeps_order_on f l -> incl l' l ->
  (forall x y, In x l -> In y l -> P (f y - f x) = P (y - x)) ->
  forallb P (diff (map f l')) = forallb P (diff l').
Proof.
  intros Hf Hincl HP. induction l' as [|x l' IH]; [reflexivity|].
  destruct l' as [|y l']; [reflexivity|].
  change (forallb P (diff (map f (x :: y :: l'))))
    with (P (f y - f x) && forallb P (diff (map f (y :: l')))).
  change (forallb P (diff (x :: y :: l')))
    with (P (y - x) && forallb P (diff (y :: l'))).
  rewrite IH by (intros z Hz; apply Hincl; now right).
  rewrite HP; [reflexivity| |]; apply Hincl; simpl; auto.
Qed.

Lemma Qltb_0_minus (x y : Q) : Qltb 0 (y - x) = Qltb x y.
Proof.
  unfold Qltb. f_equal.
  destruct (Qle_bool (y - x) 0) eqn:A; destruct (Qle_bool y x) eqn:B; try reflexivity;
    [apply Qle_bool_true in A; apply Qle_bool_false in B
    |apply Qle_bool_false in A; apply Qle_bool_true in B]; exfalso; lra.
Qed.

Lemma Qltb_minus_0 (x y : Q) : Qltb (y - x) 0 = Qltb y x.
Proof.
  unfold Qltb. f_equal.
  destruct (Qle_bool 0 (y - x)) eqn:A; destruct (Qle_bool x y) eqn:B; try reflexivity;
    [apply Qle_bool_true in A; apply Qle_bool_false in B
    |apply Qle_bool_false in A; apply Qle_bool_true in B]; exfalso; lra.
Qed.

(** Values kept in their order and apart are strictly monotonic in the
    same direction as before. *)
Lemma monotonic_keeps_order (f : Q -> Q) (l l' : array1) :
  keeps_order_on f l -> incl l' l -> monotonic (map f l') = monotonic l'.
Proof.
  intros Hf Hincl. unfold monotonic.
  rewrite (forallb_diff_keeps_order f l l' (fun x => Qltb 0 x) Hf Hincl).
  - rewrite (forallb_diff_keeps_order f l l' (fun x => Qltb x 0) Hf Hincl).
    + reflexivity.
    + intros x y Hx Hy. rewrite !Qltb_minus_0.
      apply (keeps_order_Qcmp f l OpLt y x Hf Hy Hx).
  - intros x y Hx Hy. rewrite !Qltb_0_minus.
    apply (keeps_order_Qcmp f l OpLt x y Hf Hx Hy).
Qed.

Lemma column_map (f : Q -> Q) (b : array2) (j : nat) :
  Forall (fun row => (j < List.length row)%nat) b ->
  DimCoord.column (map (map f) b) j = map f (DimCoord.column b j).
Proof.
  unfold DimCoord.column. induction 1 as [|row b Hrow Hb IH]; simpl; [reflexivity|].
  rewrite IH. f_equal.
  rewrite (nth_indep (map f row) 0 (f 0)) by now rewrite length_map.
  apply map_nth.
Qed.

Lemma ncols_map (f : Q -> Q) (b : array2) :
  DimCoord.ncols (map (map f) b) = DimCoord.ncols b.
Proof. destruct b; simpl; [reflexivity|apply length_map]. Qed.

Lemma rectangular_rows (b : array2) (j : nat) :
  rectangular b = true -> (j < DimCoord.ncols b)%nat ->
  Forall (fun row => (j < List.length row)%nat) b.
Proof.
  intros Hrect Hj. unfold rectangular in Hrect. rewrite forallb_forall in Hrect.
  apply Forall_forall. intros row Hrow.
  specialize (Hrect row Hrow). apply Nat.eqb_eq in Hrect. lia.
Qed.

Lemma column_incl_concat (b : array2) (j : nat) :
  Forall (fun row => (j < List.length row)%nat) b ->
  incl (DimCoord.column b j) (List.concat b).
Proof.
  unfold DimCoord.column. induction 1 as [|row b Hrow Hb IH]; simpl.
  - intros x [].
  - intros x [<-|Hx]; apply in_or_app; [left; now apply nth_In|right; now apply IH].
Qed.

Lemma column_directions_keeps_order (f : Q -> Q) (b : array2) (js : list nat)
      (directions : list Z) :
  keeps_order_on f (List.concat b) ->
  rectangular b = true ->
  Forall (fun j => (j < DimCoord.ncols b)%nat) js ->
  DimCoord.column_directions (map (map f) b) js directions
  = DimCoord.column_directions b js directions.
Proof.
  intros Hf Hrect Hjs. revert directions.
  induction Hjs as [|j js Hj Hjs IH]; intro directions; simpl; [reflexivity|].
  pose proof (rectangular_rows b j Hrect Hj) as Hrows.
  rewrite column_map by exact Hrows.
  rewrite (monotonic_keeps_order f _ _ Hf (column_incl_concat b j Hrows)).
  destruct (monotonic (DimCoord.column b j)) as [mono direction].
  destruct (negb mono); [reflexivity|apply IH].
Qed.

Lemma bounds_requirements_keeps_order (f : Q -> Q) (c c' : DimCoord.t) (b : array2) :
  keeps_order_on f (List.concat b) ->
  rectangular b = true ->
  DimCoord.shape c' = DimCoord.shape c ->
  DimCoord._new_bounds_requirements c' (map (map f) b)
  = DimCoord._new_bounds_requirements c b.
Proof.
  intros Hf Hrect Hshape. unfold DimCoord._new_bounds_requirements.
  rewrite Hshape, length_map, ncols_map.
  rewrite (column_directions_keeps_order f b _ _ Hf Hrect); [reflexivity|].
  apply Forall_forall. intros j Hj. apply in_seq in Hj. lia.
Qed.

(** A valid coordinate can be rebuilt from its points and bounds passed
    through [f], when [f] keeps its values in their order and apart. *)
Lemma shift_valid (f : Q -> Q) (c : DimCoord.t) :
  keeps_order_on f (coord_values c) ->
  valid_DimCoord c ->
  exists c' : DimCoord.t,
    DimCoord.copy c (Some (map f (DimCoord.points c)))
                  (option_map (map (map f)) (DimCoord.bounds c)) = Ok c' /\
    DimCoord.defn c' = DimCoord.defn c /\
    DimCoord.points c' = map f (DimCoord.points c) /\
    DimCoord.bounds c' = option_map (map (map f)) (DimCoord.bounds c) /\
    DimCoord.circular c' = DimCoord.circular c.
Proof.
  intros Hf [Hpts Hbnds].
  assert (Hfp : keeps_order_on f (DimCoord.points c)).
  { apply (keeps_order_incl f _ _ Hf). unfold coord_values. apply incl_appl, incl_refl. }
  assert (Hreq : DimCoord._new_points_requirements (map f (DimCoord.points c)) = Ok tt).
  { unfold DimCoord._new_points_requirements in *.
    now rewrite length_map, (monotonic_keeps_order f _ _ Hfp (incl_refl _)). }
  unfold coord_values in Hf.
  unfold DimCoord.copy, DimCoord.Coord_copy, DimCoord.set_points,
    DimCoord.set_bounds, DimCoord.bounds in *.
  destruct (DimCoord._bounds_dm c) as [dm|] eqn:Hdm; simpl.
  - destruct Hbnds as [Hrect Hb].
    assert (Hfb : keeps_order_on f (List.concat (core_data dm))).
    { apply (keeps_order_incl f _ _ Hf). apply incl_appr, incl_refl. }
    rewrite Hreq. simpl.
    rewrite (bounds_requirements_keeps_order f c _ (core_data dm) Hfb Hrect).
    + rewrite Hb. simpl. rewrite Hdm. eexists. split; [reflexivity|].
      repeat split.
    + unfold DimCoord.shape, DimCoord.points. simpl. apply length_map.
  - rewrite Hreq. simpl. eexists. split; [reflexivity|]. repeat split.
Qed.

Lemma exact_subtract_keeps_order (k : Q) (l : list Q) :
  keeps_order_on (fun x => np_subtract exact x k) l.
Proof.
  split; [intros x y H|intros x y _ _ H]; simpl; lra.
Qed.

(** Adding a number to a valid coordinate, or subtracting one from it,
    succeeds and gives the coordinate of the sums (differences) of the
    points and of the bound values with that number, as long as the
    operation keeps the values of the coordinate in their order and apart:
    rounding may not merge two of them.  The definition (the units among
    it) and the circular flag are unchanged. *)
Theorem coord_add_sub_number (ar : arithmetic) (c : DimCoord.t) (k : Q) :
  valid_DimCoord c ->
  (keeps_order_on (fun x => np_add ar x k) (coord_values c) ->
   exists c' : DimCoord.t,
     DimCoord.__add__ ar c k = Ok c' /\
     DimCoord.defn c' = DimCoord.defn c /\
     DimCoord.points c' = map (fun p => np_add ar p k) (DimCoord.points c) /\
     DimCoord.bounds c'
     = option_map (map (map (fun p => np_add ar p k))) (DimCoord.bounds c) /\
     DimCoord.circular c' = DimCoord.circular c) /\
  (keeps_order_on (fun x => np_subtract ar x k) (coord_values c) ->
   exists c' : DimCoord.t,
     DimCoord.__sub__ ar c k = Ok c' /\
     DimCoord.defn c' = DimCoord.defn c /\
     DimCoord.points c' = map (fun p => np_subtract ar p k) (DimCoord.points c) /\
     DimCoord.bounds c'
     = option_map (map (map (fun p => np_subtract ar p k))) (DimCoord.bounds c) /\
     DimCoord.circular c' = DimCoord.circular c).
Proof.
  intro Hc. split; intro Hf.
  - destruct (shift_valid (fun p => np_add ar p k) c Hf Hc) as (c' & Hcopy & H).
    exists c'. split; [|exact H].
    unfold DimCoord.__add__, DimCoord.__binary_operator__.
    unfold DimCoord.bounds, DimCoord.points in Hcopy.
    destruct (DimCoord._bounds_dm c); exact Hcopy.
  - destruct (shift_valid (fun p => np_subtract ar p k) c Hf Hc) as (c' & Hcopy & H).
    exists c'. split; [|exact H].
    unfold DimCoord.__sub__, DimCoord.__binary_operator__.
    unfold DimCoord.bounds, DimCoord.points in Hcopy.
    destruct (DimCoord._bounds_dm c); exact Hcopy.
Qed.

(** In float64: the points 0, 0.1 and 0.5 with contiguous bounds, and 10
    added to them. *)
Lemma coord_add_sub_number_witness :
  exists c' : DimCoord.t,
    DimCoord.__add__ binary64
      (plain_coord [0; float64 (1 # 10); 1 # 2]
                   (Some [[- (1 # 4); 1 # 16]; [1 # 16; 1 # 4]; [1 # 4; 3 # 4]])
                   false None) 10
    = Ok c' /\
    DimCoord.points c'
    = map (fun p => np_add binary64 p 10) [0; float64 (1 # 10); 1 # 2].
Proof.
  destruct (coord_add_sub_number
              binary64
              (plain_coord [0; float64 (1 # 10); 1 # 2]
                           (Some [[- (1 # 4); 1 # 16]; [1 # 16; 1 # 4]; [1 # 4; 3 # 4]])
                           false None) 10)
    as [Hadd _].
  - split; [vm_compute; reflexivity|]. split; vm_compute; reflexivity.
  - destruct Hadd as (c' & H & _ & Hpts & _).
    + split; [apply binary64_add_monotone|].
      apply keeps_apart_spec. vm_compute. reflexivity.
    + exists c'. split; [exact H|exact Hpts].
Defined.

(** Multiplying a coordinate of two or more points by zero raises
    [ValueError], zero times a number being zero: the points would no
    longer be strictly monotonic. *)
Theorem coord_times_zero (ar : arithmetic) (c : DimCoord.t) :
  (forall x, np_multiply ar x 0 == 0) ->
  (2 <= DimCoord.shape c)%nat ->
  DimCoord.__mul__ ar c 0 = Raise ValueError.
Proof.
  unfold DimCoord.shape, DimCoord.points. intros Hzero Hlen.
  unfold DimCoord.__mul__, DimCoord.__binary_operator__, DimCoord.copy,
    DimCoord.Coord_copy, DimCoord.set_points.
  destruct (core_data (DimCoord._points_dm c)) as [|p0 [|p1 r]] eqn:Hp;
    simpl in Hlen; try lia.
  assert (Hreq : DimCoord._new_points_requirements
                   (map (fun p => DimCoord.apply_mode ar DimCoord._MODE_MUL p 0)
                        (p0 :: p1 :: r)) = Raise ValueError).
  { unfold DimCoord._new_points_requirements, monotonic. simpl.
    assert (E : np_multiply ar p1 0 - np_multiply ar p0 0 == 0).
    { rewrite (Hzero p1), (Hzero p0). ring. }
    rewrite (Qltb_Qeq 0 0 _ 0 (Qeq_refl 0) E).
    rewrite (Qltb_Qeq _ 0 0 0 E (Qeq_refl 0)).
    reflexivity. }
  destruct (DimCoord._bounds_dm c); cbn [bind core_data dm_copy]; rewrite Hreq;
    reflexivity.
Qed.

Lemma coord_times_zero_witness :
  DimCoord.__mul__ binary64 (plain_coord [1; 2; 3] None false None) 0
  = Raise ValueError.
Proof.
  apply coord_times_zero.
  - apply binary64_multiply_zero.
  - unfold DimCoord.shape, DimCoord.points, plain_coord. simpl. lia.
Defined.

(** ** Compatible coordinates *)

Lemma has_key_In (attributes : list (string * string)) (key : string) :
  DimCoord.has_key attributes key = true <-> In key (map fst attributes).
Proof.
  unfold DimCoord.has_key. induction attributes as [|[k v] r IH]; simpl.
  - split; [discriminate|contradiction].
  - destruct (String.eqb k key) eqn:E.
    + apply String.eqb_eq in E. split; auto.
    + apply String.eqb_neq in E. rewrite IH. split; [auto|].
      intros [H|H]; [contradiction|exact H].
Qed.

Lemma common_attributes_agree (A B : list (string * string)) (ignored : list string) :
  forallb (fun key => CoordDefn.option_eqb String.eqb (DimCoord.lookup key A)
                                           (DimCoord.lookup key B))
          (filter (fun key => negb (existsb (String.eqb key) ignored))
                  (filter (DimCoord.has_key B) (map fst A))) = true
  <-> (forall key, DimCoord.has_key A key = true -> DimCoord.has_key B key = true ->
                   existsb (String.eqb key) ignored = false ->
                   CoordDefn.option_eqb String.eqb (DimCoord.lookup key A)
                                        (DimCoord.lookup key B) = true).
Proof.
  rewrite forallb_forall. split.
  - intros H key HA HB Hi. apply H.
    apply filter_In. split; [|now rewrite Hi].
    apply filter_In. split; [now apply has_key_In|exact HB].
  - intros H key Hin.
    apply filter_In in Hin as [Hin Hi]. apply filter_In in Hin as [HA HB].
    apply H; [now apply has_key_In|exact HB|].
    now apply negb_true_iff in Hi.
Qed.

(** [is_compatible] is reflexive and symmetric, and it still holds when
    more attribute keys are ignored. *)
Theorem is_compatible_properties (a b : DimCoord.t) (ignore : DimCoord.ignore_arg) :
  DimCoord.is_compatible a a ignore = true /\
  DimCoord.is_compatible a b ignore = DimCoord.is_compatible b a ignore /\
  (DimCoord.is_compatible a b DimCoord.IgnoreNone = true ->
   DimCoord.is_compatible a b ignore = true).
Proof.
  assert (Ho : forall x : option string, CoordDefn.option_eqb String.eqb x x = true).
  { intros [x|]; simpl; [apply String.eqb_refl|reflexivity]. }
  split; [|split].
  - unfold DimCoord.is_compatible.
    rewrite String.eqb_refl, Ho. simpl.
    replace (CoordDefn.option_eqb DimCoord.Unit_eqb (CoordDefn.units (DimCoord.defn a))
                                  (CoordDefn.units (DimCoord.defn a))) with true.
    + apply common_attributes_agree. intros. apply Ho.
    + destruct (CoordDefn.units (DimCoord.defn a)) as [[sym [m|]]|]; simpl;
        unfold DimCoord.Unit_eqb; simpl;
        rewrite ?String.eqb_refl, ?Qeq_bool_refl; reflexivity.
  - unfold DimCoord.is_compatible.
    rewrite (String.eqb_sym (DimCoord.name a)).
    rewrite (option_eqb_sym DimCoord.Unit_eqb (CoordDefn.units (DimCoord.defn a)))
      by apply Unit_eqb_sym.
    rewrite (option_eqb_sym String.eqb (CoordDefn.coord_system (DimCoord.defn a)))
      by apply String.eqb_sym.
    match goal with |- (if ?cond then _ else _) = _ => destruct cond end;
      [|reflexivity].
    apply eq_true_iff_eq. rewrite !common_attributes_agree.
    split; intros H key H1 H2 Hi;
      rewrite option_eqb_sym by apply String.eqb_sym; now apply H.
  - unfold DimCoord.is_compatible.
    match goal with |- (if ?cond then _ else _) = _ -> _ => destruct cond end;
      [|discriminate].
    rewrite !common_attributes_agree. intros H key H1 H2 _.
    now apply H.
Qed.

(** ** Intersection *)

Lemma index_from_spec (self_cells : list Cell.t) (c : Cell.t) (i0 : nat) :
  match DimCoord.index_from self_cells c i0 with
  | Some i => exists j, i = (i0 + j)%nat /\ first_match self_cells c j
  | None => Forall (fun sc => ~ cells_match sc c) self_cells
  end.
Proof.
  revert i0. induction self_cells as [|x r IH]; intro i0;
    cbn [DimCoord.index_from]; [constructor|].
  destruct (Cell.__eq__ x (Cell.OCell c)) as [[[|]|]|e] eqn:E.
  - exists 0%nat. split; [lia|]. split.
    + exists x. split; [reflexivity|exact E].
    + intros j sc Hj. lia.
  - specialize (IH (S i0)).
    assert (Hx : ~ cells_match x c) by (unfold cells_match; congruence).
    destruct (DimCoord.index_from r c (S i0)) as [i|].
    + destruct IH as (j & -> & (sc & Hsc & Hm) & Hfirst).
      exists (S j). split; [lia|]. split.
      * exists sc. split; assumption.
      * intros [|j'] sc' Hj Hn; simpl in Hn.
        -- injection Hn as <-. exact Hx.
        -- apply (Hfirst j' sc'); [lia|exact Hn].
    + constructor; assumption.
  - specialize (IH (S i0)).
    assert (Hx : ~ cells_match x c) by (unfold cells_match; congruence).
    destruct (DimCoord.index_from r c (S i0)) as [i|].
    + destruct IH as (j & -> & (sc & Hsc & Hm) & Hfirst).
      exists (S j). split; [lia|]. split.
      * exists sc. split; assumption.
      * intros [|j'] sc' Hj Hn; simpl in Hn.
        -- injection Hn as <-. exact Hx.
        -- apply (Hfirst j' sc'); [lia|exact Hn].
    + constructor; assumption.
  - specialize (IH (S i0)).
    assert (Hx : ~ cells_match x c) by (unfold cells_match; congruence).
    destruct (DimCoord.index_from r c (S i0)) as [i|].
    + destruct IH as (j & -> & (sc & Hsc & Hm) & Hfirst).
      exists (S j). split; [lia|]. split.
      * exists sc. split; assumption.
      * intros [|j'] sc' Hj Hn; simpl in Hn.
        -- injection Hn as <-. exact Hx.
        -- apply (Hfirst j' sc'); [lia|exact Hn].
    + constructor; assumption.
Qed.

Lemma intersect_indices_spec (self_cells other_cells : list Cell.t) :
  Forall (fun i => exists c, In c other_cells /\ first_match self_cells c i)
         (DimCoord.intersect_indices self_cells other_cells) /\
  (forall c sc, In c other_cells -> In sc self_cells -> cells_match sc c ->
                exists i, In i (DimCoord.intersect_indices self_cells other_cells) /\
                          first_match self_cells c i) /\
  (List.length (DimCoord.intersect_indices self_cells other_cells)
   <= List.length other_cells)%nat.
Proof.
  induction other_cells as [|c r (IH1 & IH2 & IH3)]; simpl.
  - repeat split; [constructor|contradiction|lia].
  - pose proof (index_from_spec self_cells c 0) as Hspec.
    destruct (DimCoord.index_from self_cells c 0) as [i|].
    + destruct Hspec as (j & -> & Hfirst). simpl. repeat split.
      * constructor; [exists c; auto|].
        eapply Forall_impl; [|exact IH1]. simpl.
        intros i (c' & Hin & H). exists c'. auto.
      * intros c' sc [<-|Hin] Hsc Hm.
        -- exists j. split; [now left|exact Hfirst].
        -- destruct (IH2 c' sc Hin Hsc Hm) as (i & Hi & H).
           exists i. split; [now right|exact H].
      * simpl. lia.
    + repeat split.
      * eapply Forall_impl; [|exact IH1]. simpl.
        intros i (c' & Hin & H). exists c'. auto.
      * intros c' sc [<-|Hin] Hsc Hm.
        -- rewrite Forall_forall in Hspec. elim (Hspec sc Hsc Hm).
        -- exact (IH2 c' sc Hin Hsc Hm).
      * lia.
Qed.

Lemma cells_at_length cdo itr n2d (c : DimCoord.t) (indices : list nat) (l : list Cell.t) :
  DimCoord.cells_at cdo itr n2d c indices = Ok l -> List.length l = List.length indices.
Proof.
  revert l. induction indices as [|i r IH]; intros l; simpl.
  - intro H. now injection H as <-.
  - destruct (DimCoord.cell cdo itr n2d c i); simpl; [|discriminate].
    destruct (DimCoord.cells_at cdo itr n2d c r); simpl; [|discriminate].
    intro H. injection H as <-. simpl. f_equal. now apply IH.
Qed.

(** When [intersect] returns indices, each of them is the lowest index of
    a cell of the coordinate that equals some cell of the other coordinate,
    in the order of the cells of the other coordinate; every cell of the
    other coordinate that equals a cell of the coordinate is accounted for;
    all indices are within the coordinate. *)
Theorem intersect_returns_first_matches
        (cell_datetime_objects : bool)
        (is_time_reference : DimCoord.Unit -> bool)
        (num2date : DimCoord.Unit -> Q -> scalar)
        (self other : DimCoord.t) (indices : list nat) :
  DimCoord.intersect cell_datetime_objects is_time_reference num2date self other true
  = Ok (DimCoord.Indices indices) ->
  exists self_cells other_cells : list Cell.t,
    DimCoord.cells cell_datetime_objects is_time_reference num2date self = Ok self_cells /\
    DimCoord.cells cell_datetime_objects is_time_reference num2date other = Ok other_cells /\
    Forall (fun i => (i < DimCoord.shape self)%nat /\
                     exists c, In c other_cells /\ first_match self_cells c i) indices /\
    (forall c sc, In c other_cells -> In sc self_cells -> cells_match sc c ->
                  exists i, In i indices /\ first_match self_cells c i) /\
    (List.length indices <= DimCoord.shape other)%nat.
Proof.
  unfold DimCoord.intersect.
  destruct (negb (DimCoord.is_compatible self other DimCoord.IgnoreNone)); [discriminate|].
  destruct (DimCoord.cells _ _ _ self) as [self_cells|] eqn:Hs; simpl; [|discriminate].
  destruct (DimCoord.cells _ _ _ other) as [other_cells|] eqn:Ho; simpl; [|discriminate].
  intro H. injection H as <-.
  exists self_cells, other_cells. split; [reflexivity|]. split; [reflexivity|].
  destruct (intersect_indices_spec self_cells other_cells) as (H1 & H2 & H3).
  unfold DimCoord.cells in Hs, Ho.
  apply cells_at_length in Hs, Ho. rewrite length_seq in Hs, Ho.
  split; [|split].
  - eapply Forall_impl; [|exact H1]. simpl.
    intros i (c & Hin & Hf). split; [|exists c; auto].
    destruct Hf as [(sc & Hn & _) _].
    rewrite <- Hs. apply nth_error_Some. congruence.
  - exact H2.
  - now rewrite <- Ho.
Qed.

(** Points [1, 2, 3, 4] intersected with points [2, 4]. *)
Example intersect_1234_24 :
  DimCoord.intersect false (fun _ => false) (fun _ q => SNum q)
                     (plain_coord [1; 2; 3; 4] None false None)
                     (plain_coord [2; 4] None false None) true
  = Ok (DimCoord.Indices [1%nat; 3%nat]).
Proof. reflexivity. Qed.

Lemma intersect_returns_first_matches_witness :
  exists self_cells other_cells : list Cell.t,
    DimCoord.cells false (fun _ => false) (fun _ q => SNum q)
                   (plain_coord [1; 2; 3; 4] None false None) = Ok self_cells /\
    Forall (fun i => exists c, In c other_cells /\ first_match self_cells c i)
           [1%nat; 3%nat].
Proof.
  destruct (intersect_returns_first_matches
              false (fun _ => false) (fun _ q => SNum q)
              (plain_coord [1; 2; 3; 4] None false None)
              (plain_coord [2; 4] None false None) [1%nat; 3%nat] eq_refl)
    as (self_cells & other_cells & Hs & _ & Hall & _).
  exists self_cells, other_cells. split; [exact Hs|].
  eapply Forall_impl; [|exact Hall]. simpl. intros i [_ H]. exact H.
Defined.

(** ** The shape of guessed bounds *)

Lemma guessed_rows_identity (ar : arithmetic) (position : Q) (pts : array1) (e0 en : Q) :
  guessed_rows ar (fun x => x) position pts e0 en
  = DimCoord.zip_with (fun lo hi => [lo; hi])
      (DimCoord.zip_with (min_bound ar position) pts (e0 :: np_diff ar pts))
      (DimCoord.zip_with (max_bound ar position) pts (np_diff ar pts ++ [en])).
Proof.
  unfold guessed_rows.
  rewrite (map_ext _ (fun row => row)) by (intro row; apply map_id).
  apply map_id.
Qed.

(** On a coordinate that is not circular [_guess_bounds] returns the rows
    built from the points and their differences, the first and the last
    difference taken twice; the rows are clipped to [-90, 90] only when all
    points lie in that range. *)
Lemma guess_bounds_rows (ar : arithmetic) (clip_latitudes : bool) (c : DimCoord.t)
      (position : Q) (b : array2) :
  DimCoord.circular c = false ->
  DimCoord._guess_bounds ar clip_latitudes c position = Ok b ->
  (2 <= DimCoord.shape c)%nat /\
  DimCoord.bounds c = None /\
  exists F : Q -> Q,
    b = guessed_rows ar F position (DimCoord.points c)
                     (hd 0 (np_diff ar (DimCoord.points c)))
                     (last (np_diff ar (DimCoord.points c)) 0) /\
    (F = (fun x => x) \/
     (F = DimCoord.clip (- (90)) 90 /\ clip_latitudes = true /\
      forallb (fun p => Qle_bool (- (90)) p) (DimCoord.points c) = true /\
      forallb (fun p => Qle_bool p 90) (DimCoord.points c) = true)).
Proof.
  intros Hcirc G. unfold DimCoord._guess_bounds in G. rewrite Hcirc in G.
  destruct (negb (DimCoord.is_monotonic c)); [discriminate|].
  destruct (DimCoord.shape c <? 2)%nat eqn:Hlen; [discriminate|].
  apply Nat.ltb_ge in Hlen.
  destruct (DimCoord.bounds c); [discriminate|].
  split; [exact Hlen|]. split; [reflexivity|].
  cbn [bind] in G.
  set (pts := DimCoord.points c) in *.
  rewrite removelast_last in G. cbn [tl app] in G.
  match type of G with
  | (if ?cond then _ else _) = _ => destruct cond eqn:Hclip
  end; injection G as <-.
  - exists (DimCoord.clip (- (90)) 90). split; [reflexivity|]. right.
    apply andb_prop in Hclip as [Hclip H90].
    apply andb_prop in Hclip as [Hclip Hm90].
    apply andb_prop in Hclip as [Hclip _].
    apply andb_prop in Hclip as [Hclip _].
    repeat split; assumption.
  - exists (fun x => x). split; [|now left].
    symmetry. apply guessed_rows_identity.
Qed.

(** ** contiguous_bounds *)

Lemma column_removelast_last (b : array2) (j : nat) :
  b <> [] ->
  DimCoord.column b j = DimCoord.column (removelast b) j ++ [nth j (last b []) 0].
Proof.
  intro Hne. unfold DimCoord.column.
  rewrite (app_removelast_last [] Hne) at 1.
  rewrite map_app. reflexivity.
Qed.

(** On a coordinate with bounds of two values per cell, [contiguous_bounds]
    returns, without a warning, the lower bound of every cell followed by
    the upper bound of the last cell.  When the upper bound of each cell is
    the lower bound of the next, the values after the first are the upper
    bounds: the bounds can be read back from neighbouring values. *)
Theorem contiguous_bounds_of_bounds
        (ar : arithmetic) (clip_latitudes : bool) (c : DimCoord.t) (b : array2) :
  DimCoord.bounds c = Some b ->
  b <> [] ->
  Forall (fun row => List.length row = 2%nat) b ->
  exists e : array1,
    DimCoord.contiguous_bounds ar clip_latitudes c = Ok (false, e) /\
    removelast e = DimCoord.column b 0 /\
    (Forall2 Qeq (DimCoord.column (tl b) 0) (DimCoord.column (removelast b) 1) ->
     Forall2 Qeq (tl e) (DimCoord.column b 1)).
Proof.
  intros Hb Hne Hrows.
  assert (Hlast : exists lo hi, last b [] = [lo; hi]).
  { rewrite Forall_forall in Hrows.
    assert (Hin : In (last b []) b).
    { rewrite (app_removelast_last [] Hne) at 2. apply in_or_app. right. now left. }
    specialize (Hrows _ Hin).
    destruct (last b []) as [|lo [|hi [|x r]]]; try discriminate.
    now exists lo, hi. }
  destruct Hlast as (lo & hi & Hlast).
  exists (DimCoord.column b 0 ++ [hi]).
  split; [|split].
  - unfold DimCoord.contiguous_bounds, DimCoord._sanity_check_contiguous,
      DimCoord.nbounds.
    rewrite Hb. unfold DimCoord.bounds in Hb.
    destruct (DimCoord._bounds_dm c) as [dm|]; [|discriminate].
    injection Hb as Hb. rewrite Hb.
    destruct b as [|row rows]; [congruence|].
    inversion Hrows as [|x l Hrow Hrest]; subst. simpl DimCoord.ncols. rewrite Hrow.
    cbn [Nat.eqb negb bind]. rewrite Hlast. reflexivity.
  - apply removelast_last.
  - intro Hadj.
    rewrite (column_removelast_last b 1 Hne), Hlast. cbn [nth].
    destruct b as [|row rows]; [congruence|].
    unfold DimCoord.column at 1. cbn [map app tl].
    apply Forall2_app; [exact Hadj|].
    constructor; [reflexivity|constructor].
Qed.

Lemma contiguous_bounds_of_bounds_witness :
  exists e : array1,
    DimCoord.contiguous_bounds
      exact false (plain_coord [0; 10] (Some [[- (5); 5]; [5; 15]]) false None)
    = Ok (false, e) /\
    removelast e = [- (5); 5].
Proof.
  destruct (contiguous_bounds_of_bounds
              exact false (plain_coord [0; 10] (Some [[- (5); 5]; [5; 15]]) false None)
              [[- (5); 5]; [5; 15]] eq_refl) as (e & H & Hr & _).
  - discriminate.
  - repeat constructor.
  - exists e. split; [exact H|exact Hr].
Defined.

Lemma np_diff_length (ar : arithmetic) (l : array1) :
  List.length (np_diff ar l) = pred (List.length l).
Proof.
  induction l as [|x l IH]; [reflexivity|].
  destruct l as [|y l]; [reflexivity|].
  change (np_diff ar (x :: y :: l)) with (np_subtract ar y x :: np_diff ar (y :: l)).
  cbn [List.length] in *. now rewrite IH.
Qed.

Lemma zip_with_length {A B C : Type} (f : A -> B -> C) (a : list A) (b : list B) :
  List.length (DimCoord.zip_with f a b) = Nat.min (List.length a) (List.length b).
Proof.
  revert b. induction a as [|x a IH]; intros [|y b]; simpl; try reflexivity.
  now rewrite IH.
Qed.

Lemma guessed_rows_length (ar : arithmetic) (F : Q -> Q) (position : Q)
      (pts : array1) (e0 en : Q) :
  List.length (guessed_rows ar F position pts e0 en) = List.length pts.
Proof.
  unfold guessed_rows.
  rewrite length_map, !zip_with_length, length_app. cbn [List.length].
  rewrite np_diff_length. lia.
Qed.

Lemma guessed_rows_pairs (ar : arithmetic) (F : Q -> Q) (position : Q)
      (pts : array1) (e0 en : Q) :
  Forall (fun row => List.length row = 2%nat) (guessed_rows ar F position pts e0 en).
Proof.
  unfold guessed_rows. apply Forall_forall. intros row Hrow.
  apply in_map_iff in Hrow as (row' & <- & Hrow). rewrite length_map.
  revert Hrow.
  generalize (DimCoord.zip_with (min_bound ar position) pts (e0 :: np_diff ar pts)).
  generalize (DimCoord.zip_with (max_bound ar position) pts (np_diff ar pts ++ [en])).
  intros his los. revert his.
  induction los as [|lo los IH]; intros [|hi his]; simpl; try contradiction.
  intros [<-|H]; [reflexivity|]. now apply (IH his).
Qed.

(** On a coordinate without bounds that is not circular and has two or
    more points, [contiguous_bounds] warns and returns one value more than
    there are points: the lower bound that [_guess_bounds] gives to each
    cell, followed by the upper bound it gives to the last.  Unlike
    [guess_bounds] it does not assign the guessed bounds and returns. *)
Theorem contiguous_bounds_of_points
        (ar : arithmetic) (clip_latitudes : bool) (c : DimCoord.t) :
  DimCoord.circular c = false ->
  DimCoord.bounds c = None ->
  (2 <= DimCoord.shape c)%nat ->
  exists (b : array2) (e : array1),
    DimCoord._guess_bounds ar clip_latitudes c (1 # 2) = Ok b /\
    List.length b = DimCoord.shape c /\
    DimCoord.contiguous_bounds ar clip_latitudes c = Ok (true, e) /\
    e = DimCoord.column b 0 ++ [nth 1 (last b []) 0] /\
    List.length e = S (DimCoord.shape c).
Proof.
  intros Hcirc Hb Hlen.
  destruct (DimCoord._guess_bounds ar clip_latitudes c (1 # 2)) as [b|e] eqn:G.
  2: { exfalso. revert G. unfold DimCoord._guess_bounds.
       rewrite Hcirc, Hb. unfold DimCoord.is_monotonic. simpl negb. cbv iota.
       apply Nat.ltb_ge in Hlen. rewrite Hlen. cbn [bind].
       match goal with |- (if ?cond then _ else _) = _ -> _ => destruct cond end;
         discriminate. }
  destruct (guess_bounds_rows ar clip_latitudes c (1 # 2) b Hcirc G)
    as (_ & _ & F & Hrows & _).
  assert (Hblen : List.length b = DimCoord.shape c).
  { rewrite Hrows. apply guessed_rows_length. }
  assert (Hpairs : Forall (fun row => List.length row = 2%nat) b).
  { rewrite Hrows. apply guessed_rows_pairs. }
  clear Hrows.
  exists b, (DimCoord.column b 0 ++ [nth 1 (last b []) 0]).
  split; [reflexivity|]. split; [exact Hblen|].
  assert (Hne : b <> []) by (destruct b; [simpl in Hblen; lia|discriminate]).
  assert (Hlast : exists lo hi, last b [] = [lo; hi]).
  { rewrite Forall_forall in Hpairs.
    assert (Hin : In (last b []) b).
    { rewrite (app_removelast_last [] Hne) at 2. apply in_or_app. right. now left. }
    specialize (Hpairs _ Hin).
    destruct (last b []) as [|lo [|hi [|x r]]]; try discriminate.
    now exists lo, hi. }
  destruct Hlast as (lo & hi & Hlast).
  split; [|split; [reflexivity|]].
  - unfold DimCoord.contiguous_bounds. rewrite Hb, G. cbn [bind].
    destruct b as [|row rows]; [congruence|].
    rewrite Hlast. reflexivity.
  - rewrite length_app. unfold DimCoord.column. rewrite length_map, Hblen.
    simpl. lia.
Qed.

(** In float64: the points 0, 0.1 and 0.5. *)
Lemma contiguous_bounds_of_points_witness :
  exists e : array1,
    DimCoord.contiguous_bounds binary64 false
      (plain_coord [0; float64 (1 # 10); 1 # 2] None false None) = Ok (true, e) /\
    List.length e = 4%nat.
Proof.
  destruct (contiguous_bounds_of_points
              binary64 false (plain_coord [0; float64 (1 # 10); 1 # 2] None false None)
              eq_refl eq_refl) as (b & e & _ & _ & H & _ & Hl).
  - unfold DimCoord.shape, DimCoord.points, plain_coord. simpl. lia.
  - exists e. split; [exact H|exact Hl].
Defined.

(** ** Guessed bounds and their points *)

Lemma exact_sign_preserving : sign_preserving exact any_number.
Proof.
  split; simpl; intros x y; try (intro H; lra); try (intros _ H; lra).
  - intros Hx Hy. apply Qmult_le_0_compat; assumption.
  - intros Hx Hy.
    assert (H : 0 <= (- x) * y) by (apply Qmult_le_0_compat; lra).
    assert (E : x * y == - ((- x) * y)) by ring.
    rewrite E. lra.
Qed.

Lemma clip_monotone (lo hi x y : Q) :
  lo <= hi -> x <= y -> DimCoord.clip lo hi x <= DimCoord.clip lo hi y.
Proof.
  intros Hlh Hxy. unfold DimCoord.clip, Qltb.
  destruct (Qle_bool lo x) eqn:E1; [apply Qle_bool_true in E1|apply Qle_bool_false in E1];
    destruct (Qle_bool lo y) eqn:E2; [apply Qle_bool_true in E2|apply Qle_bool_false in E2
                                     |apply Qle_bool_true in E2|apply Qle_bool_false in E2];
    simpl;
    repeat match goal with
      | |- context [Qle_bool ?a ?b] =>
          let E := fresh "E" in
          destruct (Qle_bool a b) eqn:E;
          [apply Qle_bool_true in E | apply Qle_bool_false in E]
      end; simpl; lra.
Qed.

Lemma clip_inside (lo hi x : Q) : lo <= x -> x <= hi -> DimCoord.clip lo hi x == x.
Proof.
  intros H1 H2. unfold DimCoord.clip, Qltb.
  apply Qle_bool_iff in H1. rewrite H1. simpl.
  apply Qle_bool_iff in H2. rewrite H2. reflexivity.
Qed.

(** A point lies within a pair of values placed on either side of it. *)
Lemma pair_around_point (p x y : Q) :
  (x <= p /\ p <= y) \/ (y <= p /\ p <= x) ->
  Cell.contains_point (Cell.mk (SNum p) (Some (map SNum [x; y]))) (SNum p) = Ok true.
Proof.
  intro H. unfold Cell.contains_point, np_min, np_max, np_extreme. simpl.
  unfold Qextreme, Qcmp, Qltb. simpl.
  destruct H as [[H1 H2]|[H1 H2]];
  (destruct (Qle_bool x y) eqn:Exy;
   [apply Qle_bool_true in Exy | apply Qle_bool_false in Exy]);
  (destruct (Qle_bool y x) eqn:Eyx;
   [apply Qle_bool_true in Eyx | apply Qle_bool_false in Eyx]); simpl;
  repeat match goal with
    | |- context [Qle_bool ?a ?b] =>
        let E := fresh "E" in
        destruct (Qle_bool a b) eqn:E;
        [apply Qle_bool_true in E | apply Qle_bool_false in E]; simpl
    end; try reflexivity; exfalso; lra.
Qed.

(** The computed differences of rising points are not negative, those of
    falling points not positive. *)
Lemma np_diff_signs (ar : arithmetic) (is_value : Q -> Prop) (pts : array1) :
  sign_preserving ar is_value ->
  (forallb (fun x => Qltb 0 x) (diff pts) = true ->
   Forall (fun d => 0 <= d) (np_diff ar pts)) /\
  (forallb (fun x => Qltb x 0) (diff pts) = true ->
   Forall (fun d => d <= 0) (np_diff ar pts)).
Proof.
  intro Hs. induction pts as [|x pts IH]; [split; constructor|].
  destruct pts as [|y pts]; [split; constructor|].
  change (diff (x :: y :: pts)) with ((y - x) :: diff (y :: pts)).
  change (np_diff ar (x :: y :: pts))
    with (np_subtract ar y x :: np_diff ar (y :: pts)).
  destruct IH as [IHup IHdown].
  split; intro H; simpl in H; apply andb_prop in H as [Hd Hrest].
  - constructor; [|now apply IHup].
    rewrite Qltb_0_minus in Hd. unfold Qltb in Hd.
    apply negb_true_iff, Qle_bool_false in Hd.
    apply (subtract_ge ar is_value Hs). lra.
  - constructor; [|now apply IHdown].
    rewrite Qltb_minus_0 in Hd. unfold Qltb in Hd.
    apply negb_true_iff, Qle_bool_false in Hd.
    apply (subtract_le ar is_value Hs). lra.
Qed.

Lemma guessed_rows_around_points (ar : arithmetic) (is_value : Q -> Prop)
      (F : Q -> Q) (position : Q) (up : bool) (pts : array1) (e0 en : Q) :
  sign_preserving ar is_value ->
  0 <= position -> position <= 1 ->
  monotone F ->
  Forall is_value pts ->
  Forall (fun p => F p == p) pts ->
  (forall d, In d (e0 :: np_diff ar pts ++ [en]) -> if up then 0 <= d else d <= 0) ->
  Forall2 (fun p row =>
             Cell.contains_point (Cell.mk (SNum p) (Some (map SNum row))) (SNum p)
             = Ok true)
          pts (guessed_rows ar F position pts e0 en).
Proof.
  intros Hs Hp0 Hp1 Hmono Hval. revert e0.
  induction pts as [|p0 pts IH]; intros e0 Hfix Hsign; [constructor|].
  inversion Hval as [|x0 l0 Hv0 Hvals]; subst.
  assert (Hrow : forall a b,
             (if up then 0 <= a else a <= 0) -> (if up then 0 <= b else b <= 0) ->
             Cell.contains_point
               (Cell.mk (SNum p0)
                        (Some (map SNum [F (min_bound ar position p0 a);
                                         F (max_bound ar position p0 b)])))
               (SNum p0) = Ok true).
  { intros a b Ha Hb. apply pair_around_point.
    inversion Hfix as [|x l Hp _]; subst.
    assert (H1 : 0 <= np_subtract ar 1 position)
      by now apply (subtract_ge ar is_value Hs).
    unfold min_bound, max_bound.
    destruct up.
    - left. split.
      + apply Qle_trans with (F p0); [apply Hmono|lra].
        apply (subtract_nonneg ar is_value Hs); [exact Hv0|].
        now apply (multiply_nonneg ar is_value Hs).
      + apply Qle_trans with (F p0); [lra|apply Hmono].
        apply (add_nonneg ar is_value Hs); [exact Hv0|].
        now apply (multiply_nonneg ar is_value Hs).
    - right. split.
      + apply Qle_trans with (F p0); [apply Hmono|lra].
        apply (add_nonpos ar is_value Hs); [exact Hv0|].
        now apply (multiply_nonpos ar is_value Hs).
      + apply Qle_trans with (F p0); [lra|apply Hmono].
        apply (subtract_nonpos ar is_value Hs); [exact Hv0|].
        now apply (multiply_nonpos ar is_value Hs). }
  destruct pts as [|p1 r].
  - change (guessed_rows ar F position [p0] e0 en)
      with [[F (min_bound ar position p0 e0); F (max_bound ar position p0 en)]].
    constructor; [|constructor].
    apply Hrow; apply Hsign; simpl; auto.
  - change (guessed_rows ar F position (p0 :: p1 :: r) e0 en)
      with ([F (min_bound ar position p0 e0);
             F (max_bound ar position p0 (np_subtract ar p1 p0))]
              :: guessed_rows ar F position (p1 :: r) (np_subtract ar p1 p0) en).
    constructor.
    + apply Hrow; apply Hsign; simpl; auto.
    + apply IH.
      * exact Hvals.
      * now inversion Hfix.
      * intros d Hd. apply Hsign.
        change (np_diff ar (p0 :: p1 :: r))
          with (np_subtract ar p1 p0 :: np_diff ar (p1 :: r)).
        right. exact Hd.
Qed.

(** For strictly monotonic points, a coordinate that is not circular and a
    position between 0 and 1, every point lies within the bounds that
    [_guess_bounds] gives to its cell, in every arithmetic that keeps the
    signs, the points being values of its type. *)
Theorem guessed_bounds_hold_their_points
        (ar : arithmetic) (is_value : Q -> Prop) (clip_latitudes : bool)
        (c : DimCoord.t) (position : Q) (b : array2) :
  sign_preserving ar is_value ->
  Forall is_value (DimCoord.points c) ->
  DimCoord.circular c = false ->
  fst (monotonic (DimCoord.points c)) = true ->
  0 <= position -> position <= 1 ->
  DimCoord._guess_bounds ar clip_latitudes c position = Ok b ->
  Forall2 (fun p row =>
             Cell.contains_point (Cell.mk (SNum p) (Some (map SNum row))) (SNum p)
             = Ok true)
          (DimCoord.points c) b.
Proof.
  intros Hs Hval Hcirc Hmono Hp0 Hp1 G.
  destruct (guess_bounds_rows ar clip_latitudes c position b Hcirc G)
    as (Hlen & _ & F & -> & HF).
  set (pts := DimCoord.points c) in *.
  destruct (np_diff_signs ar is_value pts Hs) as [Hup Hdown].
  assert (Hsign : exists up : bool,
             forall d, In d (np_diff ar pts) -> if up then 0 <= d else d <= 0).
  { unfold monotonic in Hmono.
    destruct (forallb (fun x => Qltb 0 x) (diff pts)) eqn:Eup.
    - exists true. apply Forall_forall. now apply Hup.
    - destruct (forallb (fun x => Qltb x 0) (diff pts)) eqn:Edown; [|discriminate].
      exists false. apply Forall_forall. now apply Hdown. }
  destruct Hsign as [up Hsign].
  assert (Hzero : if up then 0 <= 0 else 0 <= 0) by (destruct up; lra).
  apply (guessed_rows_around_points ar is_value F position up); try assumption.
  - destruct HF as [->|(-> & _)]; [intros x y H; exact H|].
    intros x y. apply clip_monotone. lra.
  - destruct HF as [->|(-> & _ & Hlo & Hhi)].
    + apply Forall_forall. intros. reflexivity.
    + apply Forall_forall. intros p Hin.
      rewrite forallb_forall in Hlo, Hhi.
      apply clip_inside; apply Qle_bool_iff; auto.
  - intros d [<-|Hin].
    + destruct (np_diff ar pts) as [|d0 ds]; [exact Hzero|].
      apply Hsign. now left.
    + apply in_app_or in Hin as [Hin|[<-|[]]]; [now apply Hsign|].
      destruct (np_diff ar pts) as [|d0 ds] eqn:Hd; [exact Hzero|].
      apply Hsign.
      assert (Hne : d0 :: ds <> []) by discriminate.
      rewrite (app_removelast_last 0 Hne) at 2. apply in_or_app. right. now left.
Qed.

(** In float64: the points 0, 0.1 and 0.5. *)
Lemma guessed_bounds_hold_their_points_witness :
  exists b : array2,
    DimCoord._guess_bounds binary64 false
      (plain_coord [0; float64 (1 # 10); 1 # 2] None false None) (1 # 2) = Ok b /\
    Forall2 (fun p row =>
               Cell.contains_point (Cell.mk (SNum p) (Some (map SNum row))) (SNum p)
               = Ok true)
            [0; float64 (1 # 10); 1 # 2] b.
Proof.
  eexists. split; [reflexivity|].
  apply (guessed_bounds_hold_their_points
           binary64 is_float64 false
           (plain_coord [0; float64 (1 # 10); 1 # 2] None false None) (1 # 2)).
  - apply binary64_sign_preserving.
  - repeat constructor; vm_compute; reflexivity.
  - reflexivity.
  - vm_compute. reflexivity.
  - lra.
  - lra.
  - reflexivity.
Defined.

(** ** The nearest neighbour is a cell of the coordinate *)

Lemma first_true_lt (mask : list bool) (i : nat) :
  DimCoord.first_true mask = Ok i -> (i < List.length mask)%nat.
Proof.
  revert i. induction mask as [|b r IH]; intros i; simpl; [discriminate|].
  destruct b.
  - intro H. injection H as <-. lia.
  - destruct (DimCoord.first_true r) as [j|]; simpl; [|discriminate].
    intro H. injection H as <-. specialize (IH j eq_refl). lia.
Qed.

Lemma nearest_unbounded_lt (ar : arithmetic) (pts : array1) (q : Q) (i : nat) :
  DimCoord.nearest_unbounded ar pts q = Ok i -> (i < List.length pts)%nat.
Proof.
  unfold DimCoord.nearest_unbounded.
  destruct (DimCoord.array_min _); simpl; [|discriminate].
  intro H. apply first_true_lt in H. now rewrite !length_map in H.
Qed.

Lemma insert_by_key_In (k : Q) (i : nat) (l : list (Q * nat)) (x : Q * nat) :
  In x (DimCoord.insert_by_key k i l) -> x = (k, i) \/ In x l.
Proof.
  induction l as [|[k' i'] r IH]; simpl.
  - intros [H|[]]; auto.
  - destruct (Qltb k k'); simpl.
    + intros [H|H]; auto.
    + intros [H|H]; auto. destruct (IH H); auto.
Qed.

Lemma argsort_lt (a : array1) (i : nat) :
  In i (DimCoord.argsort a) -> (i < List.length a)%nat.
Proof.
  unfold DimCoord.argsort. intro H.
  apply in_map_iff in H as ([k j] & <- & H). simpl.
  assert (Hgen : forall (l acc : list (Q * nat)) x,
             In x (fold_left (fun acc ki => DimCoord.insert_by_key (fst ki) (snd ki) acc)
                             l acc) ->
             In x l \/ In x acc).
  { induction l as [|[k' j'] l IHl]; intros acc x Hx; simpl in *; [auto|].
    destruct (IHl _ _ Hx) as [Hl|Hacc]; [auto|].
    apply insert_by_key_In in Hacc as [->|Hacc]; auto. }
  destruct (Hgen _ _ _ H) as [Hin|[]].
  apply in_combine_r in Hin. apply in_seq in Hin. lia.
Qed.

Lemma nearest_bounded_lt (ar : arithmetic) (b : array2) (q : Q) (i : nat) :
  DimCoord.nearest_bounded ar b q = Ok i -> (i < List.length b)%nat.
Proof.
  unfold DimCoord.nearest_bounded.
  destruct b as [|row0 rows]; [discriminate|]. cbn [bind].
  destruct (nth_error row0 0); cbn [bind]; [|discriminate].
  destruct (nth_error row0 1); cbn [bind]; [|discriminate].
  match goal with
  | |- bind ?r _ = _ -> _ => destruct r as [inside|]; cbn [bind]; [|discriminate]
  end.
  destruct (DimCoord.first_true inside) as [r|]; cbn [bind]; [|discriminate].
  destruct (nth_error (DimCoord.argsort (map (DimCoord.mean ar) (row0 :: rows))) r)
    as [j|] eqn:Hn; [|discriminate].
  intro H. injection H as <-.
  apply nth_error_In in Hn. apply argsort_lt in Hn.
  now rewrite length_map in Hn.
Qed.

(** Whenever [nearest_neighbour_index] returns, with or without bounds,
    circular or not, the index is that of a cell of the coordinate (the
    bounds, where present, having one row per point). *)
Theorem nearest_neighbour_index_in_range
        (ar : arithmetic) (c : DimCoord.t) (q : Q) (i : nat) :
  match DimCoord.bounds c with
  | Some b => List.length b = DimCoord.shape c
  | None => True
  end ->
  DimCoord.nearest_neighbour_index ar c q = Ok i ->
  (i < DimCoord.shape c)%nat.
Proof.
  intro Hrows. unfold DimCoord.nearest_neighbour_index.
  match goal with
  | |- bind ?r _ = _ -> _ => destruct r as [q'|]; cbn [bind]; [|discriminate]
  end.
  destruct (DimCoord.bounds c) as [b|].
  - intro H. apply nearest_bounded_lt in H. now rewrite <- Hrows.
  - destruct (DimCoord.circular c).
    + destruct (DimCoord.units_modulus c) as [m|]; cbn [bind]; [|discriminate].
      unfold DimCoord.shape.
      destruct (DimCoord.points c) as [|p0 pts]; cbn [bind]; [discriminate|].
      assert (Hmod : forall z : Z,
                 (Z.to_nat (z mod Z.of_nat (List.length (p0 :: pts)))
                  < List.length (p0 :: pts))%nat).
      { intro z.
        pose proof (Z.mod_pos_bound z (Z.of_nat (List.length (p0 :: pts)))) as Hb.
        simpl List.length in *. lia. }
      destruct (Qle_bool p0 (last (p0 :: pts) p0)).
      * destruct (DimCoord.nearest_unbounded ar _ q'); cbn [bind]; [|discriminate].
        intro H. injection H as <-. apply Hmod.
      * destruct (DimCoord.nearest_unbounded ar _ q'); cbn [bind]; [|discriminate].
        intro H. injection H as <-. apply Hmod.
    + apply nearest_unbounded_lt.
Qed.

Lemma nearest_neighbour_index_in_range_witness :
  lt 0 (DimCoord.shape
          (plain_coord [0; 90; 180; 270] None true
                       (Some (DimCoord.mk_unit "degrees" (Some 360))))).
Proof.
  apply (nearest_neighbour_index_in_range
           exact
           (plain_coord [0; 90; 180; 270] None true
                        (Some (DimCoord.mk_unit "degrees" (Some 360)))) 350 0%nat).
  - exact I.
  - vm_compute. reflexivity.
Defined.

(** A coordinate with bounds: the cell whose bounds hold the value. *)
Example nearest_neighbour_with_bounds :
  DimCoord.nearest_neighbour_index
    exact
    (plain_coord [0; 10; 20] (Some [[- (5); 5]; [5; 15]; [15; 25]]) false None) 12
  = Ok 1%nat.
Proof. vm_compute. reflexivity. Qed.

(** ** Slices of a valid coordinate *)

Lemma diff_cons_incl (x d : Q) (l : array1) : In d (diff l) -> In d (diff (x :: l)).
Proof.
  destruct l as [|y r]; [contradiction|].
  intro H. change (diff (x :: y :: r)) with ((y - x) :: diff (y :: r)). now right.
Qed.

Lemma diff_skipn_incl (a : nat) (l : array1) (d : Q) :
  In d (diff (skipn a l)) -> In d (diff l).
Proof.
  revert l. induction a as [|a IH]; intros l H; [exact H|].
  destruct l as [|x l]; [exact H|].
  apply diff_cons_incl, IH. exact H.
Qed.

Lemma diff_firstn_incl (n : nat) (l : array1) (d : Q) :
  In d (diff (firstn n l)) -> In d (diff l).
Proof.
  revert n. induction l as [|x l IH]; intros n H.
  - now rewrite firstn_nil in H.
  - destruct n as [|n]; [contradiction|].
    destruct l as [|y r]; [destruct n; exact H|].
    destruct n as [|n]; [contradiction|].
    change (diff (firstn (S (S n)) (x :: y :: r)))
      with ((y - x) :: diff (firstn (S n) (y :: r))) in H.
    change (diff (x :: y :: r)) with ((y - x) :: diff (y :: r)).
    destruct H as [H|H]; [now left|right; now apply (IH (S n))].
Qed.

Lemma diff_slice_incl (k : keys) (l : array1) (d : Q) :
  In d (diff (_slice_data_with_keys l k)) -> In d (diff l).
Proof.
  destruct k as [a z]. simpl. intro H.
  apply diff_firstn_incl in H. now apply diff_skipn_incl in H.
Qed.

Lemma diff_nonempty (l : array1) : (2 <= List.length l)%nat -> diff l <> [].
Proof. destruct l as [|x [|y r]]; simpl; try lia. discriminate. Qed.

Lemma slice_length_le {A : Type} (k : keys) (l : list A) :
  (List.length (_slice_data_with_keys l k) <= List.length l)%nat.
Proof.
  destruct k as [a z]. simpl. rewrite length_firstn, length_skipn. lia.
Qed.

Lemma slice_length_eq {A B : Type} (k : keys) (l : list A) (l' : list B) :
  List.length l = List.length l' ->
  List.length (_slice_data_with_keys l k) = List.length (_slice_data_with_keys l' k).
Proof.
  destruct k as [a z]. simpl. intro H.
  rewrite !length_firstn, !length_skipn. lia.
Qed.

Lemma slice_In {A : Type} (k : keys) (l : list A) (x : A) :
  In x (_slice_data_with_keys l k) -> In x l.
Proof.
  destruct k as [a z]. simpl. intro H.
  rewrite <- (firstn_skipn a l). apply in_or_app. right.
  rewrite <- (firstn_skipn (z - a) (skipn a l)). apply in_or_app. now left.
Qed.

(** A slice of two or more values of a strictly monotonic array is strictly
    monotonic in the same direction. *)
Lemma monotonic_slice (k : keys) (l : array1) :
  fst (monotonic l) = true ->
  (2 <= List.length (_slice_data_with_keys l k))%nat ->
  monotonic (_slice_data_with_keys l k) = monotonic l.
Proof.
  intros Hmono Hlen.
  pose proof (diff_nonempty _ Hlen) as Hne.
  set (s := _slice_data_with_keys l k) in *.
  assert (Hsub : forall P : Q -> bool,
             forallb P (diff l) = true -> forallb P (diff s) = true).
  { intros P HP. rewrite forallb_forall in *. intros d Hd.
    apply HP. now apply (diff_slice_incl k). }
  unfold monotonic in *.
  destruct (forallb (fun x => Qltb 0 x) (diff l)) eqn:Hup.
  - now rewrite (Hsub _ Hup).
  - destruct (forallb (fun x => Qltb x 0) (diff l)) eqn:Hdown; [|discriminate].
    pose proof (Hsub _ Hdown) as Hs.
    destruct (diff s) as [|d ds] eqn:Hd; [congruence|].
    simpl in Hs |- *. apply andb_prop in Hs as [Hd0 Hds].
    rewrite Hd0, Hds. simpl.
    replace (Qltb 0 d) with false; [reflexivity|].
    unfold Qltb in *. apply negb_true_iff, Qle_bool_false in Hd0.
    symmetry. apply negb_false_iff, Qle_bool_iff. lra.
Qed.

Lemma points_requirements_slice (k : keys) (l : array1) :
  DimCoord._new_points_requirements l = Ok tt ->
  DimCoord._new_points_requirements (_slice_data_with_keys l k) = Ok tt.
Proof.
  unfold DimCoord._new_points_requirements.
  destruct (1 <? List.length (_slice_data_with_keys l k))%nat eqn:Hs; [|reflexivity].
  apply Nat.ltb_lt in Hs.
  pose proof (slice_length_le k l) as Hle.
  assert (Hl : (1 <? List.length l)%nat = true) by (apply Nat.ltb_lt; lia).
  rewrite Hl. simpl.
  destruct (fst (monotonic l)) eqn:Hm; [|discriminate].
  intros _. rewrite (monotonic_slice k l Hm) by lia. now rewrite Hm.
Qed.

Lemma column_slice (k : keys) (b : array2) (j : nat) :
  DimCoord.column (_slice_data_with_keys b k) j
  = _slice_data_with_keys (DimCoord.column b j) k.
Proof.
  destruct k as [a z]. unfold DimCoord.column. simpl.
  now rewrite skipn_map, firstn_map.
Qed.

Lemma column_directions_slice (k : keys) (b : array2) (js : list nat)
      (acc dirs : list Z) :
  (2 <= List.length (_slice_data_with_keys b k))%nat ->
  DimCoord.column_directions b js acc = Ok dirs ->
  DimCoord.column_directions (_slice_data_with_keys b k) js acc = Ok dirs.
Proof.
  intro Hlen. revert acc. induction js as [|j js IH]; intro acc; simpl; [auto|].
  rewrite column_slice.
  destruct (monotonic (DimCoord.column b j)) as [mono direction] eqn:Hm.
  destruct mono; simpl; [|discriminate].
  rewrite monotonic_slice.
  - rewrite Hm. simpl. apply IH.
  - now rewrite Hm.
  - rewrite <- column_slice. unfold DimCoord.column. now rewrite length_map.
Qed.

Lemma rectangular_slice (k : keys) (b : array2) :
  rectangular b = true ->
  rectangular (_slice_data_with_keys b k) = true /\
  (_slice_data_with_keys b k <> [] ->
   DimCoord.ncols (_slice_data_with_keys b k) = DimCoord.ncols b).
Proof.
  intro Hrect. unfold rectangular in Hrect. rewrite forallb_forall in Hrect.
  assert (Hn : _slice_data_with_keys b k <> [] ->
               DimCoord.ncols (_slice_data_with_keys b k) = DimCoord.ncols b).
  { intro Hne. destruct (_slice_data_with_keys b k) as [|row rows] eqn:Hs; [congruence|].
    simpl. apply Nat.eqb_eq, Hrect. apply (slice_In k). rewrite Hs. now left. }
  split; [|exact Hn].
  unfold rectangular. apply forallb_forall. intros row Hrow.
  rewrite Hn by (intro E; rewrite E in Hrow; contradiction).
  apply Hrect. now apply (slice_In k).
Qed.

(** Indexing a valid coordinate that has bounds with a slice succeeds: the
    new coordinate has the definition of the old one, the slice of its
    points and the slice of its bounds, and is valid again.  It is circular
    exactly when the old one is and the number of points is unchanged. *)
Theorem getitem_slice (c : DimCoord.t) (b : array2) (k : keys) :
  valid_DimCoord c ->
  DimCoord.bounds c = Some b ->
  exists s : DimCoord.t,
    DimCoord.__getitem__ c k = Ok s /\
    DimCoord.defn s = DimCoord.defn c /\
    DimCoord.points s = _slice_data_with_keys (DimCoord.points c) k /\
    DimCoord.bounds s = Some (_slice_data_with_keys b k) /\
    DimCoord.circular s
    = (DimCoord.circular c && (DimCoord.shape s =? DimCoord.shape c)%nat) /\
    valid_DimCoord s.
Proof.
  intros [Hpts Hbnds] Hb. rewrite Hb in Hbnds. destruct Hbnds as [Hrect Hreq].
  pose proof (points_requirements_slice k _ Hpts) as Hpts'.
  destruct (rectangular_slice k b Hrect) as [Hrect' Hcols].
  unfold DimCoord.bounds in Hb.
  destruct (DimCoord._bounds_dm c) as [dm|] eqn:Hdm; [|discriminate].
  injection Hb as Hb.
  set (c1 := DimCoord.with_points_dm c
               (dm_set_data (DimCoord._points_dm c)
                            (_slice_data_with_keys (DimCoord.points c) k))).
  assert (Hreq' : DimCoord._new_bounds_requirements c1 (_slice_data_with_keys b k) = Ok tt).
  { unfold DimCoord._new_bounds_requirements in *.
    destruct (negb (DimCoord.shape c =? List.length b)%nat) eqn:Hshape; [discriminate|].
    apply negb_false_iff, Nat.eqb_eq in Hshape.
    assert (Hs1 : DimCoord.shape c1 = List.length (_slice_data_with_keys b k)).
    { unfold c1, DimCoord.shape, DimCoord.points. simpl.
      apply slice_length_eq. exact Hshape. }
    rewrite Hs1, Nat.eqb_refl. simpl.
    destruct (1 <? List.length (_slice_data_with_keys b k))%nat eqn:Hlen; [|reflexivity].
    apply Nat.ltb_lt in Hlen.
    pose proof (slice_length_le k b) as Hle.
    assert (Hl : (1 <? List.length b)%nat = true) by (apply Nat.ltb_lt; lia).
    rewrite Hl in Hreq.
    rewrite Hcols by (intro E; rewrite E in Hlen; simpl in Hlen; lia).
    destruct (DimCoord.column_directions b (seq 0 (DimCoord.ncols b)) [])
      as [dirs|] eqn:Hdirs; [|discriminate].
    rewrite (column_directions_slice k b _ _ dirs) by (assumption || lia).
    exact Hreq. }
  exists (DimCoord.with_circular
            (DimCoord.with_bounds_dm c1 (Some (dm_set_data dm (_slice_data_with_keys b k))))
            (DimCoord.circular c
             && (List.length (_slice_data_with_keys (DimCoord.points c) k)
                 =? DimCoord.shape c)%nat)).
  split.
  - unfold DimCoord.__getitem__, DimCoord.Coord___getitem__, DimCoord.copy,
      DimCoord.Coord_copy, DimCoord.set_points, DimCoord.set_bounds.
    rewrite Hdm. cbn [bind core_data dm_copy].
    unfold DimCoord.points in Hpts'. rewrite Hpts'. cbn [bind].
    rewrite Hb. fold (DimCoord.points c). fold c1.
    rewrite Hreq'. cbn [bind].
    replace (DimCoord._bounds_dm c1) with (Some dm) by (unfold c1; simpl; now rewrite Hdm).
    cbn [bind]. reflexivity.
  - split; [reflexivity|]. split; [reflexivity|]. split; [reflexivity|].
    split; [reflexivity|].
    split; [exact Hpts'|]. split; [exact Hrect'|].
    exact Hreq'.
Qed.

Lemma getitem_slice_witness :
  exists s : DimCoord.t,
    DimCoord.__getitem__
      (plain_coord [0; 1; 2] (Some [[0; 1]; [1; 2]; [2; 3]]) true None) (Slice 1 3)
    = Ok s /\
    DimCoord.points s = [1; 2] /\ DimCoord.circular s = false.
Proof.
  destruct (getitem_slice
              (plain_coord [0; 1; 2] (Some [[0; 1]; [1; 2]; [2; 3]]) true None)
              [[0; 1]; [1; 2]; [2; 3]] (Slice 1 3))
    as (s & Hs & _ & Hp & _ & Hc & _).
  - split; [reflexivity|]. split; reflexivity.
  - reflexivity.
  - exists s. split; [exact Hs|]. split; [exact Hp|].
    rewrite Hc. unfold DimCoord.shape. rewrite Hp. reflexivity.
Defined.

(** ** The name of a definition *)

(** [CoordDefn.name] returns the standard name when it is set and not
    empty, else the long name, else the variable name, under the same
    condition, else the default; an empty name counts as unset.  So the
    result is empty only if the default is. *)
Theorem CoordDefn_name_properties
        (Unit CoordSystem : Type) (d : CoordDefn.t Unit CoordSystem) (default : string) :
  (default <> EmptyString -> CoordDefn.name d default <> EmptyString) /\
  (forall s, CoordDefn.standard_name d = Some s -> s <> EmptyString ->
             CoordDefn.name d default = s) /\
  (forall s, (CoordDefn.standard_name d = None \/ CoordDefn.standard_name d = Some EmptyString) ->
             CoordDefn.long_name d = Some s -> s <> EmptyString ->
             CoordDefn.name d default = s) /\
  (forall s, (CoordDefn.standard_name d = None \/ CoordDefn.standard_name d = Some EmptyString) ->
             (CoordDefn.long_name d = None \/ CoordDefn.long_name d = Some EmptyString) ->
             CoordDefn.var_name d = Some s -> s <> EmptyString ->
             CoordDefn.name d default = s) /\
  ((CoordDefn.standard_name d = None \/ CoordDefn.standard_name d = Some EmptyString) ->
   (CoordDefn.long_name d = None \/ CoordDefn.long_name d = Some EmptyString) ->
   (CoordDefn.var_name d = None \/ CoordDefn.var_name d = Some EmptyString) ->
   CoordDefn.name d default = default).
Proof.
  assert (Hor : forall x y, y <> EmptyString -> CoordDefn.or_else x y <> EmptyString).
  { intros [s|] y Hy; simpl; [|exact Hy].
    destruct (String.eqb s EmptyString) eqn:E; [exact Hy|].
    now apply String.eqb_neq in E. }
  assert (Hset : forall s y, s <> EmptyString -> CoordDefn.or_else (Some s) y = s).
  { intros s y Hs. simpl. apply String.eqb_neq in Hs. now rewrite Hs. }
  assert (Hunset : forall x y, (x = None \/ x = Some EmptyString) -> CoordDefn.or_else x y = y).
  { intros x y [->| ->]; reflexivity. }
  unfold CoordDefn.name. repeat split.
  - intro Hd. now repeat apply Hor.
  - intros s -> Hs. now apply Hset.
  - intros s H1 -> Hs. rewrite (Hunset _ _ H1). now apply Hset.
  - intros s H1 H2 -> Hs. rewrite (Hunset _ _ H1), (Hunset _ _ H2). now apply Hset.
  - intros H1 H2 H3. now rewrite (Hunset _ _ H1), (Hunset _ _ H2), (Hunset _ _ H3).
Qed.

(** ** The data of a cell measure *)

Lemma CellMeasure_set_data_shape (m m' : CellMeasure.t) (d : CellMeasure.ndarray) :
  CellMeasure.set_data m (Some d) = Ok m' ->
  CellMeasure.shape m' = Ok (promoted_shape (CellMeasure.shape_of d)) /\
  CellMeasure._measure m' = CellMeasure._measure m /\
  (CellMeasure.is_lazy_data d && CellMeasure.is_integral (CellMeasure.dtype_kind d)) = false.
Proof.
  unfold CellMeasure.set_data.
  destruct (CellMeasure.is_lazy_data d && CellMeasure.is_integral (CellMeasure.dtype_kind d));
    [discriminate|].
  assert (Hsh : CellMeasure.shape_of
                  (if AuxCoord.shape_eqb (CellMeasure.shape_of d) []
                   then CellMeasure.mk_array false (CellMeasure.dtype_kind d) [1%nat]
                                             (CellMeasure.values d)
                   else d)
                = promoted_shape (CellMeasure.shape_of d)).
  { destruct (CellMeasure.shape_of d) eqn:E; simpl; [reflexivity|].
    now rewrite E. }
  destruct (CellMeasure._data_manager m) as [| |dm].
  - intro H. injection H as <-. unfold CellMeasure.shape. simpl. now rewrite Hsh.
  - intro H. injection H as <-. unfold CellMeasure.shape. simpl. now rewrite Hsh.
  - match goal with |- (if ?cond then _ else _) = _ -> _ => destruct cond end;
      [discriminate|].
    intro H. injection H as <-. unfold CellMeasure.shape. simpl. now rewrite Hsh.
Qed.

(** Assigning data to a cell measure that has data leaves its shape as it
    was: the assignment is accepted only when the shape of the new data,
    [()] counted as [(1,)], is the shape of the measure, and raises
    [ValueError] otherwise.  The measure name is unchanged. *)
Theorem CellMeasure_data_keeps_shape
        (m : CellMeasure.t) (dm : DataManager CellMeasure.ndarray) (d : CellMeasure.ndarray) :
  CellMeasure._data_manager m = AuxCoord.Value dm ->
  (forall m', CellMeasure.set_data m (Some d) = Ok m' ->
              CellMeasure.shape m' = CellMeasure.shape m /\
              CellMeasure._measure m' = CellMeasure._measure m) /\
  (promoted_shape (CellMeasure.shape_of d) <> CellMeasure.shape_of (core_data dm) ->
   CellMeasure.set_data m (Some d) = Raise ValueError).
Proof.
  intro Hdm.
  assert (Hacc : forall m', CellMeasure.set_data m (Some d) = Ok m' ->
                            promoted_shape (CellMeasure.shape_of d)
                            = CellMeasure.shape_of (core_data dm)).
  { intros m' H. unfold CellMeasure.set_data in H. rewrite Hdm in H.
    destruct (CellMeasure.is_lazy_data d && CellMeasure.is_integral (CellMeasure.dtype_kind d));
      [discriminate|].
    match type of H with (if negb ?cond then _ else _) = _ => destruct cond eqn:C end;
      simpl in H; [|discriminate].
    apply shape_eqb_eq in C. rewrite <- C.
    destruct (CellMeasure.shape_of d) eqn:E; simpl; [reflexivity|now rewrite E]. }
  split.
  - intros m' H. destruct (CellMeasure_set_data_shape m m' d H) as (Hs & Hm & _).
    split; [|exact Hm]. rewrite Hs. unfold CellMeasure.shape. rewrite Hdm.
    f_equal. now apply (Hacc m').
  - intro Hne. destruct (CellMeasure.set_data m (Some d)) as [m'|e] eqn:H.
    + elim Hne. now apply (Hacc m').
    + unfold CellMeasure.set_data in H. rewrite Hdm in H.
      destruct (CellMeasure.is_lazy_data d
                && CellMeasure.is_integral (CellMeasure.dtype_kind d)) eqn:Hl.
      * now injection H as <-.
      * match type of H with (if ?cond then _ else _) = _ => destruct cond end;
          [now injection H as <-|discriminate].
Qed.

Lemma CellMeasure_data_keeps_shape_witness :
  CellMeasure.set_data
    (CellMeasure.mk None None None "m2" [] (Some "area"%string)
       (AuxCoord.Value (mk_dm (CellMeasure.mk_array false CellMeasure.KindOther [2%nat] [1; 2]))))
    (Some (CellMeasure.mk_array false CellMeasure.KindOther [3%nat] [1; 2; 3]))
  = Raise ValueError.
Proof.
  apply (CellMeasure_data_keeps_shape
           (CellMeasure.mk None None None "m2" [] (Some "area"%string)
              (AuxCoord.Value
                 (mk_dm (CellMeasure.mk_array false CellMeasure.KindOther [2%nat] [1; 2]))))
           (mk_dm (CellMeasure.mk_array false CellMeasure.KindOther [2%nat] [1; 2]))
           (CellMeasure.mk_array false CellMeasure.KindOther [3%nat] [1; 2; 3]) eq_refl).
  discriminate.
Defined.

(** A cell measure that was constructed has the measure ["area"] or
    ["volume"] and data of at least one dimension that is not lazy integral
    data; [copy(data=...)] with data that is not lazy integral data succeeds
    whatever the shape of the measure, and the copy has the shape of the new
    data and the measure name of the original. *)
Theorem CellMeasure_init_and_copy
        (data : option CellMeasure.ndarray) (sn ln vn : option string) (units : string)
        (attributes : list (string * string)) (measure : string)
        (m : CellMeasure.t) (d : CellMeasure.ndarray) :
  CellMeasure.__init__ data sn ln vn units attributes measure = Ok m ->
  (CellMeasure.is_lazy_data d && CellMeasure.is_integral (CellMeasure.dtype_kind d)) = false ->
  (measure = "area"%string \/ measure = "volume"%string) /\
  CellMeasure._measure m = Some measure /\
  (exists d0, data = Some d0 /\
              CellMeasure.shape m = Ok (promoted_shape (CellMeasure.shape_of d0)) /\
              (CellMeasure.is_lazy_data d0
               && CellMeasure.is_integral (CellMeasure.dtype_kind d0)) = false) /\
  (exists m', CellMeasure.copy m (Some d) = Ok m' /\
              CellMeasure.shape m' = Ok (promoted_shape (CellMeasure.shape_of d)) /\
              CellMeasure._measure m' = Some measure).
Proof.
  unfold CellMeasure.__init__, CellMeasure.set_measure.
  destruct (String.eqb measure "area" || String.eqb measure "volume") eqn:Hm;
    simpl; [|discriminate].
  intros Hinit Hd.
  assert (Hmeasure : measure = "area"%string \/ measure = "volume"%string).
  { apply orb_prop in Hm as [H|H]; apply String.eqb_eq in H; auto. }
  destruct data as [d0|]; [|discriminate].
  destruct (CellMeasure_set_data_shape _ _ _ Hinit) as (Hs & Hme & Hl).
  simpl in Hme.
  split; [exact Hmeasure|]. split; [exact Hme|]. split.
  - exists d0. repeat split; assumption.
  - unfold CellMeasure.copy.
    destruct (CellMeasure.set_data
                (CellMeasure.with_data_manager m AuxCoord.IsNone) (Some d))
      as [m'|e] eqn:Hc.
    + exists m'. split; [exact Hc|].
      destruct (CellMeasure_set_data_shape _ _ _ Hc) as (Hs' & Hme' & _).
      split; [exact Hs'|]. rewrite Hme'. exact Hme.
    + exfalso. unfold CellMeasure.set_data in Hc. rewrite Hd in Hc.
      simpl in Hc. discriminate.
Qed.

Lemma CellMeasure_init_and_copy_witness :
  exists m', CellMeasure.copy
               (CellMeasure.mk None None None "m2" [] (Some "area"%string)
                  (AuxCoord.Value
                     (mk_dm (CellMeasure.mk_array false CellMeasure.KindOther [2%nat] [1; 2]))))
               (Some (CellMeasure.mk_array false CellMeasure.KindOther [] [7]))
             = Ok m' /\
             CellMeasure.shape m' = Ok [1%nat].
Proof.
  destruct (CellMeasure_init_and_copy
              (Some (CellMeasure.mk_array false CellMeasure.KindOther [2%nat] [1; 2]))
              None None None "m2" [] "area"
              (CellMeasure.mk None None None "m2" [] (Some "area"%string)
                 (AuxCoord.Value
                    (mk_dm (CellMeasure.mk_array false CellMeasure.KindOther [2%nat] [1; 2]))))
              (CellMeasure.mk_array false CellMeasure.KindOther [] [7])
              eq_refl eq_refl)
    as (_ & _ & _ & m' & Hc & Hs & _).
  exists m'. split; [exact Hc|exact Hs].
Defined.

(** ** The text of a cell method *)

Lemma map_nth_seq (l : list string) :
  map (fun i => nth i l EmptyString) (seq 0 (List.length l)) = l.
Proof.
  induction l as [|x l IH]; [reflexivity|].
  simpl. f_equal. rewrite <- seq_shift, map_map. exact IH.
Qed.

(** A cell method made from a method name and coordinates, without
    intervals and comments, is written as the method name, a colon, and the
    coordinate names separated by commas; a coordinate given as an object
    contributes its name, and one coordinate given alone counts as a
    sequence of one. *)
Theorem CellMethod_str_of_names (m : string) (coords : CellMethod.coords_arg) :
  exists cm : CellMethod.t,
    CellMethod.__init__ (CellMethod.MethodString m) coords
                        CellMethod.StringsNone CellMethod.StringsNone = Ok cm /\
    CellMethod.coord_names cm
    = match coords with
      | CellMethod.CoordsNone => []
      | CellMethod.CoordsOne c => [CellMethod.normalise c]
      | CellMethod.CoordsMany l => map CellMethod.normalise l
      end /\
    CellMethod.__str__ cm
    = ((m ++ ": ") ++ String.concat ", " (CellMethod.coord_names cm))%string.
Proof.
  eexists. split; [reflexivity|]. split; [reflexivity|].
  unfold CellMethod.__str__, CellMethod.zip_longest. simpl.
  rewrite Nat.max_0_r, map_map. f_equal. f_equal.
  rewrite <- (map_nth_seq
                match coords with
                | CellMethod.CoordsNone => []
                | CellMethod.CoordsOne c => [CellMethod.normalise c]
                | CellMethod.CoordsMany l => map CellMethod.normalise l
                end) at 2.
  apply map_ext. intro i. destruct i; reflexivity.
Qed.

(** [CellMethod('mean', ['time', 'latitude'], ['1 hour'], 'daily')]. *)
Example CellMethod_str_with_intervals :
  CellMethod.__str__
    (CellMethod.mk "mean" ["time"; "latitude"]%string ["1 hour"%string] ["daily"%string])
  = "mean: time (1 hour, daily), latitude"%string.
Proof. reflexivity. Qed.

(** ** Negating a coordinate *)













(** ** Rounded results *)

(** [float64]: the float nearest to one tenth is
    [3602879701896397 / 2 ** 55]; integers below [2 ** 53] and their halves
    are floats; [2 ** 53 + 1] lies between two floats and goes to the even
    one. *)
Example float64_values :
  float64 (1 # 10) == 3602879701896397 # 36028797018963968 /\
  float64 12345 == 12345 /\
  float64 (- (7 # 2)) == - (7 # 2) /\
  float64 9007199254740993 == 9007199254740992 /\
  float64 9007199254740995 == 9007199254740996.
Proof. repeat split; vm_compute; reflexivity. Qed.

(** The sum of the floats nearest to 0.1 and 0.2 is above the float
    nearest to 0.3. *)
Example float64_sum_of_tenths :
  float64 (3 # 10) < np_add binary64 (float64 (1 # 10)) (float64 (2 # 10)).
Proof. vm_compute. reflexivity. Qed.

(** Adding [1e16] merges 1 and one half: the cell of point 1 does not
    equal one half, the shifted cell equals the shifted number. *)
Example cell_add_merges_values :
  Cell.__eq__ (Cell.mk (SNum 1) None) (Cell.OScalar (SNum (1 # 2)))
  = Ok (PyBool false) /\
  exists c' : Cell.t,
    Cell.__add__ binary64 (Cell.mk (SNum 1) None) (SNum (10 ^ 16)) = Ok c' /\
    Cell.__eq__ c' (Cell.OScalar (SNum (np_add binary64 (1 # 2) (10 ^ 16))))
    = Ok (PyBool true).
Proof.
  split; [reflexivity|]. eexists. split; [reflexivity|]. vm_compute. reflexivity.
Qed.

(** The points [0, 1] plus [1e16]: both sums are [1e16], which is not
    strictly monotonic, and the addition raises. *)
Example coord_add_merges_points :
  DimCoord.__add__ binary64 (plain_coord [0; 1] None false None) (10 ^ 16)
  = Raise ValueError.
Proof. vm_compute. reflexivity. Qed.

(** The points [0, 1] and the query [1e17]: both computed distances are
    [1e17] and index 0 is returned, although the point at index 1 is
    nearer. *)
Example nearest_neighbour_rounded :
  DimCoord.nearest_neighbour_index binary64 (plain_coord [0; 1] None false None) (10 ^ 17)
  = Ok 0%nat /\
  Qabs (1 - 10 ^ 17) < Qabs (0 - 10 ^ 17).
Proof. split; vm_compute; reflexivity. Qed.

(** The points [0, 0.1, 0.5]: the upper bound guessed for the second cell
    and the lower bound guessed for the third differ in the last bit, and
    the guessed bounds are not contiguous at zero tolerance; they are at
    the default tolerances. *)
Example guessed_bounds_rounded :
  exists b : array2,
    DimCoord._guess_bounds binary64 false
      (plain_coord [0; float64 (1 # 10); 1 # 2] None false None) (1 # 2) = Ok b /\
    DimCoord.contiguous_array binary64 b 0 0 = false /\
    DimCoord.contiguous_array binary64 b DimCoord.default_rtol DimCoord.default_atol
    = true.
Proof.
  eexists. split; [reflexivity|]. split; vm_compute; reflexivity.
Qed.
